(* ===== verification/_CoqProject ===== *)
-Q . S2P
Prelude.v
Config.v
PathOps.v
Utf8.v
Walk.v
Ingest.v
Spec.v
Document.v
Refinement.v
Console.v
