(* ===== verification/Prelude.v ===== *)
(** * A verification development for Podder's [ingest.py]

    The repository is one Python script, [src/ingest.py].  Its function
    [generate_context] (lines 20-59) removes any earlier output at
    [OUTPUT_FILE] ("notebookLM/project_context.md"), opens it, writes a
    header, walks the current directory with [os.walk(".")], prunes the
    directories named in [IGNORED_DIRS] (line 33), keeps the files whose
    lower-cased extension is in [INCLUDED_EXTENSIONS] and whose name is not
    ["ingest.py"] or [OUTPUT_FILE] (lines 36-39), and for each writes a
    heading with its relative path, a fence, its text read as UTF-8 inside
    a [try], and a closing fence (lines 41-56).  It prints a banner, a
    [Reading] line while fewer than three files have been read, one warning
    per failed read, the count and the absolute output path.

    ** Files, in dependency order

    - [Prelude] (this file): Python [str] values as lists of code points
      ([pystr]) and [bytes] as lists of integers, the literals of the source
      ([py]), the exceptions the run can meet ([exn]), the error monad
      [result], and [pyM], the state monad of Python statements in which a
      statement that raises keeps the effects it had ([ptry] is
      [try]/[except]), with its notations in [ingest_scope]; the tactics,
      hint databases and list and bit lemmas the other files share, and
      [preserves I m], the invariant rule of a statement, with its rules
      for [pret], [pbind], [plift] and [ptry] (hint database [pyinv]).
    - [Config] (lines 5-17, 39): the constants and the [config] record the
      spec describes; [source_config] holds the source's values.
    - [PathOps] (lines 36-42): [os.path.splitext] as CPython's
      [genericpath._splitext], [str.lower], the selection test
      [file_selected], [os.path.join] and [os.path.relpath] (with
      [normpath] and [commonprefix]).
    - [Utf8] (lines 28-29, 31, 51-52): CPython's strict UTF-8 decoder and
      encoder, [os.fsdecode]/[os.fsencode] with [surrogateescape], and the
      universal-newline translation of text-mode reads.
    - [Walk] (lines 31-33): the file system as a tree of [node]s (files,
      directories, links to directories), [os.scandir], [os.path.islink],
      and CPython 3.12's iterative [os.walk] as the stack machine
      [walk_loop], parameterised (Section [WalkLoop]) by the caller's loop
      body, which returns the new contents of [dirs]; [walk_node], the
      recursive pre-order walk.  The interface between the walk and its
      caller is the class [PruningBody]: a body may only remove entries of
      [dirs], as [dirs[:] = ...] of line 33 does; [walk_correct] is proved
      for every such body and [Ingest] gives the instance for
      [ingest_body].
    - [Ingest] (lines 20-59): the run's state ([ingest_state]: bytes
      written, [count], lines printed), the statements [write], [emit],
      [incr_count], [read_text]; the loop body [ingest_body] /
      [ingest_files] / [ingest_file]; the output file ([at_dir],
      [replace_output], [store_output]); and [generate_context], which
      stores the bytes written when the [with] block ends, normally or by
      an exception, and returns [Completed] or [Crashed] with the tree and
      the lines printed.
    - [Spec]: the abstract run of the spec: [selected] (the files taken,
      in walk order), [spec_entries] (path and text of each), [doc_text]
      (the document), [spec_log] (the lines printed) and [take_files] (the
      loop body run over a list of entries).
    - [Document]: a reader for the output format ([parse_doc]), as a
      consumer of the document would write it.
    - [Refinement]: the theorems that tie [generate_context] to [Spec].
    - [Console] (lines 21, 46, 55, 58-59, 61-62): the text of the five
      [print] calls ([render], the count in decimal by [str_nat]), the
      newline [print] adds, [sys.stdout]'s encoding under its ['strict'] or
      ['surrogateescape'] handler ([stdout_encode]); and the [__main__]
      guard ([main]) with the process exit status.

    ** What is proved

    - Refinement (C1): on a well-formed tree in an absolute working
      directory whose [notebookLM] directory exists and holds no directory
      [project_context.md], and whose selected files have UTF-8 names,
      [generate_context] completes, its output file holds the UTF-8
      encoding of [doc_text] of the selected files, it prints [spec_log]
      between the banner and the summary, and the tree stays well-formed.
      The proof goes through [walk_correct] (C2: the stack machine
      computes the recursive walk), [walk_node_spec] (the recursive walk
      with the real loop body is [take_files] of [spec_entries]) and
      [take_files_ok] (the closed form of the per-file statements).
    - Termination (C3) of every run on a well-formed tree.
    - The spec's properties, on the runs themselves: what a completed run
      writes comes only from files the selection admits (C4: P1-P3 as
      coded), replace semantics (C5: P4), fidelity where it holds (C6) and
      where it fails (C7: P5), resilience and its empty section (C8: P6),
      the fatal errors (C10).
    - What the code does against the spec: a non-UTF-8 name aborts the
      run (C9); the [OUTPUT_FILE] guard is dead (C11); dot-files are
      never selected (C12); failed early reads print more than three
      [Reading] lines (C13).
    - The codecs' round trips (C14-C16), the extension of line 36 (C17)
      and a characterisation of [splitext] on file names (C18).
    - The document reads back into its sections under a stated condition
      (C19); [doc_text_ambiguous] shows that without it two runs can write
      the same document.
    - Every run, completed or crashed, leaves an output file that is valid
      UTF-8 (C20): the statements preserve [out_utf8].
    - Bounds: the encoder writes bytes, one to four per code point (C21);
      a completed run prints between [min 3 n] and [3 + failed] [Reading]
      lines (C22).
    - Liveness: every selected file ends up, as its section, in the output
      of a completed run (C23).
    - The console: the summary line reads back as the count (C24); the
      exit status is 0 exactly under the conditions of C1 (C25); a
      non-UTF-8 name makes the [Reading] print raise on a strict console
      (C26); on the runs of C1 no print raises (C27).

    ** Bounds and fuel

    [walk] runs with fuel [node_size] of the tree, the number of its
    nodes: every turn of the stack machine pops one path and costs one
    unit, and each directory is pushed at most once, so this fuel is never
    exhausted on a well-formed tree (distinct names that are proper path
    components), as C2 and C3 show.  The decoders run with fuel the length
    of their input; each step consumes at least one byte.  Integers are
    unbounded ([Z], [nat]): the script has no machine-width arithmetic; the
    code points and bytes carry their ranges as predicates ([is_scalar],
    [is_cp], [is_byte]), and C21 shows the encoder's shifts and masks stay
    within a byte.  [str_nat] runs with fuel [S n] for [n]: each turn
    divides by ten.

    ** Not modelled

    - Platforms other than POSIX: no [\r\n] on write, no drive letters.
    - [str(e)] of a caught exception: its text comes from the operating
      system and the codec; [Console] takes it as a parameter.  [emit]
      does not fail: C27 shows no print raises on the runs of C1, C26
      where one does.
    - [..] components in [OUTPUT_FILE] and links on the output path:
      [generate_context] then returns [None] or fails to find the file.
    - Links to regular files are files; broken links, I/O errors while
      writing, and changes to the tree by other processes are not
      modelled.  The tree is read as it stands once the output is open;
      the run writes only inside [notebookLM], which it prunes.
    - [str.lower] is modelled on ASCII, Latin-1 and the two code points
      whose lower case is an ASCII letter (U+0130, U+212A); the included
      extensions are ASCII, so the selection test is exact.
    - The order of [os.scandir] is the order of the listing in the tree. *)

From stdpp Require Export base list gmap strings.
From Stdlib Require Export ZArith Lia ZifyBool.
From Stdlib Require Import Ascii String.

Declare Scope ingest_scope.
Delimit Scope ingest_scope with ingest.
Open Scope Z_scope.

(** ** Strings and bytes *)

(** A Python [str] is a sequence of code points; a [bytes] value a sequence
    of integers in [0, 256).  Both are lists of [Z]. *)
Abbreviation pystr := (list Z).
Abbreviation bytes := (list Z).

(** The ASCII string literals of the source, as code points. *)
Definition py (s : string) : pystr :=
  map (fun a => Z.of_nat (nat_of_ascii a)) (list_ascii_of_string s).

Definition is_byte (b : Z) : Prop := 0 <= b < 256.
#[export] Instance is_byte_dec b : Decision (is_byte b) := _.

(** ** Exceptions and the error monad *)

(** The exceptions [generate_context] can meet, by Python class. *)
Inductive exn :=
  | FileNotFoundError
  | NotADirectoryError
  | IsADirectoryError
  | PermissionError
  | UnicodeDecodeError
  | UnicodeEncodeError.

#[export] Instance exn_eq_dec : EqDecision exn.
Proof. solve_decision. Defined.

(** A computation that returns a value or raises. *)
Inductive result (A : Type) :=
  | Ok (a : A)
  | Raise (e : exn).
Arguments Ok {A} a.
Arguments Raise {A} e.

Definition rbind {A B} (m : result A) (k : A -> result B) : result B :=
  match m with
  | Ok a => k a
  | Raise e => Raise e
  end.

Notation "'let!' x := m 'in' k" := (rbind m (fun x => k))
  (at level 10, x name, m at level 100, k at level 200) : ingest_scope.
Notation "'let!' ' p := m 'in' k" := (rbind m (fun p => k))
  (at level 10, p pattern, m at level 100, k at level 200) : ingest_scope.

(** Python's [try: ... except Exception: ...]: the handler sees the
    exception. *)
Definition rcatch {A} (m : result A) (h : exn -> A) : A :=
  match m with
  | Ok a => a
  | Raise e => h e
  end.

Open Scope ingest_scope.

(** ** Tactics and hints *)

Create HintDb ingest.
Create Rewrite HintDb ingest_rw.

Ltac invc H := inversion H; subst; clear H.

(** Case on the scrutinee of the first [match] in the goal or a hypothesis,
    remembering the equation. *)
Ltac case_match_eqn :=
  match goal with
  | |- context [match ?x with _ => _ end] =>
      let E := fresh "E" in destruct x eqn:E
  | H : context [match ?x with _ => _ end] |- _ =>
      let E := fresh "E" in destruct x eqn:E
  end.

(** ** Generic lemmas *)

Lemma rbind_Ok {A B} (a : A) (k : A -> result B) : rbind (Ok a) k = k a.
Proof. reflexivity. Qed.

Lemma rbind_Raise {A B} e (k : A -> result B) : rbind (Raise e) k = Raise e.
Proof. reflexivity. Qed.

Lemma rbind_Ok_inv {A B} (m : result A) (k : A -> result B) b :
  rbind m k = Ok b -> exists a, m = Ok a /\ k a = Ok b.
Proof. destruct m; simpl; [eauto | discriminate]. Qed.

#[export] Hint Rewrite @rbind_Ok @rbind_Raise : ingest_rw.

Lemma py_app s1 s2 : py (String.append s1 s2) = py s1 ++ py s2.
Proof. unfold py. induction s1 as [|a s1 IH]; simpl; [done | by rewrite IH]. Qed.

Lemma py_bytes s : Forall is_byte (py s).
Proof.
  unfold py. apply Forall_forall. intros z Hz.
  apply list_elem_of_In, in_map_iff in Hz as (a & <- & _).
  pose proof (nat_ascii_bounded a). unfold is_byte. lia.
Qed.

#[export] Hint Rewrite py_app : ingest_rw.
#[export] Hint Resolve py_bytes : ingest.

Lemma elem_of_drop_sub {A} (x : A) k (l : list A) : x ∈ drop k l -> x ∈ l.
Proof.
  revert k. induction l as [|y l IH]; intros [|k]; simpl; try done.
  intros H. apply elem_of_cons. right. by apply (IH k).
Qed.

Lemma not_elem_of_drop_mono {A} (x : A) n m (l : list A) :
  (n <= m)%nat -> x ∉ drop n l -> x ∉ drop m l.
Proof.
  intros Hnm Hn Hm. apply Hn.
  replace m with (n + (m - n))%nat in Hm by lia.
  rewrite <- drop_drop in Hm. by apply elem_of_drop_sub in Hm.
Qed.

#[export] Hint Resolve elem_of_drop_sub not_elem_of_drop_mono : ingest.

(** Discharge a decidable proposition on closed terms by evaluation. *)
Ltac decide_by_eval := apply (bool_decide_unpack _); vm_compute; exact I.

(** [decide_by_eval] on a goal without variables only: on an open goal
    [vm_compute] may unfold far more than it can decide. *)
Ltac decide_closed :=
  tryif (match goal with |- context [?v] => is_var v end) then fail else decide_by_eval.

(** ** Bit operations as arithmetic

    The codecs are written with shifts, masks and [|] as in C; these
    lemmas turn them into divisions, remainders and sums, on which
    [Z.div_mod_to_equations] and [lia] conclude. *)

Lemma lor_add_low a y k :
  0 <= k -> a mod 2 ^ k = 0 -> 0 <= y < 2 ^ k -> Z.lor a y = a + y.
Proof.
  intros Hk Ha Hy.
  assert (Z.land a y = 0) as Hland.
  { apply Z.bits_inj'. intros n Hn. rewrite Z.land_spec, Z.bits_0.
    destruct (Z.lt_ge_cases n k) as [Hlt | Hge].
    - rewrite <- (Z.mod_pow2_bits_low a k n Hlt), Ha, Z.bits_0. done.
    - rewrite <- (Z.mod_small y (2 ^ k)) by lia.
      rewrite Z.mod_pow2_bits_high by lia. apply andb_false_r. }
  pose proof (Z.add_lor_land a y). lia.
Qed.

Lemma lor_C0 y : 0 <= y < 32 -> Z.lor 0xC0 y = 0xC0 + y.
Proof. intros. apply (lor_add_low _ _ 5); [lia | done | done]. Qed.
Lemma lor_80 y : 0 <= y < 64 -> Z.lor 0x80 y = 0x80 + y.
Proof. intros. apply (lor_add_low _ _ 6); [lia | done | done]. Qed.
Lemma lor_E0 y : 0 <= y < 16 -> Z.lor 0xE0 y = 0xE0 + y.
Proof. intros. apply (lor_add_low _ _ 4); [lia | done | done]. Qed.
Lemma lor_F0 y : 0 <= y < 8 -> Z.lor 0xF0 y = 0xF0 + y.
Proof. intros. apply (lor_add_low _ _ 3); [lia | done | done]. Qed.

Lemma land_3F x : Z.land x 0x3F = x mod 64.
Proof. change 0x3F with (Z.ones 6). by rewrite Z.land_ones. Qed.
Lemma shiftr_6 x : Z.shiftr x 6 = x / 64.
Proof. by rewrite Z.shiftr_div_pow2. Qed.
Lemma shiftr_12 x : Z.shiftr x 12 = x / 4096.
Proof. by rewrite Z.shiftr_div_pow2. Qed.
Lemma shiftr_18 x : Z.shiftr x 18 = x / 262144.
Proof. by rewrite Z.shiftr_div_pow2. Qed.
Lemma shiftl_6 x : Z.shiftl x 6 = x * 64.
Proof. by rewrite Z.shiftl_mul_pow2. Qed.
Lemma shiftl_12 x : Z.shiftl x 12 = x * 4096.
Proof. by rewrite Z.shiftl_mul_pow2. Qed.
Lemma shiftl_18 x : Z.shiftl x 18 = x * 262144.
Proof. by rewrite Z.shiftl_mul_pow2. Qed.

Create Rewrite HintDb bits.
#[export] Hint Rewrite land_3F shiftr_6 shiftr_12 shiftr_18
  shiftl_6 shiftl_12 shiftl_18 : bits.

(** Turn the bit operations of the goal into arithmetic and conclude. *)
Ltac bits_lia :=
  autorewrite with bits;
  repeat first
    [ rewrite lor_C0 by (Z.div_mod_to_equations; lia)
    | rewrite lor_80 by (Z.div_mod_to_equations; lia)
    | rewrite lor_E0 by (Z.div_mod_to_equations; lia)
    | rewrite lor_F0 by (Z.div_mod_to_equations; lia) ];
  Z.div_mod_to_equations; lia.

(** Case on every integer comparison of the goal and of the hypotheses,
    closing with [tac] the branches whose hypotheses contradict. *)
Ltac zbool_step tac :=
  match goal with
  | |- context [Z.ltb ?x ?y] => destruct (Z.ltb_spec x y)
  | |- context [Z.leb ?x ?y] => destruct (Z.leb_spec x y)
  | |- context [Z.eqb ?x ?y] => destruct (Z.eqb_spec x y)
  | H : context [Z.ltb ?x ?y] |- _ => revert H; destruct (Z.ltb_spec x y); intros H
  | H : context [Z.leb ?x ?y] |- _ => revert H; destruct (Z.leb_spec x y); intros H
  | H : context [Z.eqb ?x ?y] |- _ => revert H; destruct (Z.eqb_spec x y); intros H
  end;
  cbn [andb orb negb] in *; try (exfalso; tac; fail).

Ltac zbool_cases tac := repeat (zbool_step tac).

Ltac div_lia := Z.div_mod_to_equations; lia.

(** ** Lists: filters and sublists *)

Lemma elem_of_map_2 {A B} (f : A -> B) x (l : list A) : x ∈ l -> f x ∈ map f l.
Proof. rewrite !list_elem_of_In. apply in_map. Qed.

Lemma elem_of_map_inv {A B} (f : A -> B) y (l : list A) :
  y ∈ map f l -> exists x, y = f x /\ x ∈ l.
Proof.
  rewrite list_elem_of_In, in_map_iff. intros (x & <- & Hx).
  exists x. by rewrite list_elem_of_In.
Qed.

Lemma filter_ext_in {A} (P Q : A -> Prop) `{forall x, Decision (P x)}
    `{forall x, Decision (Q x)} (l : list A) :
  (forall x, x ∈ l -> P x <-> Q x) -> filter P l = filter Q l.
Proof.
  induction l as [|x l IH]; intros Hpq; [done|].
  rewrite !filter_cons. rewrite IH by (intros y Hy; apply Hpq; by right).
  assert (P x <-> Q x) by (apply Hpq; by left).
  by repeat case_decide; naive_solver.
Qed.

(** A sublist of [map f L], when [f] is injective on [L], is the image of
    the elements of [L] it mentions, in the order of [L]. *)
Lemma sublist_map_filter {A B} `{EqDecision B} (f : A -> B) (L : list A) (l' : list B) :
  l' `sublist_of` map f L -> NoDup (map f L) ->
  l' = map f (filter (fun x => f x ∈ l') L).
Proof.
  revert l'. induction L as [|x L IH]; intros l' Hs Hnd.
  { simpl in Hs. by apply sublist_nil_r in Hs as ->. }
  simpl in Hs, Hnd. apply NoDup_cons in Hnd as [Hx Hnd].
  apply sublist_cons_r in Hs as [Hs | (l'' & -> & Hs)].
  - rewrite filter_cons_False; [by apply IH|].
    intros Hin. apply Hx. by eapply sublist_subseteq.
  - rewrite filter_cons_True by (by left). simpl. f_equal.
    rewrite (IH l'') at 1 by done. f_equal. apply filter_ext_in.
    intros y Hy. rewrite elem_of_cons. split; [by right|].
    intros [Heq | ?]; [|done]. exfalso. apply Hx. rewrite <- Heq.
    by apply elem_of_map_2.
Qed.

Lemma sublist_map {A B} (f : A -> B) l1 l2 : l1 `sublist_of` l2 -> map f l1 `sublist_of` map f l2.
Proof. induction 1; simpl; by constructor. Qed.

Lemma filter_map_comm {A B} (P : B -> Prop) `{forall x, Decision (P x)} (f : A -> B) l :
  filter P (map f l) = map f (filter (fun x => P (f x)) l).
Proof.
  induction l as [|x l IH]; [done|]. simpl. rewrite !filter_cons.
  case_decide; simpl; by rewrite IH.
Qed.

Lemma filter_Forall_id {A} (P : A -> Prop) `{forall x, Decision (P x)} l :
  Forall P l -> filter P l = l.
Proof.
  induction 1 as [|x l Hx _ IH]; [done|]. by rewrite filter_cons_True, IH.
Qed.

(** ** Python statements

    A statement runs on a state and returns the state it reached together
    with its outcome: what it did before raising stays done, as the bytes
    written and the lines printed by a Python program stay when it raises
    later. *)
Definition pyM (St A : Type) : Type := St -> St * result A.

Definition pret {St A} (a : A) : pyM St A := fun st => (st, Ok a).

Definition pbind {St A B} (m : pyM St A) (k : A -> pyM St B) : pyM St B :=
  fun st =>
    match m st with
    | (st', Ok a) => k a st'
    | (st', Raise e) => (st', Raise e)
    end.

(** A pure computation that may raise, as a statement. *)
Definition plift {St A} (r : result A) : pyM St A := fun st => (st, r).

(** [try: m  except Exception as e: h(e)]: the handler runs in the state
    the body reached. *)
Definition ptry {St A} (m : pyM St A) (h : exn -> pyM St A) : pyM St A :=
  fun st =>
    match m st with
    | (st', Ok a) => (st', Ok a)
    | (st', Raise e) => h e st'
    end.

(** [m] preserves [I]: run from a state satisfying [I], it ends, whether
    it returns or raises, in a state satisfying [I]. *)
Definition preserves {St A} (I : St -> Prop) (m : pyM St A) : Prop :=
  forall st st' r, I st -> m st = (st', r) -> I st'.

Notation "x <- m ;; k" := (pbind m (fun x => k))
  (at level 100, m at next level, right associativity) : ingest_scope.
Notation "m ;; k" := (pbind m (fun _ => k))
  (at level 100, right associativity) : ingest_scope.

Lemma pbind_Ok {St A B} (m : pyM St A) (k : A -> pyM St B) st st' a :
  m st = (st', Ok a) -> pbind m k st = k a st'.
Proof. intros H. unfold pbind. by rewrite H. Qed.

Lemma pbind_Raise {St A B} (m : pyM St A) (k : A -> pyM St B) st st' e :
  m st = (st', Raise e) -> pbind m k st = (st', Raise e).
Proof. intros H. unfold pbind. by rewrite H. Qed.

(** ** Invariants through statements *)

Create HintDb pyinv.

Section Preserves.
Context {St : Type} (I : St -> Prop).

Lemma preserves_pret {A} (a : A) : preserves I (pret a).
Proof. by intros st st' r Hi [= <- _]. Qed.

Lemma preserves_plift {A} (r : result A) : preserves I (plift r).
Proof. by intros st st' r' Hi [= <- _]. Qed.

Lemma preserves_pbind {A B} (m : pyM St A) (k : A -> pyM St B) :
  preserves I m -> (forall a, preserves I (k a)) -> preserves I (pbind m k).
Proof.
  intros Hm Hk st st' r Hi. unfold pbind.
  destruct (m st) as [st1 [a|e]] eqn:E.
  - intros Hk'. eapply (Hk a st1); [eapply Hm; eauto | exact Hk'].
  - intros [= <- _]. eapply Hm; eauto.
Qed.

Lemma preserves_ptry {A} (m : pyM St A) (h : exn -> pyM St A) :
  preserves I m -> (forall e, preserves I (h e)) -> preserves I (ptry m h).
Proof.
  intros Hm Hh st st' r Hi. unfold ptry.
  destruct (m st) as [st1 [a|e]] eqn:E.
  - intros [= <- _]. eapply Hm; eauto.
  - intros Hh'. eapply (Hh e st1); [eapply Hm; eauto | exact Hh'].
Qed.
(** The continuation of a lifted result only runs on its value. *)
Lemma preserves_plift_bind {A B} (r : result A) (k : A -> pyM St B) :
  (forall a, r = Ok a -> preserves I (k a)) -> preserves I (pbind (plift r) k).
Proof.
  intros Hk st st' r' Hi. unfold pbind, plift. destruct r as [a|e]; [by apply Hk|].
  by intros [= <- _].
Qed.
End Preserves.

#[export] Hint Resolve preserves_pret preserves_plift preserves_pbind preserves_ptry : pyinv.
