(* ===== verification/Config.v ===== *)
(** * The configuration constants of [ingest.py] (source lines 5-17)

    The source keeps its configuration in three module-level constants.  The
    spec gathers them in a Configuration record; [config] is that record and
    [source_config] its instance with the values of the source.  The script
    name ["ingest.py"] of line 39 is a literal of the loop body, kept as
    [SCRIPT_NAME]. *)

From S2P Require Import Prelude.

(** [OUTPUT_FILE = "notebookLM/project_context.md"] *)
Definition OUTPUT_FILE : pystr := py "notebookLM/project_context.md".

(** [IGNORED_DIRS = {...}] *)
Definition IGNORED_DIRS : gset pystr :=
  list_to_set (map py
    ["build"; ".gradle"; ".git"; ".idea"; ".vscode";
     "node_modules"; "__pycache__"; "venv"; "target";
     "dist"; "coverage"; "notebookLM"]%string).

(** [INCLUDED_EXTENSIONS = {...}] *)
Definition INCLUDED_EXTENSIONS : gset pystr :=
  list_to_set (map py
    [".kt"; ".kts"; ".xml"; ".java"; ".gradle";
     ".py"; ".js"; ".ts"; ".jsx"; ".tsx"; ".html"; ".css";
     ".json"; ".md"; ".yaml"; ".yml"; ".toml"; ".sql"]%string).

(** The literal ["ingest.py"] of line 39. *)
Definition SCRIPT_NAME : pystr := py "ingest.py".

Record config := {
  output_file : pystr;
  ignored_dirs : gset pystr;
  included_extensions : gset pystr
}.

Definition source_config : config := {|
  output_file := OUTPUT_FILE;
  ignored_dirs := IGNORED_DIRS;
  included_extensions := INCLUDED_EXTENSIONS
|}.
