(* ===== verification/PathOps.v ===== *)
(** * Path operations of the loop body (source lines 36-42)

    Line 36 computes [os.path.splitext(file)[1].lower()]; lines 37-39 keep
    the file when that extension is in [INCLUDED_EXTENSIONS] and the name is
    not one of ["ingest.py", OUTPUT_FILE].  This file models
    [posixpath.splitext] (CPython's [genericpath._splitext], including its
    loop that skips leading dots), [str.lower] on the code points where it
    matters for the test, and the selection test [file_selected].  The
    theorems show what [splitext] returns and that the [OUTPUT_FILE] half of
    the self-exclusion guard can never fire. *)

From S2P Require Import Prelude Config.

Definition DOT : Z := 46.
Definition SLASH : Z := 47.

(** ** [str.rfind] on one character: the index of the last occurrence,
    or [-1]. *)
Fixpoint rfind (c : Z) (p : pystr) : Z :=
  match p with
  | [] => -1
  | x :: r =>
      let j := rfind c r in
      if j =? -1 then (if x =? c then 0 else -1) else j + 1
  end.

(** ** [genericpath._splitext]

    [sepIndex = p.rfind(sep)]; [dotIndex = p.rfind(extsep)]; when
    [dotIndex > sepIndex] the loop
    [while filenameIndex < dotIndex: if p[filenameIndex] != extsep: return
    p[:dotIndex], p[dotIndex:]] scans the characters between the last
    separator and the last dot; when all of them are dots it falls through
    to [return p, p[:0]]. *)

(** The [while] loop: does the scanned slice hold a character that is not a
    dot? *)
Fixpoint scan_leading_dots (l : pystr) : bool :=
  match l with
  | [] => false
  | c :: r => if negb (c =? DOT) then true else scan_leading_dots r
  end.

Definition splitext (p : pystr) : pystr * pystr :=
  let sepIndex := rfind SLASH p in
  let dotIndex := rfind DOT p in
  if sepIndex <? dotIndex then
    let filenameIndex := sepIndex + 1 in
    if scan_leading_dots
         (take (Z.to_nat (dotIndex - filenameIndex))
               (drop (Z.to_nat filenameIndex) p))
    then (take (Z.to_nat dotIndex) p, drop (Z.to_nat dotIndex) p)
    else (p, [])
  else (p, []).

(** ** [str.lower]

    Python lower-cases with the Unicode case tables.  The model maps the
    ASCII capitals, the Latin-1 capitals ([U+00C0]-[U+00DE] but [U+00D7]),
    and the two code points outside ASCII whose lower case contains an ASCII
    letter: [U+0130] (to ["i̇"]) and the Kelvin sign [U+212A] (to
    ["k"]).  Every other code point is kept; the only use of [lower] is the
    membership test against ASCII extensions, on which the remaining table
    entries have no influence. *)
Definition lower_cp (c : Z) : list Z :=
  if (65 <=? c) && (c <=? 90) then [c + 32]
  else if (192 <=? c) && (c <=? 222) && negb (c =? 215) then [c + 32]
  else if c =? 304 then [105; 775]
  else if c =? 8490 then [107]
  else [c].

Definition lower (s : pystr) : pystr := List.concat (map lower_cp s).

(** ** The selection test of lines 36-39 *)

(** [ext = os.path.splitext(file)[1].lower()] *)
Definition ext_of (file : pystr) : pystr := lower (splitext file).2.

(** [if file in ["ingest.py", OUTPUT_FILE]: continue] *)
Definition self_excluded (cfg : config) (file : pystr) : bool :=
  bool_decide (file ∈ [SCRIPT_NAME; output_file cfg]).

(** [if ext in INCLUDED_EXTENSIONS:] and then the guard above. *)
Definition file_selected (cfg : config) (file : pystr) : bool :=
  bool_decide (ext_of file ∈ included_extensions cfg)
  && negb (self_excluded cfg file).

(** ** Path construction (lines 41-42)

    [file_path = os.path.join(root, file)] and
    [rel_path = os.path.relpath(file_path, ".")]. *)

(** [posixpath.join(a, b)]: an absolute [b] replaces [a]; otherwise a
    separator is inserted unless [a] is empty or already ends with one. *)
Definition path_join (a b : pystr) : pystr :=
  if bool_decide (head b = Some SLASH) then b
  else if bool_decide (a = [] \/ last a = Some SLASH) then a ++ b
  else a ++ SLASH :: b.

(** [str.split(sep)]. *)
Fixpoint split_sep (sep : Z) (s : pystr) : list pystr :=
  match s with
  | [] => [[]]
  | c :: r =>
      let parts := split_sep sep r in
      if c =? sep then [] :: parts
      else match parts with
           | p :: ps => (c :: p) :: ps
           | [] => [[c]]
           end
  end.

(** ['/'.join(parts)], which is [os.path.join( *parts)] when no part is
    empty or absolute. *)
Fixpoint join_all (parts : list pystr) : pystr :=
  match parts with
  | [] => []
  | [p] => p
  | p :: ps => p ++ SLASH :: join_all ps
  end.

(** [posixpath.normpath] on an absolute path, as the list of its
    components (kept reversed while it is built): [''] and ['.'] are
    dropped, ['..'] removes the last component (or nothing at the root). *)
Definition norm_step (acc : list pystr) (comp : pystr) : list pystr :=
  if bool_decide (comp = [] \/ comp = py ".") then acc
  else if bool_decide (comp = py "..") then tail acc
  else comp :: acc.

Definition abs_comps (p : pystr) : list pystr :=
  reverse (foldl norm_step [] (split_sep SLASH p)).

(** [posixpath.abspath(p)] split into components: a relative [p] is joined
    to the working directory [cwd] first. *)
Definition abspath_comps (cwd p : pystr) : list pystr :=
  abs_comps (if bool_decide (head p = Some SLASH) then p else path_join cwd p).

(** [posixpath.abspath(p)] as a string: the separator, then the
    normalised components. *)
Definition abspath (cwd p : pystr) : pystr := SLASH :: join_all (abspath_comps cwd p).

(** [len(os.path.commonprefix([l1, l2]))] on two component lists. *)
Fixpoint common_prefix_len (l1 l2 : list pystr) : nat :=
  match l1, l2 with
  | x :: r1, y :: r2 => if bool_decide (x = y) then S (common_prefix_len r1 r2) else O
  | _, _ => O
  end.

(** [posixpath.relpath(path, start)] in the working directory [cwd]. *)
Definition relpath (cwd path start : pystr) : pystr :=
  let start_list := abspath_comps cwd start in
  let path_list := abspath_comps cwd path in
  let i := common_prefix_len start_list path_list in
  let rel_list := replicate (length start_list - i) (py "..") ++ drop i path_list in
  match rel_list with
  | [] => py "."
  | _ => join_all rel_list
  end.

(** A name as a directory lists it: not empty, no separator, neither ["."]
    nor [".."]. *)
Definition normal_comp (s : pystr) : Prop :=
  s <> [] /\ (SLASH ∉ s) /\ s <> py "." /\ s <> py "..".
#[export] Instance normal_comp_dec s : Decision (normal_comp s) := _.

(** The path [os.walk(".")] and line 41 build for the components [segs]:
    [join(... join(".", d1) ..., file)]. *)
Definition walk_path (segs : list pystr) : pystr := foldl path_join (py ".") segs.

(** ** Lemmas *)

Lemma rfind_spec c p :
  (rfind c p = -1 /\ c ∉ p) \/
  (exists i, rfind c p = Z.of_nat i /\ p !! i = Some c /\ c ∉ drop (S i) p).
Proof.
  induction p as [|x r IH]; simpl; [left; split; [done | apply not_elem_of_nil]|].
  destruct IH as [[-> Hr] | (i & -> & Hi & Hd)].
  - rewrite Z.eqb_refl. destruct (Z.eqb_spec x c) as [->|Hx].
    + right. exists 0%nat. done.
    + left. split; [done|]. rewrite elem_of_cons. by intros [-> | ?].
  - replace (Z.of_nat i =? -1) with false by lia.
    right. exists (S i). split; [lia | done].
Qed.

Lemma rfind_ge c p : -1 <= rfind c p.
Proof. destruct (rfind_spec c p) as [[-> _] | (i & -> & _)]; lia. Qed.

Lemma rfind_not_in c p : c ∉ p -> rfind c p = -1.
Proof.
  intros Hc. destruct (rfind_spec c p) as [[? _] | (i & _ & Hi & _)]; [done|].
  by apply list_elem_of_lookup_2 in Hi.
Qed.

Lemma rfind_app_last c a e : c ∉ e -> rfind c (a ++ c :: e) = Z.of_nat (length a).
Proof.
  intros He. induction a as [|x a IH]; simpl.
  - rewrite rfind_not_in by done. by rewrite !Z.eqb_refl.
  - rewrite IH. replace (Z.of_nat (length a) =? -1) with false by lia. lia.
Qed.

Lemma scan_leading_dots_spec l :
  scan_leading_dots l = bool_decide (Exists (fun c => c <> DOT) l).
Proof.
  induction l as [|c l IH]; simpl; [done|].
  destruct (Z.eqb_spec c DOT) as [->|Hc]; simpl.
  - rewrite IH. apply bool_decide_ext. rewrite Exists_cons. naive_solver.
  - symmetry. apply bool_decide_eq_true_2. by apply Exists_cons; left.
Qed.

Lemma lower_app s1 s2 : lower (s1 ++ s2) = lower s1 ++ lower s2.
Proof. unfold lower. by rewrite map_app, concat_app. Qed.

#[export] Hint Rewrite lower_app scan_leading_dots_spec : ingest_rw.
#[export] Hint Resolve rfind_not_in rfind_app_last : ingest.

(** The three outcomes of [splitext] on a name [a ++ "." ++ e] whose last
    dot is the one shown and that holds no separator. *)
Lemma splitext_last_dot a e :
  SLASH ∉ a -> SLASH ∉ e -> DOT ∉ e ->
  splitext (a ++ DOT :: e) =
    if scan_leading_dots a then (a, DOT :: e) else (a ++ DOT :: e, []).
Proof.
  intros Ha He HDe. unfold splitext.
  assert (SLASH ∉ a ++ DOT :: e) as Hs.
  { rewrite elem_of_app, elem_of_cons. unfold SLASH, DOT. intros [|[|]]; done || lia. }
  rewrite (rfind_not_in SLASH), rfind_app_last by done.
  replace (-1 <? Z.of_nat (length a)) with true by lia.
  replace (Z.to_nat (Z.of_nat (length a) - (-1 + 1))) with (length a) by lia.
  replace (Z.to_nat (-1 + 1)) with 0%nat by lia.
  rewrite Nat2Z.id, drop_0, take_app_length, drop_app_length.
  by destruct (scan_leading_dots a).
Qed.

(** ** What [splitext] returns *)

(** A file name is split at its last dot, or not at all when it has none. *)
Lemma splitext_cases f :
  SLASH ∉ f ->
  (DOT ∉ f /\ splitext f = (f, [])) \/
  exists a e, f = a ++ DOT :: e /\ DOT ∉ e /\
    splitext f = if scan_leading_dots a then (a, DOT :: e) else (f, []).
Proof.
  intros Hf. destruct (rfind_spec DOT f) as [[Hr Hn] | (i & _ & Hi & Hd)].
  - left. split; [done|]. unfold splitext. rewrite Hr. pose proof (rfind_ge SLASH f).
    by replace (rfind SLASH f <? -1) with false by lia.
  - right. exists (take i f), (drop (S i) f).
    assert (f = take i f ++ DOT :: drop (S i) f) as Heq
      by (rewrite <- (drop_S _ _ _ Hi); symmetry; apply take_drop).
    split_and!; [done | done |]. rewrite Heq at 1.
    rewrite splitext_last_dot; [by rewrite <- Heq | | | done];
      intros Hin; apply Hf; rewrite Heq, elem_of_app, elem_of_cons; auto.
Qed.

(** Two splits of a name at a dot after which no dot follows are the same. *)
Lemma last_dot_unique a e a' e' :
  a ++ DOT :: e = a' ++ DOT :: e' -> DOT ∉ e -> DOT ∉ e' -> a = a' /\ e = e'.
Proof.
  intros Heq He He'.
  assert (length a = length a') as Hlen.
  { apply Nat2Z.inj. by rewrite <- (rfind_app_last DOT a e), Heq, rfind_app_last. }
  apply app_inj_1 in Heq as [-> Heq]; [|done]. by injection Heq as ->.
Qed.

(** C18. On a file name (no separator), [splitext] splits the name in two
    that concatenate back to it, and it finds no extension exactly when
    every split at a last dot has only dots before it: a name without a
    dot, or one such as [".md"]; otherwise the extension is the suffix
    from the last dot (C17). *)
Theorem splitext_shape f :
  SLASH ∉ f ->
  (splitext f).1 ++ (splitext f).2 = f /\
  ((splitext f).2 = [] <->
   forall a e, f = a ++ DOT :: e -> DOT ∉ e -> Forall (fun c => c = DOT) a).
Proof.
  intros Hf. destruct (splitext_cases f Hf) as [[Hn ->] | (a & e & -> & He & ->)].
  - split; [apply app_nil_r|]. split; [|done]. intros _ a e Heq. exfalso.
    apply Hn. rewrite Heq, elem_of_app, elem_of_cons. auto.
  - rewrite scan_leading_dots_spec. case_bool_decide as Hx; cbn [fst snd].
    + split; [done|]. split; [done|]. intros H. exfalso.
      apply Exists_exists in Hx as (c & Hc & Hne). apply Hne.
      by eapply Forall_forall in H; [| done.. ].
    + split; [apply app_nil_r|]. split; [|done]. intros _ a' e' Heq He'.
      destruct (last_dot_unique a e a' e' Heq He He') as [<- _].
      apply Forall_forall. intros c Hc. destruct (decide (c = DOT)) as [|Hne]; [done|].
      exfalso. apply Hx, Exists_exists. eauto.
Qed.
Lemma lower_dot e : lower (DOT :: e) = DOT :: lower e.
Proof. reflexivity. Qed.

Lemma scan_leading_dots_replicate n : scan_leading_dots (replicate n DOT) = false.
Proof. induction n as [|n IH]; [done|]. exact IH. Qed.

(** C17. On a file name [a ++ "." ++ e] whose last dot is the one shown, the
    extension line 36 computes is [".'" ++ lower e] as soon as [a] holds a
    character other than a dot. *)
Theorem ext_of_last_dot a e :
  SLASH ∉ a -> SLASH ∉ e -> DOT ∉ e -> Exists (fun c => c <> DOT) a ->
  ext_of (a ++ DOT :: e) = DOT :: lower e.
Proof.
  intros Ha He HDe Hx. unfold ext_of.
  rewrite splitext_last_dot, scan_leading_dots_spec by done.
  by rewrite bool_decide_eq_true_2.
Qed.

(** C12. A file whose name is only dots followed by an extension, such as
    [".md"] or ["..json"], has no extension for [os.path.splitext], so the
    loop body never selects it, although the spec takes the extension to be
    the substring from the final dot. *)
Theorem dotfile_not_selected n e :
  SLASH ∉ e -> DOT ∉ e ->
  file_selected source_config (replicate n DOT ++ DOT :: e) = false.
Proof.
  intros He HDe. unfold file_selected, ext_of.
  rewrite splitext_last_dot, scan_leading_dots_replicate by
    (done || by intros ?%elem_of_replicate_inv).
  reflexivity.
Qed.

(** C11. The [OUTPUT_FILE] half of the guard on line 39 is dead: a name
    listed by [os.walk] holds no separator, [OUTPUT_FILE] does, so the guard
    excludes exactly the name ["ingest.py"]. *)
Theorem output_guard_dead f :
  SLASH ∉ f -> self_excluded source_config f = bool_decide (f = SCRIPT_NAME).
Proof.
  intros Hf. unfold self_excluded. apply bool_decide_ext.
  rewrite elem_of_cons, list_elem_of_singleton.
  assert (SLASH ∈ OUTPUT_FILE) by decide_by_eval.
  split; [intros [? | ->]; [done | contradiction] | by left].
Qed.

(** ** Witnesses *)

Lemma ext_of_last_dot_witness :
  ext_of (py "README" ++ DOT :: py "MD") = py ".md".
Proof.
  apply (ext_of_last_dot (py "README") (py "MD"));
    first [decide_by_eval | apply Exists_cons; left; unfold DOT; lia].
Defined.

Lemma dotfile_not_selected_witness :
  file_selected source_config (replicate 0 DOT ++ DOT :: py "md") = false.
Proof. apply (dotfile_not_selected 0 (py "md")); decide_by_eval. Defined.

Lemma output_guard_dead_witness :
  self_excluded source_config (py "project_context.md") = false.
Proof.
  rewrite (output_guard_dead (py "project_context.md")); [reflexivity | decide_by_eval].
Defined.

(** ** The relative path of a file found by the walk *)

Lemma split_sep_nonempty sep s : split_sep sep s <> [].
Proof. destruct s as [|c r]; simpl; [done|]. case_match; [done|]. by case_match. Qed.

Lemma split_sep_app sep x y :
  split_sep sep (x ++ sep :: y) = split_sep sep x ++ split_sep sep y.
Proof.
  induction x as [|c x IH]; simpl; [by rewrite Z.eqb_refl|].
  rewrite IH. case_match; [done|].
  destruct (split_sep sep x) eqn:E; [by apply split_sep_nonempty in E|]. done.
Qed.

Lemma split_sep_none sep s : sep ∉ s -> split_sep sep s = [s].
Proof.
  induction s as [|c s IH]; intros Hs; [done|]. simpl.
  apply not_elem_of_cons in Hs as [Hc Hs].
  rewrite IH by done. by replace (c =? sep) with false by lia.
Qed.

Lemma walk_path_app x segs :
  x <> [] -> last x <> Some SLASH -> Forall normal_comp segs ->
  foldl path_join x segs = x ++ List.concat (map (cons SLASH) segs).
Proof.
  revert x. induction segs as [|s segs IH]; intros x Hx Hl Hs; simpl.
  { by rewrite app_nil_r. }
  apply Forall_cons in Hs as [(Hne & Hsl & _) Hs].
  assert (path_join x s = x ++ SLASH :: s) as ->.
  { unfold path_join. destruct s as [|c s]; [done|].
    rewrite !bool_decide_false; [done | naive_solver |].
    simpl. intros [= ->]. apply Hsl. by left. }
  rewrite IH; [by rewrite <- app_assoc | by destruct x | | done].
  rewrite last_app_cons. destruct s as [|c s'] eqn:Es; [done|].
  rewrite last_cons_cons. intros Hlast. apply Hsl.
  apply last_Some_elem_of in Hlast. by right.
Qed.

Lemma split_walk x segs :
  SLASH ∉ x -> Forall normal_comp segs ->
  split_sep SLASH (x ++ List.concat (map (cons SLASH) segs)) = x :: segs.
Proof.
  revert x. induction segs as [|s segs IH]; intros x Hx Hs; simpl.
  { rewrite app_nil_r. by apply split_sep_none. }
  apply Forall_cons in Hs as [Hn Hs].
  rewrite split_sep_app, split_sep_none, IH by (done || apply Hn). done.
Qed.

Lemma foldl_norm_normal acc segs :
  Forall normal_comp segs -> foldl norm_step acc segs = reverse segs ++ acc.
Proof.
  revert acc. induction segs as [|s segs IH]; intros acc Hs; [done|].
  apply Forall_cons in Hs as [(Hne & _ & Hdot & Hdd) Hs]. simpl.
  unfold norm_step at 2. rewrite !bool_decide_false by naive_solver.
  rewrite IH by done. by rewrite reverse_cons, <- app_assoc.
Qed.

Lemma norm_join cwd p :
  cwd <> [] -> head p <> Some SLASH ->
  foldl norm_step [] (split_sep SLASH (path_join cwd p)) =
  foldl norm_step (foldl norm_step [] (split_sep SLASH cwd)) (split_sep SLASH p).
Proof.
  intros Hc Hp. unfold path_join. rewrite bool_decide_false by done.
  case_bool_decide as Hl; [|by rewrite split_sep_app, foldl_app].
  destruct Hl as [? | Hl]; [done|].
  apply last_Some in Hl as [cwd' ->].
  rewrite <- app_assoc. simpl.
  by rewrite !split_sep_app, !foldl_app.
Qed.

Lemma common_prefix_len_app l1 l2 : common_prefix_len l1 (l1 ++ l2) = length l1.
Proof. induction l1 as [|x l1 IH]; simpl; [by destruct l2|]. by rewrite bool_decide_true, IH. Qed.

(** Line 42 gives, for the file found under the components [segs] of the
    walk, the components joined by ["/"]: [os.path.relpath] of the path
    built by [os.walk] and line 41, in any absolute working directory. *)
Lemma relpath_walk_path cwd segs :
  head cwd = Some SLASH -> Forall normal_comp segs -> segs <> [] ->
  relpath cwd (walk_path segs) (py ".") = join_all segs.
Proof.
  intros Hcwd Hsegs Hne. unfold relpath, abspath_comps, abs_comps, walk_path.
  assert (cwd <> []) by (by destruct cwd).
  rewrite !bool_decide_false by (rewrite ?walk_path_app by (done || by intros ?%Forall_nil_2); done).
  rewrite !norm_join by (rewrite ?walk_path_app by (done || by intros ?%Forall_nil_2); done).
  rewrite walk_path_app, split_walk by (done || set_solver).
  set (acc := foldl norm_step [] (split_sep SLASH cwd)).
  assert (Hdot : forall a, norm_step a (py ".") = a).
  { intros a. unfold norm_step. by rewrite bool_decide_true by (right; done). }
  change (split_sep SLASH (py ".")) with [py "."].
  change (foldl norm_step acc (py "." :: segs))
    with (foldl norm_step (norm_step acc (py ".")) segs).
  cbn [foldl]. rewrite !Hdot, foldl_norm_normal by done.
  rewrite reverse_app, reverse_involutive, common_prefix_len_app, Nat.sub_diag.
  simpl. rewrite drop_app_length. by destruct segs.
Qed.


(** ** The characters of an absolute path *)

Lemma join_all_Forall (P : Z -> Prop) parts :
  P SLASH -> Forall (Forall P) parts -> Forall P (join_all parts).
Proof.
  intros HS. induction 1 as [|p ps Hp Hps IH]; [constructor|].
  destruct ps as [|p' ps']; [done|].
  change (join_all (p :: p' :: ps')) with (p ++ SLASH :: join_all (p' :: ps')).
  apply Forall_app. split; [done|]. by constructor.
Qed.


Section PathChars.
  Context (P : Z -> Prop) (HS : P SLASH).

Lemma split_sep_Forall sep s : Forall P s -> Forall (Forall P) (split_sep sep s).
Proof.
  induction s as [|c s IH]; intros Hs; [by repeat constructor|].
  apply Forall_cons in Hs as [Hc Hs]. specialize (IH Hs). simpl.
  case_match; [by constructor|]. destruct (split_sep sep s) as [|p ps]; [by repeat constructor|].
  apply Forall_cons in IH as [Hp Hps]. by repeat constructor.
Qed.

Lemma foldl_norm_Forall acc segs :
  Forall (Forall P) acc -> Forall (Forall P) segs -> Forall (Forall P) (foldl norm_step acc segs).
Proof.
  revert acc. induction segs as [|s segs IH]; intros acc Ha Hs; [done|].
  apply Forall_cons in Hs as [Hs1 Hs]. cbn [foldl]. apply IH; [|done].
  unfold norm_step. repeat case_bool_decide; [done | by apply Forall_tail | by constructor].
Qed.

Lemma path_join_Forall a b : Forall P a -> Forall P b -> Forall P (path_join a b).
Proof.
  intros Ha Hb. unfold path_join.
  repeat case_bool_decide; [done | by apply Forall_app | apply Forall_app; by split; [|constructor]].
Qed.

Lemma abspath_Forall cwd p : Forall P cwd -> Forall P p -> Forall P (abspath cwd p).
Proof.
  intros Hc Hp. unfold abspath, abspath_comps, abs_comps. constructor; [done|].
  apply join_all_Forall; [done|]. rewrite Forall_reverse. apply foldl_norm_Forall; [constructor|].
  apply split_sep_Forall. case_bool_decide; [done | by apply path_join_Forall].
Qed.

End PathChars.

Lemma splitext_shape_witness :
  SLASH ∉ py "a.py" /\
  (splitext (py "a.py")).1 ++ (splitext (py "a.py")).2 = py "a.py" /\
  ((splitext (py "a.py")).2 = [] <->
   forall a e, py "a.py" = a ++ DOT :: e -> DOT ∉ e -> Forall (fun c => c = DOT) a).
Proof. split; [decide_by_eval|]. apply splitext_shape. decide_by_eval. Defined.
