(* ===== verification/Utf8.v ===== *)
(** * The text codecs the script relies on

    [ingest.py] meets three codecs of the Python runtime:
    - line 51 opens each file with [encoding='utf-8'] in text mode: its bytes
      go through the strict UTF-8 decoder, then the universal-newline
      translation of [newline=None] ([\r\n] and [\r] become [\n]);
    - line 28 opens the output with [encoding='utf-8']: every [write]
      encodes its argument with the strict UTF-8 encoder, which raises
      [UnicodeEncodeError] on a surrogate code point (on POSIX [\n] is
      written as it is);
    - [os.walk] and [os.path.join] work on [str] paths: the names read from
      the directory are decoded with [os.fsdecode] (UTF-8 with the
      [surrogateescape] handler: an undecodable byte [b] becomes
      [U+DC00 + b]), and [open] turns a [str] path back into bytes with
      [os.fsencode].
    The definitions follow CPython's [Objects/stringlib/codecs.h] (decoder
    and encoder) and [Lib/_pyio.py]'s [IncrementalNewlineDecoder].  The
    theorems are the round trips between them, and the exact condition
    under which the newline translation changes the text. *)

From S2P Require Import Prelude.

(** ** Code points *)

Definition is_surrogate (c : Z) : bool := (0xD800 <=? c) && (c <=? 0xDFFF).

(** A Unicode scalar value: what strict UTF-8 can carry. *)
Definition is_scalar (c : Z) : Prop := 0 <= c <= 0x10FFFF /\ is_surrogate c = false.
#[export] Instance is_scalar_dec c : Decision (is_scalar c) := _.

(** A code point: what a Python [str] holds. *)
Definition is_cp (c : Z) : Prop := 0 <= c <= 0x10FFFF.
#[export] Instance is_cp_dec c : Decision (is_cp c) := _.

Definition in_range (lo hi b : Z) : bool := (lo <=? b) && (b <=? hi).
Definition is_cont (b : Z) : bool := in_range 0x80 0xBF b.

(** ** The strict decoder

    The lead byte fixes the length of the sequence and the range of the
    second byte ([E0] needs at least [A0] against overlong forms, [ED] at
    most [9F] against surrogates, [F0] at least [90], [F4] at most [8F]
    against code points above [U+10FFFF]); the code point is computed as in
    CPython, by shifts and one subtraction. *)

Definition lo3 (b1 : Z) : Z := if b1 =? 0xE0 then 0xA0 else 0x80.
Definition hi3 (b1 : Z) : Z := if b1 =? 0xED then 0x9F else 0xBF.
Definition lo4 (b1 : Z) : Z := if b1 =? 0xF0 then 0x90 else 0x80.
Definition hi4 (b1 : Z) : Z := if b1 =? 0xF4 then 0x8F else 0xBF.

Definition decode_one (b : bytes) : option (Z * bytes) :=
  match b with
  | [] => None
  | b1 :: r =>
      if b1 <? 0x80 then Some (b1, r)
      else if in_range 0xC2 0xDF b1 then
        match r with
        | b2 :: r' =>
            if is_cont b2
            then Some (Z.shiftl b1 6 + b2 - (Z.shiftl 0xC0 6 + 0x80), r')
            else None
        | [] => None
        end
      else if in_range 0xE0 0xEF b1 then
        match r with
        | b2 :: b3 :: r' =>
            if in_range (lo3 b1) (hi3 b1) b2 && is_cont b3
            then Some (Z.shiftl b1 12 + Z.shiftl b2 6 + b3
                       - (Z.shiftl 0xE0 12 + Z.shiftl 0x80 6 + 0x80), r')
            else None
        | _ => None
        end
      else if in_range 0xF0 0xF4 b1 then
        match r with
        | b2 :: b3 :: b4 :: r' =>
            if in_range (lo4 b1) (hi4 b1) b2 && is_cont b3 && is_cont b4
            then Some (Z.shiftl b1 18 + Z.shiftl b2 12 + Z.shiftl b3 6 + b4
                       - (Z.shiftl 0xF0 18 + Z.shiftl 0x80 12
                          + Z.shiftl 0x80 6 + 0x80), r')
            else None
        | _ => None
        end
      else None
  end.

(** The decoding loop; each step consumes at least one byte, so the length
    of the input is enough fuel ([utf8_decode_fuel_enough] below). *)
Fixpoint utf8_decode_fuel (fuel : nat) (b : bytes) : option pystr :=
  match b with
  | [] => Some []
  | _ :: _ =>
      match fuel with
      | O => None
      | S fuel =>
          match decode_one b with
          | Some (c, r) => cons c <$> utf8_decode_fuel fuel r
          | None => None
          end
      end
  end.

(** [bytes.decode('utf-8')]: [None] is [UnicodeDecodeError]. *)
Definition utf8_decode (b : bytes) : option pystr := utf8_decode_fuel (length b) b.

(** [os.fsdecode]: the same decoder, each byte that does not start a valid
    sequence becoming the lone surrogate [U+DC00 + b]. *)
Fixpoint fsdecode_fuel (fuel : nat) (b : bytes) : pystr :=
  match b with
  | [] => []
  | b1 :: r1 =>
      match fuel with
      | O => []
      | S fuel =>
          match decode_one b with
          | Some (c, r) => c :: fsdecode_fuel fuel r
          | None => (0xDC00 + b1) :: fsdecode_fuel fuel r1
          end
      end
  end.

Definition fsdecode (b : bytes) : pystr := fsdecode_fuel (length b) b.

(** ** The strict encoder *)

Definition encode_cp (c : Z) : option bytes :=
  if c <? 0x80 then Some [c]
  else if c <? 0x800 then
    Some [Z.lor 0xC0 (Z.shiftr c 6); Z.lor 0x80 (Z.land c 0x3F)]
  else if c <? 0x10000 then
    if is_surrogate c then None
    else Some [Z.lor 0xE0 (Z.shiftr c 12);
               Z.lor 0x80 (Z.land (Z.shiftr c 6) 0x3F);
               Z.lor 0x80 (Z.land c 0x3F)]
  else Some [Z.lor 0xF0 (Z.shiftr c 18);
             Z.lor 0x80 (Z.land (Z.shiftr c 12) 0x3F);
             Z.lor 0x80 (Z.land (Z.shiftr c 6) 0x3F);
             Z.lor 0x80 (Z.land c 0x3F)].

(** [str.encode('utf-8')]: [None] is [UnicodeEncodeError]. *)
Fixpoint utf8_encode (s : pystr) : option bytes :=
  match s with
  | [] => Some []
  | c :: r =>
      match encode_cp c, utf8_encode r with
      | Some b, Some rb => Some (b ++ rb)
      | _, _ => None
      end
  end.

(** [os.fsencode]: an escaped byte [U+DC80]-[U+DCFF] goes back to the byte,
    any other code point is encoded strictly. *)
Definition fsencode_cp (c : Z) : option bytes :=
  if in_range 0xDC80 0xDCFF c then Some [c - 0xDC00] else encode_cp c.

Fixpoint fsencode (s : pystr) : option bytes :=
  match s with
  | [] => Some []
  | c :: r =>
      match fsencode_cp c, fsencode r with
      | Some b, Some rb => Some (b ++ rb)
      | _, _ => None
      end
  end.

(** ** Universal newlines

    A text-mode read with [newline=None] turns [\r\n] and a lone [\r] into
    [\n]. *)
Definition CR : Z := 13.
Definition LF : Z := 10.

Fixpoint translate_newlines (s : pystr) : pystr :=
  match s with
  | [] => []
  | c :: r =>
      if c =? CR then
        match r with
        | c' :: r' => if c' =? LF then LF :: translate_newlines r'
                      else LF :: translate_newlines r
        | [] => [LF]
        end
      else c :: translate_newlines r
  end.

(** ** One code point *)

Ltac codec_unfold :=
  unfold decode_one, encode_cp, fsencode_cp, in_range, is_cont, is_surrogate,
    lo3, hi3, lo4, hi4 in *.

(** Rewrite the bit operations of the goal into arithmetic. *)
Ltac bits_rewrite :=
  autorewrite with bits in *;
  repeat first
    [ rewrite lor_C0 by div_lia
    | rewrite lor_80 by div_lia
    | rewrite lor_E0 by div_lia
    | rewrite lor_F0 by div_lia ].

(** The encoder on a code point given by its 6-bit digits. *)
Lemma encode_cp_1 c : 0 <= c < 0x80 -> encode_cp c = Some [c].
Proof. intros. unfold encode_cp. by replace (c <? 0x80) with true by lia. Qed.

Lemma encode_cp_2 c x y :
  c = 64 * x + y -> 2 <= x < 32 -> 0 <= y < 64 ->
  encode_cp c = Some [0xC0 + x; 0x80 + y].
Proof.
  intros -> ? ?. unfold encode_cp.
  replace (64 * x + y <? 0x80) with false by lia.
  replace (64 * x + y <? 0x800) with true by lia.
  rewrite shiftr_6, land_3F.
  replace ((64 * x + y) / 64) with x by div_lia.
  replace ((64 * x + y) mod 64) with y by div_lia.
  by rewrite lor_C0, lor_80 by lia.
Qed.

Lemma encode_cp_3 c x y z :
  c = 4096 * x + 64 * y + z -> 0 <= x < 16 -> 0 <= y < 64 -> 0 <= z < 64 ->
  0x800 <= c -> is_surrogate c = false ->
  encode_cp c = Some [0xE0 + x; 0x80 + y; 0x80 + z].
Proof.
  intros -> ? ? ? ? Hs. unfold encode_cp. rewrite Hs.
  replace (4096 * x + 64 * y + z <? 0x80) with false by lia.
  replace (4096 * x + 64 * y + z <? 0x800) with false by lia.
  replace (4096 * x + 64 * y + z <? 0x10000) with true by lia.
  rewrite shiftr_12, shiftr_6, !land_3F.
  replace ((4096 * x + 64 * y + z) / 4096) with x by div_lia.
  replace ((4096 * x + 64 * y + z) / 64) with (64 * x + y) by div_lia.
  replace ((64 * x + y) mod 64) with y by div_lia.
  replace ((4096 * x + 64 * y + z) mod 64) with z by div_lia.
  by rewrite lor_E0, !lor_80 by lia.
Qed.

Lemma encode_cp_4 c w x y z :
  c = 262144 * w + 4096 * x + 64 * y + z ->
  0 <= w < 8 -> 0 <= x < 64 -> 0 <= y < 64 -> 0 <= z < 64 -> 0x10000 <= c ->
  encode_cp c = Some [0xF0 + w; 0x80 + x; 0x80 + y; 0x80 + z].
Proof.
  intros Hc ? ? ? ? ?. unfold encode_cp.
  replace (c <? 0x80) with false by lia.
  replace (c <? 0x800) with false by lia.
  replace (c <? 0x10000) with false by lia.
  rewrite shiftr_18, shiftr_12, shiftr_6, !land_3F.
  replace (c / 262144) with w by (subst c; div_lia).
  replace (c / 4096) with (64 * w + x) by (subst c; div_lia).
  replace (c / 64) with (4096 * w + 64 * x + y) by (subst c; div_lia).
  replace ((64 * w + x) mod 64) with x by div_lia.
  replace ((4096 * w + 64 * x + y) mod 64) with y by div_lia.
  replace (c mod 64) with z by (subst c; div_lia).
  by rewrite lor_F0, !lor_80 by lia.
Qed.

(** The decoder on the bytes of a code point given by its digits. *)
Lemma decode_one_2 x y r :
  2 <= x < 32 -> 0 <= y < 64 ->
  decode_one ((0xC0 + x) :: (0x80 + y) :: r) = Some (64 * x + y, r).
Proof.
  intros. unfold decode_one, is_cont, in_range. rewrite !shiftl_6.
  replace (0xC0 + x <? 0x80) with false by lia.
  replace ((0xC2 <=? 0xC0 + x) && (0xC0 + x <=? 0xDF)) with true by lia.
  replace ((0x80 <=? 0x80 + y) && (0x80 + y <=? 0xBF)) with true by lia.
  do 2 f_equal. lia.
Qed.

Lemma decode_one_3 c x y z r :
  c = 4096 * x + 64 * y + z -> 0 <= x < 16 -> 0 <= y < 64 -> 0 <= z < 64 ->
  0x800 <= c -> is_surrogate c = false ->
  decode_one ((0xE0 + x) :: (0x80 + y) :: (0x80 + z) :: r) = Some (c, r).
Proof.
  unfold is_surrogate. intros -> ? ? ? ? ?.
  unfold decode_one, is_cont, in_range, lo3, hi3. rewrite !shiftl_6, !shiftl_12.
  replace (0xE0 + x <? 0x80) with false by lia.
  replace ((0xC2 <=? 0xE0 + x) && (0xE0 + x <=? 0xDF)) with false by lia.
  replace ((0xE0 <=? 0xE0 + x) && (0xE0 + x <=? 0xEF)) with true by lia.
  replace ((((if 0xE0 + x =? 0xE0 then 0xA0 else 0x80) <=? 0x80 + y) &&
            (0x80 + y <=? (if 0xE0 + x =? 0xED then 0x9F else 0xBF))) &&
           ((0x80 <=? 0x80 + z) && (0x80 + z <=? 0xBF))) with true
    by (destruct (Z.eqb_spec (0xE0 + x) 0xE0), (Z.eqb_spec (0xE0 + x) 0xED); lia).
  do 2 f_equal. lia.
Qed.

Lemma decode_one_4 c w x y z r :
  c = 262144 * w + 4096 * x + 64 * y + z ->
  0 <= w < 8 -> 0 <= x < 64 -> 0 <= y < 64 -> 0 <= z < 64 ->
  0x10000 <= c <= 0x10FFFF ->
  decode_one ((0xF0 + w) :: (0x80 + x) :: (0x80 + y) :: (0x80 + z) :: r) = Some (c, r).
Proof.
  intros -> ? ? ? ? ?.
  unfold decode_one, is_cont, in_range, lo4, hi4.
  rewrite !shiftl_6, !shiftl_12, !shiftl_18.
  replace (0xF0 + w <? 0x80) with false by lia.
  replace ((0xC2 <=? 0xF0 + w) && (0xF0 + w <=? 0xDF)) with false by lia.
  replace ((0xE0 <=? 0xF0 + w) && (0xF0 + w <=? 0xEF)) with false by lia.
  replace ((0xF0 <=? 0xF0 + w) && (0xF0 + w <=? 0xF4)) with true by lia.
  replace ((((if 0xF0 + w =? 0xF0 then 0x90 else 0x80) <=? 0x80 + x) &&
            (0x80 + x <=? (if 0xF0 + w =? 0xF4 then 0x8F else 0xBF)) &&
            ((0x80 <=? 0x80 + y) && (0x80 + y <=? 0xBF))) &&
           ((0x80 <=? 0x80 + z) && (0x80 + z <=? 0xBF))) with true
    by (destruct (Z.eqb_spec (0xF0 + w) 0xF0), (Z.eqb_spec (0xF0 + w) 0xF4); lia).
  do 2 f_equal. lia.
Qed.

(** Every scalar value has an encoding, made of bytes, which the decoder
    reads back. *)
Lemma encode_cp_scalar c :
  is_scalar c ->
  exists bs, encode_cp c = Some bs /\ Forall is_byte bs /\
             forall r, decode_one (bs ++ r) = Some (c, r).
Proof.
  intros [Hc Hs]. unfold is_surrogate in Hs.
  destruct (Z.lt_ge_cases c 0x80).
  { rewrite encode_cp_1 by lia. eexists; split_and!; [done | repeat constructor; unfold is_byte; lia|].
    intros r. cbn [app decode_one]. by replace (c <? 0x80) with true by lia. }
  destruct (Z.lt_ge_cases c 0x800).
  { rewrite (encode_cp_2 c (c / 64) (c mod 64)) by div_lia.
    eexists; split_and!; [done | repeat constructor; unfold is_byte; div_lia|]. intros r. cbn [app].
    rewrite decode_one_2 by div_lia. do 2 f_equal. div_lia. }
  destruct (Z.lt_ge_cases c 0x10000).
  { rewrite (encode_cp_3 c (c / 4096) ((c / 64) mod 64) (c mod 64)) by
      (unfold is_surrogate; div_lia).
    eexists; split_and!; [done | repeat constructor; unfold is_byte; div_lia|]. intros r. cbn [app].
    apply decode_one_3; unfold is_surrogate; div_lia. }
  rewrite (encode_cp_4 c (c / 262144) ((c / 4096) mod 64) ((c / 64) mod 64) (c mod 64))
    by div_lia.
  eexists; split_and!; [done | repeat constructor; unfold is_byte; div_lia|]. intros r. cbn [app].
  apply decode_one_4; div_lia.
Qed.

(** What the decoder reads is a scalar value whose encoding is exactly the
    bytes it consumed. *)
Lemma decode_one_sound b c r :
  Forall is_byte b -> decode_one b = Some (c, r) ->
  is_scalar c /\ exists bs, encode_cp c = Some bs /\ b = bs ++ r.
Proof.
  unfold is_scalar, is_surrogate.
  intros Hb H. destruct b as [|b1 r1]; [done|].
  apply Forall_cons in Hb as [Hb1 Hr1]. unfold is_byte in Hb1.
  unfold decode_one in H.
  destruct (Z.ltb_spec b1 0x80).
  { injection H as <- <-. rewrite encode_cp_1 by lia. split; [lia | eauto]. }
  destruct (in_range 0xC2 0xDF b1) eqn:E2.
  { destruct r1 as [|b2 r2]; [done|].
    destruct (is_cont b2) eqn:E3; [|done]. injection H as <- <-.
    unfold is_cont, in_range in *. rewrite !shiftl_6.
    rewrite (encode_cp_2 _ (b1 - 0xC0) (b2 - 0x80)) by lia.
    split; [lia|]. eexists; split; [done|]. simpl. f_equal; [|f_equal]; lia. }
  destruct (in_range 0xE0 0xEF b1) eqn:E3.
  { destruct r1 as [|b2 [|b3 r3]]; try done.
    destruct (in_range (lo3 b1) (hi3 b1) b2 && is_cont b3) eqn:E; [|done].
    injection H as <- <-.
    unfold is_cont, in_range, lo3, hi3 in *. rewrite !shiftl_6, !shiftl_12.
    revert E; destruct (Z.eqb_spec b1 0xE0), (Z.eqb_spec b1 0xED); intros E;
      (rewrite (encode_cp_3 _ (b1 - 0xE0) (b2 - 0x80) (b3 - 0x80))
         by (unfold is_surrogate; lia);
       split; [lia|]; eexists; split; [done|]; simpl;
       f_equal; [|f_equal; [|f_equal]]; lia). }
  destruct (in_range 0xF0 0xF4 b1) eqn:E4; [|done].
  destruct r1 as [|b2 [|b3 [|b4 r4]]]; try done.
  destruct (in_range (lo4 b1) (hi4 b1) b2 && is_cont b3 && is_cont b4) eqn:E; [|done].
  injection H as <- <-.
  unfold is_cont, in_range, lo4, hi4 in *. rewrite !shiftl_6, !shiftl_12, !shiftl_18.
  revert E; destruct (Z.eqb_spec b1 0xF0), (Z.eqb_spec b1 0xF4); intros E;
    (rewrite (encode_cp_4 _ (b1 - 0xF0) (b2 - 0x80) (b3 - 0x80) (b4 - 0x80)) by lia;
     split; [lia|]; eexists; split; [done|]; simpl;
     f_equal; [|f_equal; [|f_equal; [|f_equal]]]; lia).
Qed.

Lemma decode_one_length b c r : decode_one b = Some (c, r) -> (length r < length b)%nat.
Proof.
  intros H. destruct b as [|b1 [|b2 [|b3 [|b4 t]]]]; unfold decode_one in H;
    repeat case_match; simplify_eq/=; lia.
Qed.

Lemma encode_cp_None c : encode_cp c = None <-> is_surrogate c = true.
Proof.
  unfold encode_cp, is_surrogate.
  destruct (Z.ltb_spec c 0x80), (Z.ltb_spec c 0x800), (Z.ltb_spec c 0x10000);
    try destruct (_ && _) eqn:?; split; intros; simplify_eq; try done; exfalso; lia.
Qed.

(** ** The decoding loops: fuel and unfolding *)

Lemma utf8_decode_fuel_stable n m b :
  (length b <= n)%nat -> (length b <= m)%nat ->
  utf8_decode_fuel n b = utf8_decode_fuel m b.
Proof.
  revert m b. induction n as [|n IH]; intros m b Hn Hm;
    (destruct b as [|x t]; [by destruct m|]); cbn [length] in *; [exfalso; lia|].
  destruct m as [|m]; [exfalso; lia|]. cbn [utf8_decode_fuel].
  destruct (decode_one (x :: t)) as [[c r]|] eqn:E; [|done].
  apply decode_one_length in E. cbn [length] in E. rewrite (IH m); [done | lia | lia].
Qed.

Lemma fsdecode_fuel_stable n m b :
  (length b <= n)%nat -> (length b <= m)%nat ->
  fsdecode_fuel n b = fsdecode_fuel m b.
Proof.
  revert m b. induction n as [|n IH]; intros m b Hn Hm;
    (destruct b as [|x t]; [by destruct m|]); cbn [length] in *; [exfalso; lia|].
  destruct m as [|m]; [exfalso; lia|]. cbn [fsdecode_fuel].
  destruct (decode_one (x :: t)) as [[c r]|] eqn:E.
  - apply decode_one_length in E. cbn [length] in E. rewrite (IH m); [done | lia | lia].
  - rewrite (IH m); [done | lia | lia].
Qed.

Lemma utf8_decode_cons x t :
  utf8_decode (x :: t) =
    match decode_one (x :: t) with
    | Some (c, r) => cons c <$> utf8_decode r
    | None => None
    end.
Proof.
  unfold utf8_decode at 1. cbn [length utf8_decode_fuel].
  destruct (decode_one (x :: t)) as [[c r]|] eqn:E; [|done].
  apply decode_one_length in E. cbn [length] in E.
  unfold utf8_decode. by rewrite (utf8_decode_fuel_stable _ (length r)) by lia.
Qed.

Lemma fsdecode_cons x t :
  fsdecode (x :: t) =
    match decode_one (x :: t) with
    | Some (c, r) => c :: fsdecode r
    | None => (0xDC00 + x) :: fsdecode t
    end.
Proof.
  unfold fsdecode at 1. cbn [length fsdecode_fuel].
  destruct (decode_one (x :: t)) as [[c r]|] eqn:E.
  - apply decode_one_length in E. cbn [length] in E.
    unfold fsdecode. by rewrite (fsdecode_fuel_stable _ (length r)) by lia.
  - done.
Qed.

(** Strong induction on the length of a byte string, the measure of the
    decoding loops. *)
Lemma bytes_length_ind (P : bytes -> Prop) :
  (forall b, (forall b', (length b' < length b)%nat -> P b') -> P b) ->
  forall b, P b.
Proof.
  intros Hstep b. remember (length b) as n eqn:Hn.
  revert b Hn. induction (lt_wf n) as [n _ IH]. intros b ->.
  apply Hstep. intros b' Hlt. by apply (IH (length b')).
Qed.

Lemma utf8_encode_app s1 s2 :
  utf8_encode (s1 ++ s2) =
    match utf8_encode s1, utf8_encode s2 with
    | Some a, Some b => Some (a ++ b)
    | _, _ => None
    end.
Proof.
  induction s1 as [|c s1 IH]; simpl.
  - by destruct (utf8_encode s2).
  - rewrite IH. destruct (encode_cp c), (utf8_encode s1), (utf8_encode s2);
      by rewrite ?app_assoc.
Qed.

Lemma utf8_encode_app_inv s1 s2 b :
  utf8_encode (s1 ++ s2) = Some b ->
  exists b1 b2, utf8_encode s1 = Some b1 /\ utf8_encode s2 = Some b2 /\ b = b1 ++ b2.
Proof.
  rewrite utf8_encode_app. destruct (utf8_encode s1) as [b1|], (utf8_encode s2) as [b2|]; try done.
  intros [= <-]. eauto.
Qed.

Lemma fsencode_app s1 s2 :
  fsencode (s1 ++ s2) =
    match fsencode s1, fsencode s2 with
    | Some a, Some b => Some (a ++ b)
    | _, _ => None
    end.
Proof.
  induction s1 as [|c s1 IH]; simpl.
  - by destruct (fsencode s2).
  - rewrite IH. destruct (fsencode_cp c), (fsencode s1), (fsencode s2);
      by rewrite ?app_assoc.
Qed.

Lemma forall_byte_suffix b bs r : Forall is_byte b -> b = bs ++ r -> Forall is_byte r.
Proof. intros Hb ->. by apply Forall_app in Hb as [_ ?]. Qed.

(** A byte that the decoder refuses to start a sequence with is not ASCII. *)
Lemma decode_one_None_high x t : decode_one (x :: t) = None -> 0x80 <= x.
Proof.
  unfold decode_one. destruct (Z.ltb_spec x 0x80); [discriminate | lia].
Qed.

(** ** Round trips *)

(** The strict decoder only produces scalar values, and the strict encoder
    gives back, byte for byte, every byte string the decoder accepts. *)
Lemma utf8_decode_sound b s :
  Forall is_byte b -> utf8_decode b = Some s ->
  Forall is_scalar s /\ utf8_encode s = Some b.
Proof.
  revert s. induction b as [b IH] using bytes_length_ind. intros s Hb H.
  destruct b as [|x t]; [injection H as <-; split; constructor|].
  rewrite utf8_decode_cons in H.
  destruct (decode_one (x :: t)) as [[c r]|] eqn:E; [|done].
  destruct (utf8_decode r) as [s'|] eqn:Er; [|done]. injection H as <-.
  destruct (decode_one_sound _ _ _ Hb E) as [Hc (bs & Hbs & Hx)].
  pose proof (decode_one_length _ _ _ E).
  destruct (IH r ltac:(done) s') as [Hs' Hr];
    [eapply forall_byte_suffix; eauto | done |].
  split; [by constructor|]. simpl. by rewrite Hbs, Hr, Hx.
Qed.

(** C16. Every string of scalar values has a strict UTF-8 encoding, and the
    decoder reads it back. *)
Theorem utf8_encode_decode s :
  Forall is_scalar s -> exists b, utf8_encode s = Some b /\ utf8_decode b = Some s.
Proof.
  induction 1 as [|c s Hc Hs IH]; [by exists []|].
  destruct IH as (b & Hb & Hd).
  destruct (encode_cp_scalar c Hc) as (bs & Hbs & _ & Hdec).
  exists (bs ++ b). split; [simpl; by rewrite Hbs, Hb|].
  destruct bs as [|x t]; [by specialize (Hdec [])|].
  specialize (Hdec b). cbn [app] in *.
  by rewrite utf8_decode_cons, Hdec, Hd.
Qed.

(** [os.fsencode] inverts [os.fsdecode] on every byte string (PEP 383). *)
Lemma fsencode_fsdecode b : Forall is_byte b -> fsencode (fsdecode b) = Some b.
Proof.
  induction b as [b IH] using bytes_length_ind. intros Hb.
  destruct b as [|x t]; [done|].
  rewrite fsdecode_cons. destruct (decode_one (x :: t)) as [[c r]|] eqn:E.
  - destruct (decode_one_sound _ _ _ Hb E) as [[Hc Hs] (bs & Hbs & Hx)].
    pose proof (decode_one_length _ _ _ E).
    cbn [fsencode]. rewrite IH by (done || eapply forall_byte_suffix; eauto).
    unfold fsencode_cp, is_surrogate in *.
    replace (in_range 0xDC80 0xDCFF c) with false by (unfold in_range; lia).
    by rewrite Hbs, Hx.
  - apply decode_one_None_high in E.
    apply Forall_cons in Hb as [Hx Ht]. unfold is_byte in Hx.
    cbn [fsencode]. rewrite IH by (done || cbn [length]; lia).
    unfold fsencode_cp, in_range.
    replace ((0xDC80 <=? 0xDC00 + x) && (0xDC00 + x <=? 0xDCFF)) with true by lia.
    simpl. do 3 f_equal. lia.
Qed.

(** On valid UTF-8, [os.fsdecode] is the strict decoder. *)
Lemma fsdecode_utf8 b s : utf8_decode b = Some s -> fsdecode b = s.
Proof.
  revert s. induction b as [b IH] using bytes_length_ind. intros s H.
  destruct b as [|x t]; [by injection H as <-|].
  rewrite utf8_decode_cons in H. rewrite fsdecode_cons.
  destruct (decode_one (x :: t)) as [[c r]|] eqn:E; [|done].
  destruct (utf8_decode r) as [s'|] eqn:Er; [|done]. injection H as <-.
  pose proof (decode_one_length _ _ _ E). by rewrite (IH r ltac:(done) s').
Qed.

(** On invalid UTF-8, [os.fsdecode] produces a lone surrogate, which the
    strict encoder refuses. *)
Lemma fsdecode_invalid_unencodable b :
  Forall is_byte b -> utf8_decode b = None -> utf8_encode (fsdecode b) = None.
Proof.
  induction b as [b IH] using bytes_length_ind. intros Hb H.
  destruct b as [|x t]; [done|].
  rewrite utf8_decode_cons in H. rewrite fsdecode_cons.
  destruct (decode_one (x :: t)) as [[c r]|] eqn:E.
  - destruct (utf8_decode r) eqn:Er; [done|].
    destruct (decode_one_sound _ _ _ Hb E) as [_ (bs & _ & Hx)].
    pose proof (decode_one_length _ _ _ E).
    cbn [utf8_encode]. rewrite IH by (done || eapply forall_byte_suffix; eauto).
    by destruct (encode_cp c).
  - apply decode_one_None_high in E.
    apply Forall_cons in Hb as [Hx _]. unfold is_byte in Hx.
    cbn [utf8_encode].
    assert (encode_cp (0xDC00 + x) = None) as ->; [|done].
    apply encode_cp_None. unfold is_surrogate. lia.
Qed.

(** The encoder succeeds on every string of scalar values. *)
Lemma scalars_encodable s : Forall is_scalar s -> is_Some (utf8_encode s).
Proof.
  induction 1 as [|c s Hc _ [b Hb]]; [by exists []|].
  destruct (encode_cp_scalar c Hc) as (bs & Hbs & _ & _).
  exists (bs ++ b). simpl. by rewrite Hbs, Hb.
Qed.

(** What the encoder produces from scalar values is bytes. *)
Lemma utf8_encode_bytes s b : Forall is_scalar s -> utf8_encode s = Some b -> Forall is_byte b.
Proof.
  intros Hs. revert b. induction Hs as [|c s Hc Hs IH]; intros b Hb; [by injection Hb as <-|].
  cbn [utf8_encode] in Hb. destruct (encode_cp_scalar c Hc) as (bs & Hbs & Hbb & _).
  rewrite Hbs in Hb. destruct (utf8_encode s) as [b'|]; [|done]. injection Hb as <-.
  apply Forall_app. auto.
Qed.

(** What the encoder produces from scalar values, the decoder reads back. *)
Lemma utf8_encode_decode_eq s b :
  Forall is_scalar s -> utf8_encode s = Some b -> utf8_decode b = Some s.
Proof.
  intros Hs. revert b. induction Hs as [|c s Hc Hs IH]; intros b Hb.
  - by injection Hb as <-.
  - cbn [utf8_encode] in Hb.
    destruct (encode_cp_scalar c Hc) as (bs & Hbs & _ & Hdec). rewrite Hbs in Hb.
    destruct (utf8_encode s) as [b'|] eqn:E; [|done]. injection Hb as <-.
    destruct bs as [|x t]; [by specialize (Hdec [])|].
    specialize (Hdec b'). cbn [app] in *.
    by rewrite utf8_decode_cons, Hdec, (IH b').
Qed.

(** C14. The strict decoder accepts a byte string exactly when it is the
    strict encoding of a string of scalar values, and then returns that
    string: decoding and encoding are inverse bijections between valid UTF-8
    and strings without surrogates. *)
Theorem utf8_decode_spec b s :
  Forall is_byte b ->
  utf8_decode b = Some s <-> Forall is_scalar s /\ utf8_encode s = Some b.
Proof.
  intros Hb. split.
  - by apply utf8_decode_sound.
  - intros [Hs He]. by apply utf8_encode_decode_eq.
Qed.

(** C15. The [str] name [os.walk] makes of a directory entry (PEP 383's
    [os.fsdecode]) is encoded back by [open] to that very entry, and it can
    be written to the output (strict UTF-8) exactly when the entry's name
    is valid UTF-8, as its own bytes. *)
Theorem fsdecode_spec b :
  Forall is_byte b ->
  fsencode (fsdecode b) = Some b /\
  utf8_encode (fsdecode b) = match utf8_decode b with Some _ => Some b | None => None end.
Proof.
  intros Hb. split; [by apply fsencode_fsdecode|].
  destruct (utf8_decode b) as [s|] eqn:E.
  - rewrite (fsdecode_utf8 b s E). by apply (utf8_decode_sound b s).
  - by apply fsdecode_invalid_unencodable.
Qed.

(** ** Code points and bytes *)

Lemma scalar_cp c : is_scalar c -> is_cp c.
Proof. by intros [? _]. Qed.

(** The encoder turns code points into bytes, or refuses (a surrogate). *)
Lemma utf8_encode_cp_bytes s b : Forall is_cp s -> utf8_encode s = Some b -> Forall is_byte b.
Proof.
  intros Hs. revert b. induction Hs as [|c s Hc Hs IH]; intros b Hb; [by injection Hb as <-|].
  cbn [utf8_encode] in Hb. destruct (encode_cp c) as [bs|] eqn:Ec; [|done].
  destruct (utf8_encode s) as [b'|]; [|done]. injection Hb as <-.
  assert (is_scalar c) as Hsc.
  { split; [done|]. destruct (is_surrogate c) eqn:E; [|done].
    apply encode_cp_None in E. congruence. }
  destruct (encode_cp_scalar c Hsc) as (bs' & Hbs' & Hbytes & _).
  rewrite Ec in Hbs'. injection Hbs' as <-. apply Forall_app. auto.
Qed.

(** On scalar values the file-system encoder is the strict one. *)
Lemma fsencode_scalar s : Forall is_scalar s -> fsencode s = utf8_encode s.
Proof.
  induction 1 as [|c s [_ Hc] _ IH]; [done|]. cbn [fsencode utf8_encode]. rewrite IH.
  unfold fsencode_cp. replace (in_range 0xDC80 0xDCFF c) with false; [done|].
  unfold is_surrogate in Hc. unfold in_range. lia.
Qed.

(** [os.fsdecode] gives code points: decoded scalars, or escapes
    [U+DC80]-[U+DCFF] of single bytes. *)
Lemma fsdecode_cp b : Forall is_byte b -> Forall is_cp (fsdecode b).
Proof.
  induction b as [b IH] using bytes_length_ind. intros Hb.
  destruct b as [|x t]; [constructor|]. rewrite fsdecode_cons.
  destruct (decode_one (x :: t)) as [[c r]|] eqn:E.
  - destruct (decode_one_sound _ _ _ Hb E) as [Hc (bs & _ & Hx)].
    pose proof (decode_one_length _ _ _ E).
    constructor; [by apply scalar_cp|]. apply IH; [done|]. eapply forall_byte_suffix; eauto.
  - apply Forall_cons in Hb as [Hx Ht]. unfold is_byte in Hx.
    constructor; [unfold is_cp; lia|]. apply IH; [cbn [length]; lia | done].
Qed.

(** Code points the strict encoder accepts are scalar values. *)
Lemma utf8_encode_cp_scalar s b : Forall is_cp s -> utf8_encode s = Some b -> Forall is_scalar s.
Proof.
  intros Hs. revert b. induction Hs as [|c s Hc Hs IH]; intros b Hb; [constructor|].
  cbn [utf8_encode] in Hb. destruct (encode_cp c) as [bs|] eqn:Ec; [|done].
  destruct (utf8_encode s) as [b'|]; [|done]. constructor; [|by eapply IH].
  split; [done|]. destruct (is_surrogate c) eqn:E; [|done]. apply encode_cp_None in E. congruence.
Qed.

(** ** Newline translation *)

Lemma translate_newlines_Forall (P : Z -> Prop) s :
  P LF -> Forall P s -> Forall P (translate_newlines s).
Proof.
  intros HLF. induction s as [s IH] using bytes_length_ind. intros Hs.
  destruct s as [|c r]; [constructor|]. apply Forall_cons in Hs as [Hc Hr].
  cbn [translate_newlines]. destruct (c =? CR).
  - destruct r as [|c' r']; [by constructor|]. apply Forall_cons in Hr as [Hc' Hr'].
    destruct (c' =? LF); constructor; try done; apply IH; simpl; try lia; try done; by constructor.
  - constructor; [done|]. apply IH; [simpl; lia | done].
Qed.

Lemma CR_not_in_translate s : CR ∉ translate_newlines s.
Proof.
  induction s as [s IH] using bytes_length_ind.
  destruct s as [|c r]; [apply not_elem_of_nil|]. cbn [translate_newlines].
  assert (LF <> CR) by done.
  destruct (Z.eqb_spec c CR) as [->|Hc].
  - destruct r as [|c' r']; [set_solver|].
    destruct (c' =? LF); rewrite elem_of_cons; intros [?|Hin]; try done;
      revert Hin; apply IH; simpl; lia.
  - rewrite elem_of_cons. intros [?|Hin]; [done|]. revert Hin. apply IH. simpl. lia.
Qed.


Lemma translate_newlines_no_CR s : CR ∉ s -> translate_newlines s = s.
Proof.
  induction s as [|c r IH]; intros Hs; [done|]. rewrite elem_of_cons in Hs.
  cbn [translate_newlines]. rewrite (proj2 (Z.eqb_neq c CR)) by naive_solver. f_equal. naive_solver.
Qed.


(** C7. Text mode translates newlines ([newline=None]): the text read
    from a file is the decoded text unchanged exactly when it holds no
    carriage return.  Lone [\r] and [\r\n] both become [\n], so the
    fidelity the spec asks for (P5, no line-ending normalization) fails on
    every file that has a carriage return. *)
Theorem translate_newlines_id s : translate_newlines s = s <-> CR ∉ s.
Proof.
  split; [|apply translate_newlines_no_CR].
  intros Heq. rewrite <- Heq. apply CR_not_in_translate.
Qed.


(** ** Bounds of the encoder *)

Lemma encode_cp_length c bs :
  encode_cp c = Some bs -> (1 <= length bs <= 4)%nat /\ (length bs = 1%nat <-> c < 0x80).
Proof.
  unfold encode_cp. destruct (Z.ltb_spec c 0x80); [intros [= <-]; simpl; lia|].
  destruct (c <? 0x800); [intros [= <-]; simpl; lia|].
  destruct (c <? 0x10000); [destruct (is_surrogate c); [done|]|]; intros [= <-]; simpl; lia.
Qed.

(** C21. The bit operations of the encoder stay within a byte, and every
    code point takes one to four bytes, one exactly when it is ASCII: the
    encoding of [s] holds between [length s] and [4 * length s] bytes, and
    exactly [length s] when [s] is ASCII. *)
Theorem utf8_encode_bounds s b :
  Forall is_cp s -> utf8_encode s = Some b ->
  Forall is_byte b /\ (length s <= length b <= 4 * length s)%nat /\
  (length b = length s <-> Forall (fun c => c < 0x80) s).
Proof.
  intros Hs Hb. split; [by eapply utf8_encode_cp_bytes|]. clear Hs.
  revert b Hb. induction s as [|c s IH]; intros b Hb; [injection Hb as <-; simpl; split; [lia|done]|].
  cbn [utf8_encode] in Hb. destruct (encode_cp c) as [bs|] eqn:Ec; [|done].
  destruct (utf8_encode s) as [b'|]; [|done]. injection Hb as <-.
  destruct (encode_cp_length c bs Ec) as [Hl Hascii].
  destruct (IH b' eq_refl) as [Hl' Hascii'].
  rewrite length_app, Forall_cons, <- Hascii, <- Hascii'. cbn [length]. split; [lia|].
  split; [lia | intros [-> ->]; lia].
Qed.

(** ** Witnesses *)

Lemma utf8_decode_spec_witness :
  Forall is_byte [0x24; 0xC2; 0xA3; 0xE2; 0x82; 0xAC; 0xF0; 0x90; 0x8D; 0x88] /\
  utf8_decode [0x24; 0xC2; 0xA3; 0xE2; 0x82; 0xAC; 0xF0; 0x90; 0x8D; 0x88] = Some [0x24; 0xA3; 0x20AC; 0x10348].
Proof.
  split; [decide_by_eval|].
  apply (utf8_decode_spec [0x24; 0xC2; 0xA3; 0xE2; 0x82; 0xAC; 0xF0; 0x90; 0x8D; 0x88]);
    [decide_by_eval | split; [decide_by_eval | vm_compute; reflexivity]].
Defined.

Lemma utf8_encode_decode_witness :
  exists b, utf8_encode [0x68; 0xE9; 0x1F680] = Some b /\ utf8_decode b = Some [0x68; 0xE9; 0x1F680].
Proof. apply utf8_encode_decode. decide_by_eval. Defined.

Lemma fsdecode_spec_witness :
  fsencode (fsdecode [0x61; 0xFF; 0xE2; 0x82; 0x41]) = Some [0x61; 0xFF; 0xE2; 0x82; 0x41] /\
  utf8_encode (fsdecode [0x61; 0xFF; 0xE2; 0x82; 0x41]) = None.
Proof.
  destruct (fsdecode_spec [0x61; 0xFF; 0xE2; 0x82; 0x41]) as [H1 H2]; [decide_by_eval|].
  split; [exact H1 | rewrite H2; reflexivity].
Defined.

Lemma translate_newlines_id_witness :
  translate_newlines [0x61; LF; 0x62] = [0x61; LF; 0x62] /\ translate_newlines [0x61; CR; LF] <> [0x61; CR; LF].
Proof.
  split.
  - apply (translate_newlines_id [0x61; LF; 0x62]). decide_by_eval.
  - intros H. apply (translate_newlines_id [0x61; CR; LF]) in H. apply H. decide_by_eval.
Defined.

Lemma utf8_encode_bounds_witness :
  Forall is_cp [0x68; 0xE9; 0x1F680] /\
  exists b, utf8_encode [0x68; 0xE9; 0x1F680] = Some b /\ Forall is_byte b /\ length b = 7%nat.
Proof.
  split; [decide_by_eval|].
  exists [0x68; 0xC3; 0xA9; 0xF0; 0x9F; 0x9A; 0x80]. split; [reflexivity|].
  split; [|reflexivity].
  apply (utf8_encode_bounds [0x68; 0xE9; 0x1F680]); [decide_by_eval | reflexivity].
Defined.
