(* ===== verification/Walk.v ===== *)
(** * The directory tree and [os.walk] (source lines 31-33)

    [for root, dirs, files in os.walk("."): dirs[:] = [...]] hands control
    back and forth between the library's generator and the loop body: the
    generator lists a directory and yields [(top, dirs, nondirs)]; the body
    runs, and may replace the contents of the very list [dirs] it was given
    (an alias of the generator's own list); when the body is done the
    generator pushes the paths of the names left in [dirs] and goes on.

    The file system is a tree ([node]): files whose reading succeeds or
    raises, directories whose listing succeeds or raises, and symbolic links
    to directories.  Names are byte strings; paths are [str], built with
    [os.path.join] from names decoded by [os.fsdecode] and resolved after
    [os.fsencode].

    [walk_loop] is CPython 3.12's [os.walk] (top-down, [onerror=None],
    [followlinks=False]) as a stack machine with fuel, its body supplied by
    the caller as a function that returns the new contents of [dirs] and its
    own new state.  [walk_node] is the recursive pre-order walk over the tree.
    The theorems: enough fuel exists and is bounded by the size of the tree,
    and the stack machine computes the recursive walk. *)

From S2P Require Import Prelude Utf8 PathOps.

(** ** The file system *)

Inductive node :=
  | File (data : option bytes)
      (** a regular file (or a link to one); [None]: [open] or [read]
          raises an [OSError] *)
  | Dir (listing : option (list (bytes * node)))
      (** a directory; [None]: [os.scandir] raises ([PermissionError]) *)
  | DirLink.
      (** a symbolic link to a directory, which the walk lists but does not
          follow *)

Abbreviation listing := (list (bytes * node)).

(** Induction on a tree, with a hypothesis for every entry of a listing. *)
Fixpoint node_ind' (P : node -> Prop)
    (Hf : forall d, P (File d)) (Hn : P (Dir None))
    (Hd : forall kids, Forall (fun e => P e.2) kids -> P (Dir (Some kids)))
    (Hl : P DirLink) (n : node) : P n :=
  match n with
  | File d => Hf d
  | Dir None => Hn
  | Dir (Some kids) =>
      Hd kids ((fix go (l : listing) : Forall (fun e => P e.2) l :=
                  match l with
                  | [] => Forall_nil_2 _
                  | e :: r => Forall_cons_2 _ _ _ (node_ind' P Hf Hn Hd Hl e.2) (go r)
                  end) kids)
  | DirLink => Hl
  end.

(** The entry of a listing with a given name (the first, in an ill-formed
    listing that repeats names). *)
Fixpoint lookup_entry (nm : bytes) (l : listing) : option node :=
  match l with
  | [] => None
  | (nm', n) :: r => if bool_decide (nm = nm') then Some n else lookup_entry nm r
  end.

(** [entry.is_dir()] follows links. *)
Definition is_dir_node (n : node) : bool :=
  match n with
  | File _ => false
  | Dir _ | DirLink => true
  end.

Definition is_link (n : node) : bool :=
  match n with
  | DirLink => true
  | _ => false
  end.

(** ** Path resolution

    A relative [str] path is split at ["/"]; empty and ["."] components are
    dropped; each component is encoded with [os.fsencode] and looked up in
    the directory reached so far.  [None]: the path does not reach a node of
    the tree (missing entry, a file or an unreadable directory on the way,
    or a link, whose target lies outside the modelled tree). *)

Definition path_comps (p : pystr) : option (list bytes) :=
  mapM fsencode
    (filter (fun c => c <> [] /\ c <> py ".") (split_sep SLASH p)).

Fixpoint resolve_in (n : node) (cs : list bytes) : option node :=
  match cs with
  | [] => Some n
  | c :: cs' =>
      match n with
      | Dir (Some l) =>
          match lookup_entry c l with
          | Some n' => resolve_in n' cs'
          | None => None
          end
      | _ => None
      end
  end.

Definition resolve (root : listing) (p : pystr) : option node :=
  cs ← path_comps p; resolve_in (Dir (Some root)) cs.

(** [os.scandir(top)] as [os.walk] uses it: the names and [is_dir()] of the
    entries, in listing order.  [Ok None] is an [OSError], which [os.walk]
    swallows; a path [os.fsencode] refuses raises [UnicodeEncodeError],
    which it does not. *)
Definition scandir (root : listing) (top : pystr) : result (option (list (pystr * bool))) :=
  match path_comps top with
  | None => Raise UnicodeEncodeError
  | Some cs =>
      match resolve_in (Dir (Some root)) cs with
      | Some (Dir (Some l)) => Ok (Some (map (fun e => (fsdecode e.1, is_dir_node e.2)) l))
      | _ => Ok None
      end
  end.

(** [os.path.islink(path)]: [False] on any error. *)
Definition islink (root : listing) (p : pystr) : bool :=
  match resolve root p with
  | Some n => is_link n
  | None => false
  end.

(** ** [os.walk] as a stack machine

    The stack is kept with its top first.  Each turn pops a path, lists it
    (skipping it on an [OSError]), splits the entries into [dirs] and
    [nondirs], yields to the body, and pushes, for the names the body left
    in [dirs], in reverse order, the joined paths that are not links; so the
    first name left in [dirs] is walked first.  Each turn costs one unit of
    fuel; [None] is running out of fuel. *)

Section WalkLoop.
Context {St : Type}.
(** The loop body: it gets [root], [dirs], [files] and the caller's
    state, and returns the new contents of [dirs] and the new state, or
    raises. *)
Variable body : pystr -> list pystr -> list pystr -> St -> St * result (list pystr).
Variable root : listing.

Definition dir_names (es : list (pystr * bool)) : list pystr :=
  map fst (filter (fun e => e.2 = true) es).
Definition nondir_names (es : list (pystr * bool)) : list pystr :=
  map fst (filter (fun e => e.2 = false) es).

Definition push_paths (top : pystr) (dirs' : list pystr) : list pystr :=
  filter (fun p => islink root p = false) (map (path_join top) dirs').

Fixpoint walk_loop (fuel : nat) (stack : list pystr) (st : St) : option (St * result unit) :=
  match stack with
  | [] => Some (st, Ok tt)
  | top :: rest =>
      match fuel with
      | O => None
      | S fuel =>
          match scandir root top with
          | Raise e => Some (st, Raise e)
          | Ok None => walk_loop fuel rest st
          | Ok (Some es) =>
              match body top (dir_names es) (nondir_names es) st with
              | (st', Raise e) => Some (st', Raise e)
              | (st', Ok dirs') =>
                  walk_loop fuel (push_paths top dirs' ++ rest) st'
              end
          end
      end
  end.

(** [os.walk(".")] run to the end with the body. *)
Definition walk (fuel : nat) (st : St) : option (St * result unit) :=
  walk_loop fuel [py "."] st.
End WalkLoop.

(** ** The recursive walk

    The pre-order walk of a directory node at path [top]: the body on the
    directory, then, in listing order, the walk of every sub-directory whose
    name the body kept and that is not a link. *)
Section WalkNode.
Context {St : Type}.
Variable body : pystr -> list pystr -> list pystr -> St -> St * result (list pystr).

Definition entries_of (kids : listing) : list (pystr * bool) :=
  map (fun e => (fsdecode e.1, is_dir_node e.2)) kids.

Definition descend (dirs' : list pystr) (e : bytes * node) : bool :=
  is_dir_node e.2 && bool_decide (fsdecode e.1 ∈ dirs') && negb (is_link e.2).

Fixpoint walk_node (top : pystr) (n : node) (st : St) : St * result unit :=
  match n with
  | Dir (Some kids) =>
      let es := entries_of kids in
      match body top (dir_names es) (nondir_names es) st with
      | (st1, Raise e) => (st1, Raise e)
      | (st1, Ok dirs') =>
          (fix go (ks : listing) (st : St) : St * result unit :=
             match ks with
             | [] => (st, Ok tt)
             | e :: ks' =>
                 if descend dirs' e then
                   match walk_node (path_join top (fsdecode e.1)) e.2 st with
                   | (st2, Ok _) => go ks' st2
                   | (st2, Raise x) => (st2, Raise x)
                   end
                 else go ks' st
             end) kids st1
      end
  | _ => (st, Ok tt)
  end.
End WalkNode.

(** ** Well-formed trees and sizes *)

(** The names of a directory are distinct and are proper names, and a file
    holds bytes. *)
Fixpoint wf_node (n : node) : Prop :=
  match n with
  | File (Some data) => Forall is_byte data
  | Dir (Some kids) =>
      NoDup (map fst kids) /\
      (fix go (ks : listing) : Prop :=
         match ks with
         | [] => True
         | (nm, c) :: ks' => normal_comp (fsdecode nm) /\ Forall is_byte nm /\
                             wf_node c /\ go ks'
         end) kids
  | _ => True
  end.

(** One unit of fuel per node. *)
Fixpoint node_size (n : node) : nat :=
  match n with
  | Dir (Some kids) =>
      S ((fix go (ks : listing) : nat :=
            match ks with
            | [] => O
            | (_, c) :: ks' => (node_size c + go ks')%nat
            end) kids)
  | _ => 1%nat
  end.

(** The sizes of the entries of a listing. *)
Fixpoint kids_size (ks : listing) : nat :=
  match ks with
  | [] => O
  | e :: ks' => (node_size e.2 + kids_size ks')%nat
  end.

(** The walk names a node by the byte names leading to it; its [str]
    path is ["."] joined with their decodings. *)
Definition names_ok (names : list bytes) : Prop :=
  Forall (fun nm => normal_comp (fsdecode nm) /\ Forall is_byte nm) names.

Definition node_path (names : list bytes) : pystr := walk_path (map fsdecode names).

(** A listing whose names are distinct proper names. *)
Definition kids_ok (kids : listing) : Prop :=
  NoDup (map fst kids) /\
  Forall (fun e => normal_comp (fsdecode e.1) /\ Forall is_byte e.1) kids.

(** Well-formedness, executable. *)
Fixpoint wf_nodeb (n : node) : bool :=
  match n with
  | Dir (Some kids) =>
      bool_decide (NoDup (map fst kids)) &&
      (fix go (ks : listing) : bool :=
         match ks with
         | [] => true
         | (nm, c) :: ks' =>
             bool_decide (normal_comp (fsdecode nm)) && bool_decide (Forall is_byte nm) &&
             wf_nodeb c && go ks'
         end) kids
  | File (Some data) => bool_decide (Forall is_byte data)
  | _ => true
  end.

(** A concrete walk: a body that counts the files it is shown and prunes
    the directories named ["skip"], and a tree. *)
Definition count_files_body (top : pystr) (ds fs : list pystr) (n : nat) :
    nat * result (list pystr) :=
  ((n + length fs)%nat, Ok (filter (fun d => d <> py "skip") ds)).

Definition demo_tree : listing :=
  [(py "a.py", File (Some (py "print(1)")));
   (py "skip", Dir (Some [(py "hidden.py", File (Some []))]));
   (py "src", Dir (Some [(py "b.md", File None); (py "lnk", DirLink)]))].

(** ** What [os.walk] needs of its loop body

    The body may only remove names from [dirs], which is what
    [dirs[:] = [d for d in dirs if ...]] does: it never adds a name, and
    keeps the order of those it keeps.  Every theorem on the walk is proved
    against this interface; the loop body of the script provides an
    instance ([Ingest]). *)
Class PruningBody {St : Type}
    (body : pystr -> list pystr -> list pystr -> St -> St * result (list pystr)) : Prop :=
  body_prunes : forall top ds fs st dirs' st',
    body top ds fs st = (st', Ok dirs') -> dirs' `sublist_of` ds.

#[export] Instance count_files_body_prunes : PruningBody count_files_body.
Proof. intros top ds fs st dirs' st' [= _ <-]. apply sublist_filter. Qed.

(** The loop over the entries of a directory, as its own function. *)
Section WalkKids.
Context {St : Type}.
Variable body : pystr -> list pystr -> list pystr -> St -> St * result (list pystr).

Fixpoint walk_kids (top : pystr) (dirs' : list pystr) (ks : listing) (st : St) :
    St * result unit :=
  match ks with
  | [] => (st, Ok tt)
  | e :: ks' =>
      if descend dirs' e then
        match walk_node body (path_join top (fsdecode e.1)) e.2 st with
        | (st2, Ok _) => walk_kids top dirs' ks' st2
        | (st2, Raise x) => (st2, Raise x)
        end
      else walk_kids top dirs' ks' st
  end.

Lemma walk_node_dir top kids st :
  walk_node body top (Dir (Some kids)) st =
    match body top (dir_names (entries_of kids)) (nondir_names (entries_of kids)) st with
    | (st1, Raise e) => (st1, Raise e)
    | (st1, Ok dirs') => walk_kids top dirs' kids st1
    end.
Proof.
  simpl. destruct (body _ _ _ st) as [st1 [dirs'|e]]; [|done].
  revert st1. induction kids as [|e ks IH]; intros st1; [done|].
  simpl. destruct (descend dirs' e); [|apply IH].
  destruct (walk_node body _ e.2 st1) as [st2 [?|?]]; [apply IH | done].
Qed.
End WalkKids.

Lemma node_size_dir kids : node_size (Dir (Some kids)) = S (kids_size kids).
Proof.
  simpl. f_equal. induction kids as [|[nm c] ks IH]; simpl; [done|]. by rewrite IH.
Qed.

Lemma node_size_pos n : (1 <= node_size n)%nat.
Proof. destruct n as [|[kids|]|]; simpl; lia. Qed.

Lemma wf_node_dir kids :
  wf_node (Dir (Some kids)) <->
  NoDup (map fst kids) /\
  Forall (fun e => normal_comp (fsdecode e.1) /\ Forall is_byte e.1 /\ wf_node e.2) kids.
Proof.
  simpl. apply and_iff_compat_l.
  induction kids as [|[nm c] ks IH]; simpl.
  - split; [constructor | done].
  - rewrite Forall_cons, IH. naive_solver.
Qed.

(** ** The stack machine: fuel *)

Section Fuel.
Context {St : Type}.
Variable body : pystr -> list pystr -> list pystr -> St -> St * result (list pystr).
Variable root : listing.

Lemma walk_loop_S n s st r :
  walk_loop body root n s st = Some r -> walk_loop body root (S n) s st = Some r.
Proof.
  revert s st. induction n as [|n IH]; intros s st H.
  { destruct s; [done | discriminate]. }
  destruct s as [|top rest]; [done|]. simpl in *.
  destruct (scandir root top) as [[es|]|e]; [|by apply IH|done].
  destruct (body top _ _ st) as [st' [dirs'|e]]; [by apply IH | done].
Qed.

(** More fuel gives the same outcome. *)
Lemma walk_loop_mono n m s st r :
  (n <= m)%nat -> walk_loop body root n s st = Some r ->
  walk_loop body root m s st = Some r.
Proof. induction 1 as [|m Hle IH]; [done|]. intros Hr. by apply walk_loop_S, IH. Qed.

(** Running a stack [s1 ++ s2] runs [s1] and then [s2]: the machine only
    ever looks at the top. *)
Lemma walk_loop_app n1 n2 s1 s2 st st1 r :
  walk_loop body root n1 s1 st = Some (st1, Ok tt) ->
  walk_loop body root n2 s2 st1 = Some r ->
  walk_loop body root (n1 + n2) (s1 ++ s2) st = Some r.
Proof.
  revert s1 st. induction n1 as [|n1 IH]; intros s1 st H1 H2.
  { destruct s1; [|discriminate]. by simplify_eq/=. }
  destruct s1 as [|top rest].
  { injection H1 as <-. apply (walk_loop_mono n2); [lia | done]. }
  simpl in *.
  destruct (scandir root top) as [[es|]|e]; [|by apply IH|done].
  destruct (body top _ _ st) as [st' [dirs'|e]]; [|done].
  rewrite app_assoc. by apply IH.
Qed.

Lemma walk_loop_app_raise n1 n2 s1 s2 st st1 e :
  walk_loop body root n1 s1 st = Some (st1, Raise e) ->
  walk_loop body root (n1 + n2) (s1 ++ s2) st = Some (st1, Raise e).
Proof.
  revert s1 st. induction n1 as [|n1 IH]; intros s1 st H1.
  { destruct s1; discriminate. }
  destruct s1 as [|top rest]; [discriminate|]. simpl in *.
  destruct (scandir root top) as [[es|]|e']; [|by apply IH|done].
  destruct (body top _ _ st) as [st' [dirs'|e']]; [|done].
  rewrite app_assoc. by apply IH.
Qed.
End Fuel.

(** ** Paths of the walk *)

Lemma node_path_snoc names nm :
  node_path (names ++ [nm]) = path_join (node_path names) (fsdecode nm).
Proof. unfold node_path, walk_path. by rewrite map_app, foldl_app. Qed.

Lemma mapM_fsencode_fsdecode names :
  Forall (fun nm => Forall is_byte nm) names -> mapM fsencode (map fsdecode names) = Some names.
Proof.
  induction 1 as [|nm names Hnm _ IH]; [done|]. simpl.
  by rewrite fsencode_fsdecode, IH.
Qed.

Lemma path_comps_node_path names : names_ok names -> path_comps (node_path names) = Some names.
Proof.
  intros Hok. unfold path_comps, node_path, walk_path.
  assert (Forall normal_comp (map fsdecode names)).
  { apply Forall_forall. intros s (nm & -> & Hnm)%elem_of_map_inv.
    by eapply Forall_forall in Hok as [? _]. }
  rewrite walk_path_app, split_walk by (done || set_solver).
  rewrite filter_cons_False by naive_solver.
  rewrite filter_Forall_id.
  - apply mapM_fsencode_fsdecode. eapply Forall_impl; [done|]. naive_solver.
  - eapply Forall_impl; [done|]. intros s (? & _ & ? & _). done.
Qed.

Lemma resolve_in_app n cs1 cs2 :
  resolve_in n (cs1 ++ cs2) = (n' ← resolve_in n cs1; resolve_in n' cs2).
Proof.
  revert n. induction cs1 as [|c cs1 IH]; intros n; [done|]. simpl.
  destruct n as [|[l|]|]; try done. destruct (lookup_entry c l); [apply IH | done].
Qed.

Lemma lookup_entry_elem e kids :
  NoDup (map fst kids) -> e ∈ kids -> lookup_entry e.1 kids = Some e.2.
Proof.
  induction kids as [|[nm c] ks IH]; intros Hnd He; [by apply not_elem_of_nil in He|].
  simpl in Hnd. apply NoDup_cons in Hnd as [Hnm Hnd]. simpl.
  apply elem_of_cons in He as [-> | He]; [by rewrite bool_decide_true|].
  rewrite bool_decide_false; [by apply IH|].
  intros Heq. apply Hnm. rewrite <- Heq. by apply (elem_of_map_2 fst).
Qed.

Lemma scandir_node_path root names n :
  names_ok names -> resolve_in (Dir (Some root)) names = Some n ->
  scandir root (node_path names) =
    Ok (match n with Dir (Some l) => Some (entries_of l) | _ => None end).
Proof.
  intros Hok Hres. unfold scandir. rewrite path_comps_node_path, Hres by done.
  by destruct n as [|[l|]|].
Qed.

Lemma islink_node_path root names :
  names_ok names ->
  islink root (node_path names) =
    match resolve_in (Dir (Some root)) names with Some n => is_link n | None => false end.
Proof. intros Hok. unfold islink, resolve. by rewrite path_comps_node_path. Qed.

Lemma dir_names_entries kids :
  dir_names (entries_of kids) =
    map (fun e => fsdecode e.1) (filter (fun e => is_dir_node e.2 = true) kids).
Proof.
  unfold dir_names, entries_of. rewrite filter_map_comm. simpl.
  by rewrite map_map.
Qed.

Lemma fsdecode_inj x y : Forall is_byte x -> Forall is_byte y -> fsdecode x = fsdecode y -> x = y.
Proof.
  intros Hx Hy Heq. apply (inj Some).
  by rewrite <- (fsencode_fsdecode x), <- (fsencode_fsdecode y), Heq.
Qed.

Lemma kids_ok_decoded_NoDup kids :
  kids_ok kids ->
  NoDup (map (fun e => fsdecode e.1) (filter (fun e => is_dir_node e.2 = true) kids)).
Proof.
  intros [Hnd Hok].
  assert (NoDup kids) as Hkids by (by eapply NoDup_fmap_1, Hnd).
  apply (NoDup_fmap_2_strong (fun e : bytes * node => fsdecode e.1)).
  - intros [x cx] [y cy] Hx%list_elem_of_filter Hy%list_elem_of_filter Heq.
    destruct Hx as [_ Hx], Hy as [_ Hy].
    eapply Forall_forall in Hok as Hox; [|exact Hx].
    eapply Forall_forall in Hok as Hoy; [|exact Hy].
    simpl in *. apply fsdecode_inj in Heq; [subst y | apply Hox | apply Hoy].
    assert (lookup_entry x kids = Some cx) by (by apply (lookup_entry_elem (x, cx))).
    assert (lookup_entry x kids = Some cy) by (by apply (lookup_entry_elem (x, cy))).
    congruence.
  - by apply NoDup_filter.
Qed.

(** The paths [os.walk] pushes after the body returned [dirs'] are the
    paths of the entries the recursive walk descends into, in listing
    order. *)
Lemma push_paths_node root names kids dirs' :
  names_ok names -> resolve_in (Dir (Some root)) names = Some (Dir (Some kids)) ->
  kids_ok kids -> dirs' `sublist_of` dir_names (entries_of kids) ->
  push_paths root (node_path names) dirs' =
    map (fun e => node_path (names ++ [e.1])) (filter (fun e => descend dirs' e = true) kids).
Proof.
  intros Hok Hres Hkids Hsub.
  rewrite dir_names_entries in Hsub.
  pose proof (sublist_map_filter _ _ _ Hsub (kids_ok_decoded_NoDup _ Hkids)) as Hd.
  unfold push_paths. rewrite Hd at 1.
  rewrite map_map, filter_map_comm, list_filter_filter, list_filter_filter.
  erewrite map_ext by (intros e; symmetry; apply node_path_snoc).
  f_equal. apply filter_ext_in. intros [nm c] He.
  destruct Hkids as [Hnd Hall].
  eapply Forall_forall in Hall as [Hn Hb]; [|exact He].
  rewrite <- node_path_snoc, islink_node_path, resolve_in_app, Hres.
  2: { apply Forall_app. split; [done|]. by constructor. }
  simpl. rewrite (lookup_entry_elem (nm, c)) by done. simpl.
  unfold descend. simpl.
  destruct (is_dir_node c), (is_link c); simpl; try case_bool_decide; naive_solver.
Qed.

(** ** The stack machine computes the recursive walk *)

Section WalkCorrect.
Context {St : Type}.
Variable body : pystr -> list pystr -> list pystr -> St -> St * result (list pystr).
Variable root : listing.
Context `{!PruningBody body}.

Definition walks_as_tree (n : node) : Prop :=
  forall names st,
    wf_node n -> names_ok names -> resolve_in (Dir (Some root)) names = Some n ->
    walk_loop body root (node_size n) [node_path names] st =
      Some (walk_node body (node_path names) n st).

Lemma walk_loop_kids names kids dirs' ks st :
  names_ok names -> resolve_in (Dir (Some root)) names = Some (Dir (Some kids)) ->
  kids_ok kids -> (forall e, e ∈ ks -> e ∈ kids) ->
  Forall (fun e => walks_as_tree e.2) ks -> Forall (fun e => wf_node e.2) ks ->
  walk_loop body root (kids_size ks)
    (map (fun e => node_path (names ++ [e.1])) (filter (fun e => descend dirs' e = true) ks)) st
  = Some (walk_kids body (node_path names) dirs' ks st).
Proof.
  intros Hok Hres Hkids. revert st.
  induction ks as [|e ks IH]; intros st Hsub Hwalk Hwf; [done|].
  apply Forall_cons in Hwalk as [He Hwalk]. apply Forall_cons in Hwf as [Hwfe Hwf].
  assert (e ∈ kids) as Hek by (apply Hsub; by left).
  assert (forall e', e' ∈ ks -> e' ∈ kids) as Hsub' by (intros; apply Hsub; by right).
  cbn [kids_size walk_kids]. rewrite filter_cons.
  destruct (descend dirs' e) eqn:Ed; simpl.
  - rewrite <- node_path_snoc.
    assert (names_ok (names ++ [e.1])) as Hok'.
    { apply Forall_app. split; [done|]. constructor; [|done].
      destruct Hkids as [_ Hall]. by eapply Forall_forall in Hall. }
    assert (resolve_in (Dir (Some root)) (names ++ [e.1]) = Some e.2) as Hres'.
    { rewrite resolve_in_app, Hres. simpl.
      rewrite (lookup_entry_elem e) by (done || apply Hkids). done. }
    specialize (He (names ++ [e.1]) st Hwfe Hok' Hres').
    destruct (walk_node body (node_path (names ++ [e.1])) e.2 st) as [st2 [[]|x]] eqn:Ew.
    + apply (walk_loop_app _ _ _ _ [_] _ _ st2); [done|]. by apply IH.
    + by apply (walk_loop_app_raise _ _ _ _ [_]).
  - apply (walk_loop_mono _ _ (kids_size ks)); [lia|]. by apply IH.
Qed.

Lemma walk_loop_node n : walks_as_tree n.
Proof.
  induction n as [d| |kids IH|] using node_ind';
    intros names st Hwf Hok Hres; rewrite ?node_size_dir; cbn [node_size walk_loop];
    rewrite (scandir_node_path root names _ Hok Hres); try done.
  rewrite walk_node_dir. apply wf_node_dir in Hwf as [Hnd Hall].
  destruct (body _ _ _ st) as [st1 [dirs'|e]] eqn:Eb; [|done].
  assert (kids_ok kids) as Hkids.
  { split; [done|]. eapply Forall_impl; [done|]. naive_solver. }
  rewrite app_nil_r, (push_paths_node root names kids dirs') by (done || by eapply body_prunes).
  apply (walk_loop_kids names kids); try done.
  eapply Forall_impl; [done|]. naive_solver.
Qed.

(** C2. [os.walk(".")] with a body that prunes [dirs] in place computes,
    on a well-formed tree, the recursive pre-order walk: the body on each
    directory, then the walk of each kept sub-directory in listing order;
    fuel equal to the number of nodes of the tree is enough, and any larger
    fuel gives the same result. *)
Theorem walk_correct fuel st :
  wf_node (Dir (Some root)) -> (node_size (Dir (Some root)) <= fuel)%nat ->
  walk body root fuel st = Some (walk_node body (py ".") (Dir (Some root)) st).
Proof.
  intros Hwf Hfuel. apply (walk_loop_mono _ _ (node_size (Dir (Some root)))); [done|].
  apply (walk_loop_node _ [] st); [done | constructor | done].
Qed.
End WalkCorrect.

Lemma wf_nodeb_spec n : wf_nodeb n = true <-> wf_node n.
Proof.
  induction n as [[d|]| |kids IH|] using node_ind'; try done.
  { simpl. apply bool_decide_eq_true. }
  rewrite wf_node_dir. simpl. rewrite andb_true_iff, bool_decide_eq_true.
  apply and_iff_compat_l.
  induction kids as [|[nm c] ks IHks]; simpl; [split; [constructor | done]|].
  apply Forall_cons in IH as [Hc IH]. simpl in Hc.
  rewrite !andb_true_iff, !bool_decide_eq_true, Hc, IHks by done.
  rewrite Forall_cons. naive_solver.
Qed.

Lemma walk_correct_witness :
  walk count_files_body demo_tree 7 0%nat =
    Some (walk_node count_files_body (py ".") (Dir (Some demo_tree)) 0%nat).
Proof.
  apply (walk_correct count_files_body demo_tree 7 0%nat).
  - apply wf_nodeb_spec. vm_compute. reflexivity.
  - vm_compute. lia.
Defined.

Example demo_walk_counts : walk count_files_body demo_tree 7 0%nat = Some (2%nat, Ok tt).
Proof. vm_compute. reflexivity. Qed.
