(* ===== verification/Ingest.v ===== *)
(** * [generate_context] (source lines 20-59)

    The run as explicit state passing.  Its state is what a Python run
    accumulates: the bytes written to the output file, the counter [count],
    and the lines printed.  Each statement is a [pyM] computation, which
    keeps its effects when it raises; [try]/[except] is [ptry].  The file
    system is the tree of [Walk]; the walk reads the tree as it stands once
    the output file is open (the writes of the run only touch that file,
    which lies in the pruned directory ["notebookLM"]). *)

From S2P Require Import Prelude Config PathOps Utf8 Walk.

(** ** What the run prints *)

Inductive log_line :=
  | LogStarting (cwd : pystr)          (** line 21 *)
  | LogReading (rel : pystr)           (** line 46 *)
  | LogError (rel : pystr) (e : exn)   (** line 55 *)
  | LogFinished (count : nat)          (** line 58 *)
  | LogSaved (path : pystr).           (** line 59 *)

(** ** The state of a run *)

Record ingest_state := mk_state {
  out : bytes;           (** the bytes written to [outfile] so far *)
  count : nat;           (** [count] *)
  log : list log_line    (** the lines printed, in order *)
}.

Definition emit (l : log_line) : pyM ingest_state unit :=
  fun st => (mk_state (out st) (count st) (log st ++ [l]), Ok tt).

(** [outfile.write(s)]: the text is encoded as strict UTF-8 when written;
    a surrogate raises [UnicodeEncodeError] and nothing is written. *)
Definition write (s : pystr) : pyM ingest_state unit :=
  fun st =>
    match utf8_encode s with
    | Some b => (mk_state (out st ++ b) (count st) (log st), Ok tt)
    | None => (st, Raise UnicodeEncodeError)
    end.

(** [count += 1] *)
Definition incr_count : pyM ingest_state unit :=
  fun st => (mk_state (out st) (S (count st)) (log st), Ok tt).

Definition get_count : pyM ingest_state nat := fun st => (st, Ok (count st)).

(** The bytes written so far are the UTF-8 encoding of a text of scalar
    values: the invariant of every run. *)
Definition out_utf8 (st : ingest_state) : Prop :=
  exists s, Forall is_scalar s /\ utf8_encode s = Some (out st).

(** ** Reading a file (lines 51-52)

    [open(file_path, 'r', encoding='utf-8')] then [f.read()]: the bytes are
    decoded strictly and the newlines translated. *)
Definition read_text (fs : listing) (p : pystr) : result pystr :=
  match path_comps p with
  | None => Raise UnicodeEncodeError
  | Some cs =>
      match resolve_in (Dir (Some fs)) cs with
      | Some (File (Some data)) =>
          match utf8_decode data with
          | Some s => Ok (translate_newlines s)
          | None => Raise UnicodeDecodeError
          end
      | Some (File None) => Raise PermissionError
      | Some (Dir _) | Some DirLink => Raise IsADirectoryError
      | None => Raise FileNotFoundError
      end
  end.

(** ** The text the run writes *)

(** [f"# Project Codebase Context\n\n"] (line 29) *)
Definition header : pystr := py "# Project Codebase Context" ++ [LF; LF].
(** [f"\n\n## FILE: {rel_path}\n"] (line 48) *)
Definition heading (rel : pystr) : pystr := [LF; LF] ++ py "## FILE: " ++ rel ++ [LF].
(** [f"```\n"] (line 49) *)
Definition fence_open : pystr := py "```" ++ [LF].
(** [f"\n```\n"] (line 56) *)
Definition fence_close : pystr := [LF] ++ py "```" ++ [LF].

(** ** The loop body *)

(** Lines 41-56, for a file that passed the guards of lines 36-39. *)
Definition ingest_file (fs : listing) (cwd top file : pystr) : pyM ingest_state unit :=
  let file_path := path_join top file in
  let rel_path := relpath cwd file_path (py ".") in
  c <- get_count ;;
  (if (c <? 3)%nat then emit (LogReading rel_path) else pret tt) ;;
  write (heading rel_path) ;;
  write fence_open ;;
  ptry (content <- plift (read_text fs file_path) ;;
        write content ;;
        incr_count)
       (fun e => emit (LogError rel_path e)) ;;
  write fence_close.

(** Lines 35-56: the files of one directory, in the order listed. *)
Fixpoint ingest_files (cfg : config) (fs : listing) (cwd top : pystr) (files : list pystr) :
    pyM ingest_state unit :=
  match files with
  | [] => pret tt
  | file :: rest =>
      (if file_selected cfg file then ingest_file fs cwd top file else pret tt) ;;
      ingest_files cfg fs cwd top rest
  end.

(** Lines 31-56: the body of [for root, dirs, files in os.walk(".")]; it
    returns the new contents of [dirs] (line 33). *)
Definition ingest_body (cfg : config) (fs : listing) (cwd : pystr)
    (top : pystr) (dirs files : list pystr) : pyM ingest_state (list pystr) :=
  let dirs' := filter (fun d => d ∉ ignored_dirs cfg) dirs in
  ingest_files cfg fs cwd top files ;;
  pret dirs'.

(** The loop body only prunes [dirs]. *)
#[export] Instance ingest_body_prunes cfg fs cwd : PruningBody (ingest_body cfg fs cwd).
Proof.
  intros top ds files st dirs' st'. unfold ingest_body, pbind.
  destruct (ingest_files _ _ _ _ _ st) as [? [|]]; [|done].
  intros [= _ <-]. apply sublist_filter.
Qed.

(** ** The output file (lines 23-28 and the end of the [with] block) *)

Fixpoint set_entry (nm : bytes) (n : node) (kids : listing) : listing :=
  match kids with
  | [] => []
  | (nm', c) :: ks =>
      if bool_decide (nm = nm') then (nm', n) :: ks else (nm', c) :: set_entry nm n ks
  end.

Fixpoint remove_entry (nm : bytes) (kids : listing) : listing :=
  match kids with
  | [] => []
  | (nm', c) :: ks => if bool_decide (nm = nm') then ks else (nm', c) :: remove_entry nm ks
  end.

(** Apply [f] to the listing of the directory reached through [parents]:
    the errors are those of [open] on a path whose directories are missing,
    are files or cannot be searched; [None]: the path leaves the modelled
    tree through a link. *)
Fixpoint at_dir (parents : list bytes) (kids : listing) (f : listing -> result listing) :
    option (result listing) :=
  match parents with
  | [] => Some (f kids)
  | c :: cs =>
      match lookup_entry c kids with
      | None => Some (Raise FileNotFoundError)
      | Some (File _) => Some (Raise NotADirectoryError)
      | Some (Dir None) => Some (Raise PermissionError)
      | Some DirLink => None
      | Some (Dir (Some l)) =>
          match at_dir cs l f with
          | Some (Ok l') => Some (Ok (set_entry c (Dir (Some l')) kids))
          | r => r
          end
      end
  end.

(** [if os.path.exists(OUTPUT_FILE): os.remove(OUTPUT_FILE)] and
    [open(OUTPUT_FILE, 'w')], in the directory that holds the output: an
    existing file or link is removed, a directory makes [os.remove] raise,
    and the file is created empty. *)
Definition replace_output (nm : bytes) (kids : listing) : result listing :=
  match lookup_entry nm kids with
  | Some (Dir _) => Raise IsADirectoryError
  | Some _ => Ok (remove_entry nm kids ++ [(nm, File (Some []))])
  | None => Ok (kids ++ [(nm, File (Some []))])
  end.

(** The [with] block closes [outfile]: the file holds the bytes written. *)
Definition store_output (nm : bytes) (data : bytes) (kids : listing) : result listing :=
  Ok (set_entry nm (File (Some data)) kids).

(** The directories and the name of [OUTPUT_FILE]. *)
Definition output_location (cfg : config) : result (list bytes * bytes) :=
  match path_comps (output_file cfg) with
  | None => Raise UnicodeEncodeError
  | Some cs =>
      match reverse cs with
      | nm :: rparents => Ok (reverse rparents, nm)
      | [] => Raise FileNotFoundError
      end
  end.

(** ** [generate_context] *)

(** How a run ends: normally, or with an exception that leaves the script;
    either way with the tree (holding the output file as written so far)
    and the lines printed. *)
Inductive run_end :=
  | Completed (fs : listing) (log : list log_line)
  | Crashed (e : exn) (fs : listing) (log : list log_line).

(** The run in the working directory [cwd] whose tree is [fs].  [None]:
    the output path leads out of the modelled tree, or the walk runs out of
    fuel (which a well-formed tree never makes it do). *)
Definition generate_context (cfg : config) (cwd : pystr) (fs : listing) : option run_end :=
  let log0 := [LogStarting cwd] in
  match output_location cfg with
  | Raise e => Some (Crashed e fs log0)
  | Ok (parents, nm) =>
      match at_dir parents fs (replace_output nm) with
      | None => None
      | Some (Raise e) => Some (Crashed e fs log0)
      | Some (Ok fs1) =>
          (* the [with] block ends, normally or by an exception *)
          let finish (st : ingest_state) (r : result unit) : option run_end :=
            match at_dir parents fs1 (store_output nm (out st)) with
            | Some (Ok fs2) =>
                Some (match r with
                      | Ok _ => Completed fs2
                                  (log st ++ [LogFinished (count st);
                                              LogSaved (abspath cwd (output_file cfg))])
                      | Raise e => Crashed e fs2 (log st)
                      end)
            | _ => None
            end in
          match write header (mk_state [] 0 log0) with
          | (st1, Raise e) => finish st1 (Raise e)
          | (st1, Ok _) =>
              match walk (ingest_body cfg fs1 cwd) fs1 (node_size (Dir (Some fs1))) st1 with
              | Some (st2, r) => finish st2 r
              | None => None
              end
          end
      end
  end.

(** ** The scenario of the spec

    [src/app.py] holds ["print(1)"], [node_modules/lib.js] is pruned,
    [README.md] holds ["# Hi"], [build/out.bin] has an extension that is
    not included; the directory [notebookLM] holds an earlier output. *)
Definition scenario_tree : listing :=
  [(py "src", Dir (Some [(py "app.py", File (Some (py "print(1)")))]));
   (py "node_modules", Dir (Some [(py "lib.js", File (Some (py "x")))]));
   (py "README.md", File (Some (py "# Hi")));
   (py "build", Dir (Some [(py "out.bin", File (Some [0; 255]))]));
   (py "notebookLM", Dir (Some [(py "project_context.md", File (Some (py "old")))]))].

(** The entries of a well-formed directory. *)
Abbreviation entry_wf := (fun e : bytes * node =>
  normal_comp (fsdecode e.1) /\ Forall is_byte e.1 /\ wf_node e.2).

(** ** Lines 44-56 as a function of the path printed and the outcome of
    the read

    The read of lines 51-52 depends only on the tree, so the body of
    [ingest_file] is [take_file] applied to the relative path and to the
    outcome of [read_text]. *)
Definition take_file (rel_path : pystr) (contents : result pystr) : pyM ingest_state unit :=
  c <- get_count ;;
  (if (c <? 3)%nat then emit (LogReading rel_path) else pret tt) ;;
  write (heading rel_path) ;;
  write fence_open ;;
  ptry (content <- plift contents ;;
        write content ;;
        incr_count)
       (fun e => emit (LogError rel_path e)) ;;
  write fence_close.

Lemma ingest_file_take fs cwd top file :
  ingest_file fs cwd top file =
    take_file (relpath cwd (path_join top file) (py ".")) (read_text fs (path_join top file)).
Proof. reflexivity. Qed.

(** ** Running the statements one at a time *)

Lemma pbind_pret {A B} (a : A) (k : A -> pyM ingest_state B) st : pbind (pret a) k st = k a st.
Proof. reflexivity. Qed.

Lemma pbind_get_count {B} (k : nat -> pyM ingest_state B) st : pbind get_count k st = k (count st) st.
Proof. reflexivity. Qed.

Lemma pbind_emit {B} l (k : unit -> pyM ingest_state B) st :
  pbind (emit l) k st = k tt (mk_state (out st) (count st) (log st ++ [l])).
Proof. reflexivity. Qed.

Lemma pbind_incr_count {B} (k : unit -> pyM ingest_state B) st :
  pbind incr_count k st = k tt (mk_state (out st) (S (count st)) (log st)).
Proof. reflexivity. Qed.

Lemma pbind_write_Some {B} s b (k : unit -> pyM ingest_state B) st :
  utf8_encode s = Some b -> pbind (write s) k st = k tt (mk_state (out st ++ b) (count st) (log st)).
Proof. intros H. unfold pbind, write. by rewrite H. Qed.

Lemma pbind_write_None {B} s (k : unit -> pyM ingest_state B) st :
  utf8_encode s = None -> pbind (write s) k st = (st, Raise UnicodeEncodeError).
Proof. intros H. unfold pbind, write. by rewrite H. Qed.

Lemma pbind_plift_Ok {A B} (a : A) (k : A -> pyM ingest_state B) st : pbind (plift (Ok a)) k st = k a st.
Proof. reflexivity. Qed.

Lemma pbind_plift_Raise {A B} e (k : A -> pyM ingest_state B) st :
  pbind (plift (Raise e)) k st = (st, Raise e).
Proof. reflexivity. Qed.

Lemma pbind_ptry {A B} (m : pyM ingest_state A) h (k : A -> pyM ingest_state B) st :
  pbind (ptry m h) k st =
    match m st with
    | (st', Ok a) => k a st'
    | (st', Raise e) => pbind (h e) k st'
    end.
Proof. unfold pbind at 1, ptry. by destruct (m st) as [? [|]]. Qed.

Lemma write_Some s b st :
  utf8_encode s = Some b -> write s st = (mk_state (out st ++ b) (count st) (log st), Ok tt).
Proof. intros H. unfold write. by rewrite H. Qed.

#[export] Hint Rewrite @pbind_pret @pbind_get_count @pbind_emit @pbind_incr_count
  @pbind_plift_Ok @pbind_plift_Raise : ingest_rw.

(** ** The output file: lemmas *)

Lemma set_entry_names nm n kids : map fst (set_entry nm n kids) = map fst kids.
Proof.
  induction kids as [|[nm' c] ks IH]; [done|]. simpl.
  case_bool_decide; simpl; by rewrite ?IH.
Qed.

Lemma lookup_set_entry nm n kids : lookup_entry nm (set_entry nm n kids) = const n <$> lookup_entry nm kids.
Proof.
  induction kids as [|[nm' c] ks IH]; [done|]. simpl.
  case_bool_decide as E; simpl; [by rewrite bool_decide_true | by rewrite bool_decide_false].
Qed.

Lemma set_entry_set_entry nm n n' kids : set_entry nm n (set_entry nm n' kids) = set_entry nm n kids.
Proof.
  induction kids as [|[nm' c] ks IH]; [done|]. simpl.
  case_bool_decide; simpl; [by rewrite bool_decide_true | by rewrite bool_decide_false, IH].
Qed.

Lemma set_entry_elem nm n kids e :
  e ∈ set_entry nm n kids -> e ∈ kids \/ e = (nm, n).
Proof.
  induction kids as [|[nm' c] ks IH]; simpl; [by intros ?%not_elem_of_nil|].
  case_bool_decide as E; rewrite !elem_of_cons; [subst nm'|]; naive_solver.
Qed.

Lemma remove_entry_sublist nm kids : remove_entry nm kids `sublist_of` kids.
Proof.
  induction kids as [|[nm' c] ks IH]; simpl; [done|].
  case_bool_decide; [by apply sublist_cons | by apply sublist_skip].
Qed.

Lemma remove_entry_absent nm kids : lookup_entry nm kids = None -> remove_entry nm kids = kids.
Proof.
  induction kids as [|[nm' c] ks IH]; simpl; [done|].
  case_bool_decide; [done|]. intros Hl. by rewrite IH.
Qed.

Lemma remove_entry_not_in nm kids : NoDup (map fst kids) -> nm ∉ map fst (remove_entry nm kids).
Proof.
  induction kids as [|[nm' c] ks IH]; simpl; [set_solver|].
  intros [Hnm Hnd]%NoDup_cons. case_bool_decide; [by subst|].
  simpl. rewrite elem_of_cons. naive_solver.
Qed.

Lemma set_entry_last nm n m kids :
  nm ∉ map fst kids -> set_entry nm n (kids ++ [(nm, m)]) = kids ++ [(nm, n)].
Proof.
  induction kids as [|[nm' c] ks IH]; simpl; intros Hnm.
  - by rewrite bool_decide_true.
  - rewrite elem_of_cons in Hnm. rewrite bool_decide_false by naive_solver. f_equal. naive_solver.
Qed.

Lemma at_dir_one c l kids f :
  lookup_entry c kids = Some (Dir (Some l)) ->
  at_dir [c] kids f =
    Some (match f l with Ok l' => Ok (set_entry c (Dir (Some l')) kids) | Raise e => Raise e end).
Proof. intros H. simpl. rewrite H. by destruct (f l). Qed.

Lemma lookup_entry_None nm kids : lookup_entry nm kids = None <-> nm ∉ map fst kids.
Proof.
  induction kids as [|[nm' c] ks IH]; simpl; [set_solver|].
  rewrite elem_of_cons. case_bool_decide; naive_solver.
Qed.

Lemma lookup_entry_Some nm kids n : lookup_entry nm kids = Some n -> (nm, n) ∈ kids.
Proof.
  induction kids as [|[nm' c] ks IH]; simpl; [done|].
  rewrite elem_of_cons. case_bool_decide; naive_solver.
Qed.

Lemma Forall_set_entry (P : bytes * node -> Prop) nm n kids :
  Forall P kids -> (forall c, P (nm, c) -> P (nm, n)) -> Forall P (set_entry nm n kids).
Proof.
  induction 1 as [|[nm' c] ks Hc Hks IH]; intros Hn; simpl; [constructor|].
  case_bool_decide; subst; constructor; eauto.
Qed.

Lemma wf_set_entry nm n kids :
  wf_node (Dir (Some kids)) -> wf_node n -> wf_node (Dir (Some (set_entry nm n kids))).
Proof.
  rewrite !wf_node_dir, set_entry_names. intros [Hnd Hall] Hn. split; [done|].
  apply Forall_set_entry; [done|]. naive_solver.
Qed.

Lemma wf_append_entry nm n kids :
  wf_node (Dir (Some kids)) -> nm ∉ map fst kids -> entry_wf (nm, n) ->
  wf_node (Dir (Some (kids ++ [(nm, n)]))).
Proof.
  rewrite !wf_node_dir. intros [Hnd Hall] Hnm He. rewrite map_app. split.
  - apply NoDup_app. split_and!; [done | set_solver | apply NoDup_singleton].
  - apply Forall_app. split; [done|]. by constructor.
Qed.

Lemma wf_remove_entry nm kids : wf_node (Dir (Some kids)) -> wf_node (Dir (Some (remove_entry nm kids))).
Proof.
  rewrite !wf_node_dir. intros [Hnd Hall]. pose proof (remove_entry_sublist nm kids) as Hs. split.
  - eapply sublist_NoDup; [exact Hnd|]. by apply sublist_map.
  - apply Forall_forall. intros e He. eapply (Forall_forall entry_wf) in Hall; [exact Hall|].
    by eapply elem_of_sublist.
Qed.

Lemma wf_replace_output nm kids kids' :
  normal_comp (fsdecode nm) -> Forall is_byte nm -> wf_node (Dir (Some kids)) ->
  replace_output nm kids = Ok kids' -> wf_node (Dir (Some kids')).
Proof.
  intros Hn Hb Hwf. unfold replace_output.
  assert (entry_wf (nm, File (Some []))) by (split_and!; simpl; auto).
  destruct (lookup_entry nm kids) as [[d| l |]|] eqn:E; intros [= <-];
    try (apply wf_append_entry; [by apply wf_remove_entry | | done];
         apply remove_entry_not_in; by apply wf_node_dir in Hwf as [? _]).
  apply wf_append_entry; [done | by apply lookup_entry_None | done].
Qed.

Lemma wf_store_output nm data kids kids' :
  Forall is_byte data -> wf_node (Dir (Some kids)) -> store_output nm data kids = Ok kids' ->
  wf_node (Dir (Some kids')).
Proof. intros Hd Hwf [= <-]. by apply wf_set_entry. Qed.

Lemma wf_at_dir ps kids f kids' :
  (forall l l', wf_node (Dir (Some l)) -> f l = Ok l' -> wf_node (Dir (Some l'))) ->
  wf_node (Dir (Some kids)) -> at_dir ps kids f = Some (Ok kids') -> wf_node (Dir (Some kids')).
Proof.
  intros Hf. revert kids kids'. induction ps as [|c cs IH]; intros kids kids' Hwf; cbn [at_dir].
  - intros [= H]. by apply (Hf kids).
  - destruct (lookup_entry c kids) as [[d|[l|]|]|] eqn:E; try done.
    apply lookup_entry_Some in E.
    assert (wf_node (Dir (Some l))) as Hl.
    { apply wf_node_dir in Hwf as [_ Hall].
      by apply (proj1 (Forall_forall entry_wf kids) Hall _ E). }
    destruct (at_dir cs l f) as [[l'|e]|] eqn:Ea; try done.
    intros [= <-]. apply wf_set_entry; [done|]. by apply (IH l l').
Qed.

(** ** The output is UTF-8 text *)

Lemma preserves_emit l : preserves out_utf8 (emit l).
Proof. by intros st st' r Hi [= <- _]. Qed.

Lemma preserves_incr_count : preserves out_utf8 incr_count.
Proof. by intros st st' r Hi [= <- _]. Qed.

Lemma preserves_get_count : preserves out_utf8 get_count.
Proof. by intros st st' r Hi [= <- _]. Qed.

(** [write] of code points adds a whole encoding or nothing. *)
Lemma preserves_write s : Forall is_cp s -> preserves out_utf8 (write s).
Proof.
  intros Hs st st' r (s0 & Hsc0 & Hs0). unfold write.
  destruct (utf8_encode s) as [b|] eqn:E; intros [= <- _]; [|by exists s0].
  exists (s0 ++ s). split; [apply Forall_app; split; [done | by eapply utf8_encode_cp_scalar]|].
  cbn [out]. by rewrite utf8_encode_app, Hs0, E.
Qed.

#[export] Hint Resolve preserves_emit preserves_incr_count preserves_get_count preserves_write : pyinv.

(** ** Reading a file *)

(** C6. Content fidelity (P5) where it holds: a file of valid UTF-8
    without carriage returns is read (lines 51-52) as its decoded text,
    whose encoding, written between the fences, is the file's bytes. *)
Theorem read_text_fidelity fs p b s :
  Forall is_byte b -> resolve fs p = Some (File (Some b)) -> utf8_decode b = Some s -> CR ∉ s ->
  read_text fs p = Ok s /\ utf8_encode s = Some b.
Proof.
  intros Hb Hres Hd Hcr. unfold resolve in Hres. unfold read_text.
  destruct (path_comps p) as [cs|]; [|done]. cbn [mbind option_bind] in Hres. rewrite Hres, Hd.
  rewrite translate_newlines_no_CR by done. split; [done|]. by apply (utf8_decode_sound b s).
Qed.

Lemma read_text_fidelity_witness :
  read_text scenario_tree (py "./src/app.py") = Ok (py "print(1)") /\
  utf8_encode (py "print(1)") = Some (py "print(1)").
Proof.
  apply (read_text_fidelity scenario_tree (py "./src/app.py") (py "print(1)")).
  - decide_by_eval.
  - reflexivity.
  - reflexivity.
  - decide_by_eval.
Defined.

(** [\r\n] is read as [\n]. *)
Example read_text_crlf :
  read_text [(py "a.py", File (Some [0x61; CR; LF]))] (py "./a.py") = Ok [0x61; LF].
Proof. reflexivity. Qed.

