(* ===== verification/Spec.v ===== *)
(** * What the run produces, and the proof that it does

    The spec describes the Aggregate Document as the ordered sequence of
    sections, one per selected file, each the relative path and the text of
    the file.  This file states that abstract result directly on the tree:
    - [selected]: the files the run takes, in the order it takes them — the
      selected files of a directory, then its sub-directories that are
      neither links nor ignored, in listing order;
    - [doc_text]: the header followed by one section per selected file;
    - [ok_count] and [spec_log]: the counter and the lines printed;
      [readings] counts the [Reading] lines.
    The refinement theorem shows that [generate_context], the stack machine
    of [os.walk] driving the loop body, produces exactly these. *)

From S2P Require Import Prelude Config PathOps Utf8 Walk Ingest.

(** ** The abstract document *)

(** One file taken by the run: its relative path and the text read, or the
    exception the read raised. *)
Abbreviation entry := (pystr * result pystr)%type.

Definition section (rel : pystr) (t : result pystr) : pystr :=
  heading rel ++ fence_open ++ (match t with Ok s => s | Raise _ => [] end) ++ fence_close.

Definition doc_text (es : list entry) : pystr :=
  header ++ List.concat (map (fun e => section e.1 e.2) es).

Fixpoint ok_count (es : list entry) : nat :=
  match es with
  | [] => O
  | (_, Ok _) :: es' => S (ok_count es')
  | (_, Raise _) :: es' => ok_count es'
  end.

(** The lines printed while taking [es], the counter starting at [c]. *)
Fixpoint spec_log (c : nat) (es : list entry) : list log_line :=
  match es with
  | [] => []
  | (rel, t) :: es' =>
      (if (c <? 3)%nat then [LogReading rel] else []) ++
      match t with
      | Ok _ => spec_log (S c) es'
      | Raise e => LogError rel e :: spec_log c es'
      end
  end.

(** The number of [Reading] lines among [lg]. *)
Fixpoint readings (lg : list log_line) : nat :=
  match lg with
  | [] => O
  | LogReading _ :: lg' => S (readings lg')
  | _ :: lg' => readings lg'
  end.

(** ** The files the run takes *)

(** The text of a file (lines 51-52): its bytes decoded, newlines
    translated. *)
Definition file_contents (d : option bytes) : result pystr :=
  match d with
  | None => Raise PermissionError
  | Some b =>
      match utf8_decode b with
      | Some s => Ok (translate_newlines s)
      | None => Raise UnicodeDecodeError
      end
  end.

Fixpoint here_files (cfg : config) (names : list bytes) (kids : listing) :
    list (list bytes * option bytes) :=
  match kids with
  | [] => []
  | (nm, File d) :: ks =>
      (if file_selected cfg (fsdecode nm) then [(names ++ [nm], d)] else []) ++
      here_files cfg names ks
  | _ :: ks => here_files cfg names ks
  end.

(** The files taken under the sub-directories of a listing, [f] giving
    those under one sub-directory. *)
Fixpoint sub_selected (f : list bytes -> node -> list (list bytes * option bytes))
    (cfg : config) (names : list bytes) (kids : listing) : list (list bytes * option bytes) :=
  match kids with
  | [] => []
  | (nm, c) :: ks =>
      match c with
      | Dir _ => if bool_decide (fsdecode nm ∉ ignored_dirs cfg) then f (names ++ [nm]) c else []
      | _ => []
      end ++ sub_selected f cfg names ks
  end.

Fixpoint selected (cfg : config) (names : list bytes) (n : node) :
    list (list bytes * option bytes) :=
  match n with
  | Dir (Some kids) => here_files cfg names kids ++ sub_selected (selected cfg) cfg names kids
  | _ => []
  end.

Definition to_entry (f : list bytes * option bytes) : entry :=
  (join_all (map fsdecode f.1), file_contents f.2).

Definition spec_entries (cfg : config) (names : list bytes) (n : node) : list entry :=
  map to_entry (selected cfg names n).

(** ** Taking a sequence of files *)

Fixpoint take_files (es : list entry) : pyM ingest_state unit :=
  match es with
  | [] => pret tt
  | (rel, t) :: es' => take_file rel t ;; take_files es'
  end.

Definition encodable (s : pystr) : Prop := is_Some (utf8_encode s).

(** An entry the run can write: its path and its text are made of scalar
    values, which the strict encoder accepts. *)
Definition entry_ok (e : entry) : Prop :=
  Forall is_scalar e.1 /\ forall s, e.2 = Ok s -> Forall is_scalar s.

(** A valid UTF-8 name. *)
Definition utf8_valid (nm : bytes) : Prop := is_Some (utf8_decode nm).

(** A selected file: its names are proper names, its contents bytes. *)
Definition file_ok (f : list bytes * option bytes) : Prop :=
  names_ok f.1 /\ forall b, f.2 = Some b -> Forall is_byte b.

(** An entry whose path and text are code points: what a Python [str]
    holds, so what the run can meet. *)
Definition entry_cp (e : entry) : Prop :=
  Forall is_cp e.1 /\ forall s, e.2 = Ok s -> Forall is_cp s.

(** ** Lemmas *)

Lemma utf8_encode_app_Some s1 s2 b1 b2 :
  utf8_encode s1 = Some b1 -> utf8_encode s2 = Some b2 -> utf8_encode (s1 ++ s2) = Some (b1 ++ b2).
Proof. intros H1 H2. by rewrite utf8_encode_app, H1, H2. Qed.

Lemma write_None s st : utf8_encode s = None -> write s st = (st, Raise UnicodeEncodeError).
Proof. intros H. unfold write. by rewrite H. Qed.

Lemma encode_heading rel b :
  utf8_encode rel = Some b -> utf8_encode (heading rel) = Some ([LF; LF] ++ py "## FILE: " ++ b ++ [LF]).
Proof. intros H. unfold heading. rewrite !utf8_encode_app, H. reflexivity. Qed.

Lemma encode_fence_open : utf8_encode fence_open = Some fence_open.
Proof. reflexivity. Qed.

Lemma encode_fence_close : utf8_encode fence_close = Some fence_close.
Proof. reflexivity. Qed.

Lemma encode_header : utf8_encode header = Some header.
Proof. reflexivity. Qed.

Lemma encode_heading_None rel : utf8_encode rel = None -> utf8_encode (heading rel) = None.
Proof. intros H. unfold heading. rewrite !utf8_encode_app, H. reflexivity. Qed.

Ltac py_run := repeat progress (autorewrite with ingest_rw; cbv beta iota; cbn [out count log]).
#[export] Hint Rewrite @pbind_ptry : ingest_rw.

Lemma take_file_ok rel t st :
  entry_ok (rel, t) ->
  exists b, utf8_encode (section rel t) = Some b /\
    take_file rel t st =
      (mk_state (out st ++ b) (count st + ok_count [(rel, t)]) (log st ++ spec_log (count st) [(rel, t)]),
       Ok tt).
Proof.
  intros [Hr Hs]; simpl in Hr, Hs. destruct (scalars_encodable _ Hr) as [b Hb].
  pose proof (encode_heading rel b Hb) as Hh.
  assert (exists sb, utf8_encode (match t with Ok s => s | Raise _ => [] end) = Some sb) as [sb Hsb]
    by (destruct t as [s|e]; [apply scalars_encodable, (Hs s eq_refl) | by exists []]).
  eexists; split.
  { unfold section. rewrite (utf8_encode_app_Some _ _ _ _ Hh
      (utf8_encode_app_Some _ _ _ _ encode_fence_open
        (utf8_encode_app_Some _ _ _ _ Hsb encode_fence_close))). reflexivity. }
  unfold take_file. cbn [ok_count spec_log]. py_run.
  destruct (count st <? 3)%nat; py_run.
  all: rewrite (pbind_write_Some _ _ _ _ Hh); cbv beta.
  all: rewrite (pbind_write_Some _ _ _ _ encode_fence_open); cbv beta.
  all: destruct t as [s|e]; py_run.
  all: try (rewrite (pbind_write_Some _ _ _ _ Hsb); unfold incr_count; cbv beta iota; cbn [out count log]).
  all: rewrite (write_Some _ _ _ encode_fence_close); cbn [out count log ok_count spec_log].
  all: try (injection Hsb as <-).
  all: rewrite <- ?app_assoc, ?app_nil_l, ?app_nil_r, ?Nat.add_0_r, ?Nat.add_1_r; reflexivity.
Qed.

Lemma ok_count_app es1 es2 : ok_count (es1 ++ es2) = (ok_count es1 + ok_count es2)%nat.
Proof. induction es1 as [|[rel []] es1 IH]; simpl; auto. Qed.

Lemma spec_log_app c es1 es2 :
  spec_log c (es1 ++ es2) = spec_log c es1 ++ spec_log (c + ok_count es1) es2.
Proof.
  revert c; induction es1 as [|[rel [s|e]] es1 IH]; intros c; simpl.
  - by rewrite Nat.add_0_r.
  - rewrite IH, <- app_assoc. do 3 f_equal. lia.
  - by rewrite IH, <- app_assoc.
Qed.

Lemma take_files_cons rel t es st :
  take_files ((rel, t) :: es) st =
    match take_file rel t st with
    | (st', Ok _) => take_files es st'
    | (st', Raise e) => (st', Raise e)
    end.
Proof. reflexivity. Qed.

Lemma take_files_ok es st :
  Forall entry_ok es ->
  exists b, utf8_encode (List.concat (map (fun e => section e.1 e.2) es)) = Some b /\
    take_files es st =
      (mk_state (out st ++ b) (count st + ok_count es) (log st ++ spec_log (count st) es), Ok tt).
Proof.
  revert st; induction es as [|[rel t] es IH]; intros st Hok.
  - exists []. rewrite app_nil_r, Nat.add_0_r, app_nil_r. by destruct st.
  - apply Forall_cons in Hok as [Hok1 Hok].
    destruct (take_file_ok rel t st Hok1) as (b1 & Hb1 & Hst).
    destruct (IH (mk_state (out st ++ b1) (count st + ok_count [(rel, t)])
                   (log st ++ spec_log (count st) [(rel, t)])) Hok) as (b2 & Hb2 & Hst2).
    exists (b1 ++ b2). split.
    + by apply utf8_encode_app_Some.
    + rewrite take_files_cons, Hst, Hst2; cbn [out count log].
      rewrite <- !app_assoc, <- Nat.add_assoc, <- (ok_count_app [(rel, t)] es),
        (spec_log_app _ [(rel, t)] es). reflexivity.
Qed.

Lemma ok_count_le es : (ok_count es <= length es)%nat.
Proof. induction es as [|[rel []] es IH]; simpl; lia. Qed.

Lemma readings_app lg1 lg2 : readings (lg1 ++ lg2) = (readings lg1 + readings lg2)%nat.
Proof. induction lg1 as [|[] lg1 IH]; simpl; lia. Qed.

(** While fewer than three files have been read, every file taken prints
    its [Reading] line; a failed read does not advance the counter. *)
Lemma spec_log_readings c es :
  (Nat.min (3 - c) (length es) <= readings (spec_log c es) <=
     Nat.min (length es) ((3 - c) + (length es - ok_count es)))%nat.
Proof.
  revert c. induction es as [|[rel t] es IH]; intros c; [simpl; lia|].
  pose proof (ok_count_le es). cbn [spec_log length].
  rewrite readings_app. destruct (Nat.ltb_spec c 3), t as [s|e]; cbn [ok_count readings];
    [specialize (IH (S c)) | specialize (IH c) | specialize (IH (S c)) | specialize (IH c)]; lia.
Qed.

(** Files whose reads fail leave the counter where it is: while it is
    below three, each of them prints its [Reading] line. *)
Lemma readings_failed_prefix c es1 es2 :
  (c < 3)%nat -> Forall (fun e => exists ex, e.2 = Raise ex) es1 ->
  readings (spec_log c (es1 ++ es2)) = (length es1 + readings (spec_log c es2))%nat.
Proof.
  intros Hc. induction 1 as [|[rel t] es1 [ex Hex] _ IH]; [done|]. cbn [snd] in Hex. subst t.
  cbn [app spec_log length]. rewrite readings_app. destruct (Nat.ltb_spec c 3); [|lia].
  cbn [readings]. lia.
Qed.

(** A path the strict encoder refuses makes the heading's [write] raise,
    which nothing catches. *)
Lemma take_file_unencodable rel t st :
  utf8_encode rel = None ->
  take_file rel t st =
    (mk_state (out st) (count st) (log st ++ if (count st <? 3)%nat then [LogReading rel] else []),
     Raise UnicodeEncodeError).
Proof.
  intros Hr. pose proof (encode_heading_None rel Hr) as Hh.
  unfold take_file. py_run. destruct (count st <? 3)%nat; py_run;
    rewrite (pbind_write_None _ _ _ Hh); [done|]. by rewrite app_nil_r; destruct st.
Qed.

Lemma take_files_app es1 es2 st :
  take_files (es1 ++ es2) st =
    match take_files es1 st with
    | (st', Ok _) => take_files es2 st'
    | (st', Raise e) => (st', Raise e)
    end.
Proof.
  revert st; induction es1 as [|[rel t] es1 IH]; intros st; [done|].
  rewrite <- app_comm_cons, !take_files_cons.
  destruct (take_file rel t st) as [st' [|]]; [apply IH | done].
Qed.

(** ** The walk with the loop body takes the selected files *)

Section WalkSpec.
Variable cfg : config.
Variable fs : listing.
Variable cwd : pystr.
Hypothesis cwd_abs : head cwd = Some SLASH.

(** [dirs[:] = [d for d in dirs if d not in IGNORED_DIRS]] (line 33). *)
Definition kept_dirs (kids : listing) : list pystr :=
  filter (fun d => d ∉ ignored_dirs cfg) (dir_names (entries_of kids)).

(** The recursive walk with the loop body takes the selected files. *)
Definition walks_as_spec (n : node) : Prop :=
  forall names st,
    wf_node n -> names_ok names -> resolve_in (Dir (Some fs)) names = Some n ->
    walk_node (ingest_body cfg fs cwd) (node_path names) n st = take_files (spec_entries cfg names n) st.

Lemma read_text_node names d :
  names_ok names -> resolve_in (Dir (Some fs)) names = Some (File d) ->
  read_text fs (node_path names) = file_contents d.
Proof. intros Hok Hres. unfold read_text. rewrite path_comps_node_path, Hres by done. by destruct d. Qed.

Lemma relpath_node_path names :
  names_ok names -> names <> [] -> relpath cwd (node_path names) (py ".") = join_all (map fsdecode names).
Proof.
  intros Hok Hne. apply relpath_walk_path; [done | | by destruct names].
  apply Forall_fmap. eapply Forall_impl; [done|]. naive_solver.
Qed.

Lemma names_ok_snoc names kids nm c :
  names_ok names -> kids_ok kids -> (nm, c) ∈ kids -> names_ok (names ++ [nm]).
Proof.
  intros Hok [_ Hall] Hin. apply Forall_app. split; [done|]. constructor; [|done].
  by eapply Forall_forall in Hall; [|exact Hin].
Qed.

Lemma resolve_in_snoc names kids nm c :
  resolve_in (Dir (Some fs)) names = Some (Dir (Some kids)) -> kids_ok kids -> (nm, c) ∈ kids ->
  resolve_in (Dir (Some fs)) (names ++ [nm]) = Some c.
Proof.
  intros Hres [Hnd _] Hin. rewrite resolve_in_app, Hres. simpl.
  by rewrite (lookup_entry_elem (nm, c)).
Qed.

Lemma ingest_files_here names kids ks st :
  names_ok names -> resolve_in (Dir (Some fs)) names = Some (Dir (Some kids)) -> kids_ok kids ->
  (forall e, e ∈ ks -> e ∈ kids) ->
  ingest_files cfg fs cwd (node_path names) (nondir_names (entries_of ks)) st =
    take_files (map to_entry (here_files cfg names ks)) st.
Proof.
  intros Hok Hres Hkids. revert st.
  induction ks as [|[nm c] ks IH]; intros st Hsub; [done|].
  assert ((nm, c) ∈ kids) as Hin by (apply Hsub; by left).
  assert (forall e, e ∈ ks -> e ∈ kids) as Hsub' by (intros; apply Hsub; by right).
  destruct c as [d| |]; cbn [here_files]; [|apply IH; done..].
  change (nondir_names (entries_of ((nm, File d) :: ks)))
    with (fsdecode nm :: nondir_names (entries_of ks)).
  cbn [ingest_files]. destruct (file_selected cfg (fsdecode nm)); [|apply IH; done].
  rewrite ingest_file_take, <- node_path_snoc, relpath_node_path, (read_text_node (names ++ [nm]) d);
    [| eapply names_ok_snoc; eauto | eapply resolve_in_snoc; eauto
     | eapply names_ok_snoc; eauto | by destruct names].
  cbn [map app take_files to_entry fst snd]. unfold pbind.
  destruct (take_file _ _ st) as [st' [[]|e]]; [apply IH; done | done].
Qed.

Lemma descend_kept kids nm c :
  (nm, c) ∈ kids ->
  descend (kept_dirs kids) (nm, c) =
    match c with Dir _ => bool_decide (fsdecode nm ∉ ignored_dirs cfg) | _ => false end.
Proof.
  intros Hin. unfold descend, kept_dirs. cbn [fst snd].
  destruct c as [d|l|]; simpl; [done| | by rewrite andb_false_r].
  rewrite dir_names_entries, andb_true_r. apply bool_decide_ext.
  rewrite list_elem_of_filter. split; [naive_solver|].
  intros Hni. split; [done|]. apply (elem_of_map_2 (fun e : bytes * node => fsdecode e.1) (nm, Dir l)).
  by apply list_elem_of_filter.
Qed.

Lemma walk_kids_spec names kids ks st :
  names_ok names -> resolve_in (Dir (Some fs)) names = Some (Dir (Some kids)) -> kids_ok kids ->
  (forall e, e ∈ ks -> e ∈ kids) ->
  Forall (fun e => walks_as_spec e.2) ks -> Forall (fun e => wf_node e.2) ks ->
  walk_kids (ingest_body cfg fs cwd) (node_path names) (kept_dirs kids) ks st =
    take_files (map to_entry (sub_selected (selected cfg) cfg names ks)) st.
Proof.
  intros Hok Hres Hkids. revert st.
  induction ks as [|[nm c] ks IH]; intros st Hsub Hwalk Hwf; [done|].
  apply Forall_cons in Hwalk as [He Hwalk]. apply Forall_cons in Hwf as [Hwfe Hwf].
  assert ((nm, c) ∈ kids) as Hin by (apply Hsub; by left).
  assert (forall e, e ∈ ks -> e ∈ kids) as Hsub' by (intros; apply Hsub; by right).
  cbn [walk_kids sub_selected]. rewrite (descend_kept kids nm c Hin).
  destruct c as [d|l|]; [by apply IH.. | | by apply IH].
  case_bool_decide; [|by apply IH].
  rewrite map_app, take_files_app. cbn [fst snd] in *. rewrite <- node_path_snoc.
  rewrite (He (names ++ [nm]) st Hwfe) by (eapply names_ok_snoc || eapply resolve_in_snoc; eauto).
  destruct (take_files _ st) as [st2 [[]|x]]; [by apply IH | done].
Qed.

Lemma walk_node_spec n : walks_as_spec n.
Proof.
  induction n as [d| |kids IH|] using node_ind'; intros names st Hwf Hok Hres; try done.
  rewrite walk_node_dir. apply wf_node_dir in Hwf as [Hnd Hall].
  assert (kids_ok kids) as Hkids.
  { split; [done|]. eapply Forall_impl; [done|]. naive_solver. }
  unfold ingest_body, pbind, spec_entries. cbn [selected].
  rewrite (ingest_files_here names kids kids) by done.
  rewrite map_app, take_files_app.
  destruct (take_files _ st) as [st1 [[]|e]]; [|done].
  apply (walk_kids_spec names kids); try done.
  eapply Forall_impl; [done|]. naive_solver.
Qed.
End WalkSpec.

(** ** The walk of the run *)

(** [os.walk(".")] with the loop body of lines 31-56 takes the selected
    files of the tree, in order. *)
Lemma walk_ingest cfg fs cwd st :
  head cwd = Some SLASH -> wf_node (Dir (Some fs)) ->
  walk (ingest_body cfg fs cwd) fs (node_size (Dir (Some fs))) st =
    Some (take_files (spec_entries cfg [] (Dir (Some fs))) st).
Proof.
  intros Hcwd Hwf. unfold walk. change (py ".") with (node_path []).
  rewrite (walk_loop_node (ingest_body cfg fs cwd) fs
             (Dir (Some fs)) [] st Hwf (Forall_nil_2 _) eq_refl).
  f_equal. exact (walk_node_spec cfg fs cwd Hcwd (Dir (Some fs)) [] st Hwf (Forall_nil_2 _) eq_refl).
Qed.

(** ** The document can be written *)

Lemma file_contents_scalar d s :
  (forall b, d = Some b -> Forall is_byte b) -> file_contents d = Ok s -> Forall is_scalar s.
Proof.
  intros Hd. destruct d as [b|]; [|done]. simpl.
  destruct (utf8_decode b) as [s0|] eqn:E; [|done]. intros [= <-].
  apply translate_newlines_Forall; [decide_by_eval|]. by apply (utf8_decode_sound b s0); [apply Hd|].
Qed.

Lemma join_all_unencodable parts p :
  p ∈ parts -> utf8_encode p = None -> utf8_encode (join_all parts) = None.
Proof.
  intros Hin Hp. induction parts as [|q ps IH]; [by apply not_elem_of_nil in Hin|].
  destruct ps as [|q' ps'].
  - apply list_elem_of_singleton in Hin. by subst.
  - change (join_all (q :: q' :: ps')) with (q ++ SLASH :: join_all (q' :: ps')).
    rewrite utf8_encode_app. apply elem_of_cons in Hin as [->|Hin]; [by rewrite Hp|].
    cbn [utf8_encode]. rewrite IH by done. by destruct (utf8_encode q), (encode_cp SLASH).
Qed.

Lemma fsdecode_scalar nm : Forall is_byte nm -> utf8_valid nm -> Forall is_scalar (fsdecode nm).
Proof.
  intros Hb [s Hs]. rewrite (fsdecode_utf8 nm s Hs). by apply (utf8_decode_sound nm s).
Qed.

Lemma names_ok_app names nm :
  names_ok names -> normal_comp (fsdecode nm) -> Forall is_byte nm -> names_ok (names ++ [nm]).
Proof. intros ???. apply Forall_app. split; [done|]. by constructor. Qed.

Lemma selected_ok cfg n names :
  wf_node n -> names_ok names -> Forall file_ok (selected cfg names n).
Proof.
  revert names. induction n as [d| |kids IH|] using node_ind'; intros names Hwf Hok; try constructor.
  apply wf_node_dir in Hwf as [_ Hall]. cbn [selected]. apply Forall_app. split.
  - induction kids as [|[nm [d| |]] ks IHks]; cbn [here_files]; [constructor | | apply IHks..];
      apply Forall_cons in Hall as [(Hn & Hb & Hwfc) Hall]; apply Forall_cons in IH as [_ IH]; auto.
    apply Forall_app. split; [|auto].
    destruct (file_selected _ _); repeat constructor; cbn [fst snd].
    + by apply names_ok_app.
    + intros b [= ->]. done.
  - induction kids as [|[nm c] ks IHks]; cbn [sub_selected]; [constructor|].
    apply Forall_cons in Hall as [(Hn & Hb & Hwfc) Hall]. apply Forall_cons in IH as [Hc IH].
    apply Forall_app. split; [|auto].
    destruct c; try constructor. case_bool_decide; [|constructor].
    apply Hc; [done|]. by apply names_ok_app.
Qed.

Lemma entry_ok_to_entry f : file_ok f -> Forall utf8_valid f.1 -> entry_ok (to_entry f).
Proof.
  intros [Hnms Hd] Hutf. split; cbn [to_entry fst snd].
  - apply join_all_Forall; [decide_by_eval|]. apply Forall_fmap, Forall_forall. intros nm Hnm.
    eapply Forall_forall in Hnms as [_ Hb]; [|exact Hnm].
    eapply Forall_forall in Hutf; [|exact Hnm]. by apply fsdecode_scalar.
  - intros s. by apply file_contents_scalar.
Qed.

Lemma entries_ok cfg n names :
  wf_node n -> names_ok names -> Forall (fun f => Forall utf8_valid f.1) (selected cfg names n) ->
  Forall entry_ok (spec_entries cfg names n).
Proof.
  intros Hwf Hok Hutf. apply Forall_fmap.
  pose proof (selected_ok cfg n names Hwf Hok) as Hsel.
  apply Forall_forall. intros f Hin. apply entry_ok_to_entry.
  - by eapply Forall_forall in Hsel.
  - by eapply Forall_forall in Hutf.
Qed.

(** The document is made of scalar values; its encoding is bytes. *)
Lemma doc_text_scalar es : Forall entry_ok es -> Forall is_scalar (doc_text es).
Proof.
  intros Hok. unfold doc_text. apply Forall_app. split; [decide_by_eval|].
  induction Hok as [|[rel t] es [Hr Ht] _ IH]; [constructor|]. cbn [map List.concat].
  apply Forall_app. split; [|done]. cbn [fst snd] in *. unfold section, heading.
  rewrite <- !app_assoc. rewrite !Forall_app.
  split_and!; [decide_by_eval | decide_by_eval | done | decide_by_eval | decide_by_eval | |
    decide_by_eval].
  destruct t as [s|e]; [by apply Ht | constructor].
Qed.

(** ** A path that cannot be written *)

Lemma names_unencodable names :
  names_ok names -> Exists (fun nm => utf8_decode nm = None) names ->
  utf8_encode (join_all (map fsdecode names)) = None.
Proof.
  intros Hnames (nm & Hin & Hnm)%Exists_exists.
  apply (join_all_unencodable _ (fsdecode nm)); [by apply elem_of_map_2|].
  apply fsdecode_invalid_unencodable; [|done].
  by eapply Forall_forall in Hnames as [_ ?].
Qed.

(** Taking files that include one whose path cannot be encoded raises. *)
Lemma take_files_raise es st :
  Exists (fun e => utf8_encode e.1 = None) es -> exists st' e, take_files es st = (st', Raise e).
Proof.
  revert st. induction es as [|[rel t] es IH]; intros st Hex; [by inversion Hex|].
  rewrite take_files_cons. apply Exists_cons in Hex as [Hrel|Hex].
  - rewrite take_file_unencodable by done. eauto.
  - destruct (take_file rel t st) as [st1 [|e]]; eauto.
Qed.

(** ** A failed read *)

(** C8. A file whose read fails (P6) does not stop the run: the error is
    printed and the loop goes on.  But its heading and both fences are
    already written (lines 48-49 and 56 are outside the [try]), so the
    document gets an empty section for it, which the spec says is
    skipped. *)
Theorem take_file_read_error rel e st :
  Forall is_scalar rel ->
  exists b, utf8_encode rel = Some b /\
    take_file rel (Raise e) st =
      (mk_state (out st ++ [LF; LF] ++ py "## FILE: " ++ b ++ [LF] ++ fence_open ++ fence_close)
                (count st) (log st ++ spec_log (count st) [(rel, Raise e)]),
       Ok tt).
Proof.
  intros Hr. destruct (scalars_encodable rel Hr) as [b Hb]. exists b. split; [done|].
  destruct (take_file_ok rel (Raise e) st) as (b' & Hb' & ->); [by split|].
  unfold section in Hb'. rewrite (utf8_encode_app_Some _ _ _ _ (encode_heading rel b Hb)
      (utf8_encode_app_Some _ _ _ _ encode_fence_open
        (utf8_encode_app_Some [] _ [] _ eq_refl encode_fence_close))) in Hb'.
  injection Hb' as <-. cbn [ok_count]. rewrite Nat.add_0_r, ?app_nil_r.
  by rewrite <- !app_assoc.
Qed.

(** ** What is selected *)

Lemma here_files_elem cfg names0 ks names d :
  (names, d) ∈ here_files cfg names0 ks ->
  exists nm, names = names0 ++ [nm] /\ (nm, File d) ∈ ks /\ file_selected cfg (fsdecode nm) = true.
Proof.
  induction ks as [|[nm [d'| |]] ks IH]; cbn [here_files]; [by intros ?%not_elem_of_nil| |..];
    rewrite ?elem_of_app; intros Hin;
    try (destruct (IH Hin) as (nm' & ? & ? & ?); exists nm'; split_and!; [done | by right | done]).
  destruct Hin as [Hin|Hin].
  - destruct (file_selected _ _) eqn:E; [|by apply not_elem_of_nil in Hin].
    apply list_elem_of_singleton in Hin. injection Hin as -> ->. exists nm. split_and!; [done | by left | done].
  - destruct (IH Hin) as (nm' & ? & ? & ?). exists nm'. split_and!; [done | by right | done].
Qed.

Lemma here_files_complete cfg names0 ks nm d :
  (nm, File d) ∈ ks -> file_selected cfg (fsdecode nm) = true ->
  (names0 ++ [nm], d) ∈ here_files cfg names0 ks.
Proof.
  induction ks as [|[nm' c] ks IH]; [by intros ?%not_elem_of_nil|].
  intros [[= <- <-]|Hin]%elem_of_cons Hsel.
  - cbn [here_files]. rewrite Hsel. by left.
  - destruct c as [d'| |]; cbn [here_files]; [apply elem_of_app; right|..]; by apply IH.
Qed.

Lemma sub_selected_elem f cfg names0 ks x :
  x ∈ sub_selected f cfg names0 ks ->
  exists nm y, (nm, Dir y) ∈ ks /\ (fsdecode nm ∉ ignored_dirs cfg) /\ x ∈ f (names0 ++ [nm]) (Dir y).
Proof.
  induction ks as [|[nm c] ks IH]; cbn [sub_selected]; [by intros ?%not_elem_of_nil|].
  rewrite elem_of_app. intros [Hin|Hin].
  - destruct c as [|y|]; try by apply not_elem_of_nil in Hin.
    case_bool_decide; [|by apply not_elem_of_nil in Hin].
    exists nm, y. split_and!; [by left | done | done].
  - destruct (IH Hin) as (nm' & y & ? & ? & ?). exists nm', y. split_and!; [by right | done | done].
Qed.

Lemma sub_selected_complete f cfg names0 ks nm y x :
  (nm, Dir y) ∈ ks -> fsdecode nm ∉ ignored_dirs cfg -> x ∈ f (names0 ++ [nm]) (Dir y) ->
  x ∈ sub_selected f cfg names0 ks.
Proof.
  induction ks as [|[nm' c] ks IH]; [by intros ?%not_elem_of_nil|].
  cbn [sub_selected]. rewrite elem_of_app.
  intros [[= <- <-]|Hin]%elem_of_cons Hign Hx; [|right; by apply IH].
  left. by rewrite bool_decide_true.
Qed.

Lemma selected_sound_gen cfg n :
  forall names0 names d, wf_node n -> (names, d) ∈ selected cfg names0 n ->
  exists dirs nm, names = names0 ++ dirs ++ [nm] /\ resolve_in n (dirs ++ [nm]) = Some (File d) /\
    file_selected cfg (fsdecode nm) = true /\ Forall (fun x => fsdecode x ∉ ignored_dirs cfg) dirs.
Proof.
  induction n as [d0| |kids IH|] using node_ind'; intros names0 names d Hwf Hin;
    try by apply not_elem_of_nil in Hin.
  apply wf_node_dir in Hwf as [Hnd Hall]. cbn [selected] in Hin. apply elem_of_app in Hin as [Hin|Hin].
  - destruct (here_files_elem _ _ _ _ _ Hin) as (nm & -> & Hk & Hsel).
    exists [], nm. split_and!; [done | | done | constructor].
    simpl. by rewrite (lookup_entry_elem (nm, File d)).
  - destruct (sub_selected_elem _ _ _ _ _ Hin) as (nm & y & Hk & Hign & Hx).
    eapply Forall_forall in IH; [|exact Hk]. eapply Forall_forall in Hall as (_ & _ & Hwfc); [|exact Hk].
    destruct (IH _ _ _ Hwfc Hx) as (dirs & nm' & -> & Hres & Hsel & Hdirs).
    exists (nm :: dirs), nm'. split_and!; [by rewrite <- app_assoc | | done | by constructor].
    simpl. by rewrite (lookup_entry_elem (nm, Dir y)).
Qed.

Lemma selected_complete_gen cfg n :
  forall names0 dirs nm d,
    resolve_in n (dirs ++ [nm]) = Some (File d) -> Forall (fun x => fsdecode x ∉ ignored_dirs cfg) dirs ->
    file_selected cfg (fsdecode nm) = true -> (names0 ++ dirs ++ [nm], d) ∈ selected cfg names0 n.
Proof.
  induction n as [d0| |kids IH|] using node_ind'; intros names0 dirs nm d Hres Hdirs Hsel;
    [by destruct dirs.. | | by destruct dirs].
  cbn [selected]. apply elem_of_app.
  destruct dirs as [|x dirs]; cbn [app resolve_in] in Hres.
  - left. destruct (lookup_entry nm kids) eqn:E; [|done]. injection Hres as ->.
    by apply here_files_complete; [apply lookup_entry_Some|].
  - right. destruct (lookup_entry x kids) as [c|] eqn:E; [|done].
    apply lookup_entry_Some in E. apply Forall_cons in Hdirs as [Hx Hdirs].
    eapply Forall_forall in IH; [|exact E]. cbn [snd] in IH.
    destruct c as [|y|]; [by destruct dirs.. | | by destruct dirs].
    apply (sub_selected_complete _ _ _ _ x y); [done | done |].
    replace (names0 ++ (x :: dirs) ++ [nm]) with ((names0 ++ [x]) ++ dirs ++ [nm])
      by by rewrite <- app_assoc. by apply IH.
Qed.

(** Selection is sound (P1, P2, P3 as the code has them): every file
    [selected] is a file of the tree, reached through directories none of
    whose names is ignored, whose extension, lowercased, is included, and
    whose name is neither the script's nor [OUTPUT_FILE]. *)
Lemma selected_sound cfg fs names d :
  wf_node (Dir (Some fs)) -> (names, d) ∈ selected cfg [] (Dir (Some fs)) ->
  exists dirs nm, names = dirs ++ [nm] /\ resolve_in (Dir (Some fs)) names = Some (File d) /\
    ext_of (fsdecode nm) ∈ included_extensions cfg /\
    (fsdecode nm ∉ [SCRIPT_NAME; output_file cfg]) /\
    Forall (fun x => fsdecode x ∉ ignored_dirs cfg) dirs.
Proof.
  intros Hwf Hin.
  destruct (selected_sound_gen cfg _ [] names d Hwf Hin) as (dirs & nm & -> & Hres & Hsel & Hdirs).
  exists dirs, nm. unfold file_selected, self_excluded in Hsel.
  apply andb_true_iff in Hsel as [He Hs]. apply bool_decide_eq_true in He.
  apply negb_true_iff, bool_decide_eq_false in Hs. by split_and!.
Qed.

(** ** Witnesses *)

Lemma take_file_read_error_witness :
  exists b, utf8_encode (py "a.py") = Some b /\
    take_file (py "a.py") (Raise PermissionError) (mk_state header 0 []) =
      (mk_state (header ++ [LF; LF] ++ py "## FILE: " ++ b ++ [LF] ++ fence_open ++ fence_close) 0
                ([] ++ spec_log 0 [(py "a.py", Raise PermissionError)]), Ok tt).
Proof. apply (take_file_read_error (py "a.py") PermissionError (mk_state header 0 [])). decide_by_eval. Defined.

(** ** The output is UTF-8 text *)

Lemma heading_cp rel : Forall is_cp rel -> Forall is_cp (heading rel).
Proof.
  intros Hr. unfold heading. rewrite !Forall_app. split_and!; [decide_by_eval | decide_by_eval | done |
    decide_by_eval].
Qed.

Lemma take_file_preserves rel t : entry_cp (rel, t) -> preserves out_utf8 (take_file rel t).
Proof.
  intros [Hr Ht]; cbn [fst snd] in Hr, Ht. unfold take_file.
  apply preserves_pbind; [auto with pyinv | intros c].
  apply preserves_pbind; [destruct (c <? 3)%nat; auto with pyinv | intros _].
  apply preserves_pbind; [by apply preserves_write, heading_cp | intros _].
  apply preserves_pbind; [apply preserves_write; decide_by_eval | intros _].
  apply preserves_pbind; [| intros _; apply preserves_write; decide_by_eval].
  apply preserves_ptry; [|auto with pyinv].
  apply preserves_plift_bind. intros s Hs.
  apply preserves_pbind; [by apply preserves_write, Ht | auto with pyinv].
Qed.

Lemma take_files_preserves es : Forall entry_cp es -> preserves out_utf8 (take_files es).
Proof.
  induction 1 as [|[rel t] es He _ IH]; cbn [take_files]; [auto with pyinv|].
  apply preserves_pbind; [by apply take_file_preserves | auto].
Qed.

Lemma entry_cp_to_entry f : file_ok f -> entry_cp (to_entry f).
Proof.
  intros [Hnms Hd]. split; cbn [to_entry fst snd].
  - apply join_all_Forall; [decide_by_eval|]. apply Forall_map.
    eapply Forall_impl; [exact Hnms|]. intros nm [_ Hb]. by apply fsdecode_cp.
  - intros s Hs. eapply Forall_impl; [by eapply file_contents_scalar|]. apply scalar_cp.
Qed.

Lemma entries_cp cfg n names :
  wf_node n -> names_ok names -> Forall entry_cp (spec_entries cfg names n).
Proof.
  intros Hwf Hok. apply Forall_map. eapply Forall_impl; [exact (selected_ok cfg n names Hwf Hok)|].
  intros f Hf. by apply entry_cp_to_entry.
Qed.
