(* ===== verification/Document.v ===== *)
(** * Reading the document back

    The spec describes the output as an ordered sequence of sections, each
    a relative path and a raw text.  [parse_doc] is the reader a consumer of
    that format would write: it strips the header, and for each section the
    heading up to the end of its line, the opening fence, and the text up
    to the first closing fence.  The theorems: the reader gives back the
    path and the text of every section when no path holds a newline and no
    text holds a closing fence where the reader would stop early; a failed
    read reads back as an empty text; and without that condition two
    different runs can write the same document. *)

From S2P Require Import Prelude Config PathOps Utf8 Walk Ingest Spec.

(** ** The reader *)

Fixpoint strip_prefix (p s : pystr) : option pystr :=
  match p, s with
  | [], _ => Some s
  | c :: p', d :: s' => if bool_decide (c = d) then strip_prefix p' s' else None
  | _ :: _, [] => None
  end.

(** The text before the first occurrence of [pat] in [s], and the text
    after it. *)
Fixpoint split_at_first (pat s : pystr) : option (pystr * pystr) :=
  match strip_prefix pat s with
  | Some r => Some ([], r)
  | None =>
      match s with
      | [] => None
      | c :: s' =>
          match split_at_first pat s' with
          | Some (before, after) => Some (c :: before, after)
          | None => None
          end
      end
  end.

(** ["\n\n## FILE: "], the start of a heading. *)
Definition heading_prefix : pystr := [LF; LF] ++ py "## FILE: ".

(** The sections of [s]; each turn consumes a heading, so [length s] turns
    are enough. *)
Fixpoint parse_sections (fuel : nat) (s : pystr) : option (list (pystr * pystr)) :=
  match s with
  | [] => Some []
  | _ =>
      match fuel with
      | O => None
      | S fuel =>
          r1 ← strip_prefix heading_prefix s;
          '(rel, r2) ← split_at_first [LF] r1;
          r3 ← strip_prefix fence_open r2;
          '(text, r4) ← split_at_first fence_close r3;
          rest ← parse_sections fuel r4;
          Some ((rel, text) :: rest)
      end
  end.

Definition parse_doc (d : pystr) : option (list (pystr * pystr)) :=
  r ← strip_prefix header d; parse_sections (length r) r.

(** The text a section holds. *)
Definition section_text (t : result pystr) : pystr :=
  match t with Ok s => s | Raise _ => [] end.

(** [pat] does not occur in [x ++ pat] before the end of [x]. *)
Definition no_early (pat x : pystr) : Prop :=
  Forall (fun i => ~ pat `prefix_of` drop i (x ++ pat)) (seq 0 (length x)).

(** An entry the reader gives back: its path has no newline, and its text
    no closing fence that ends it early. *)
Definition readable (e : entry) : Prop :=
  LF ∉ e.1 /\ no_early fence_close (section_text e.2).

(** A tree whose file [a.md] holds what looks like the end of its section
    and a second section for [b.md]. *)
Definition fence_tree : listing :=
  [(py "a.md", File (Some (py "x" ++ fence_close ++ heading (py "b.md") ++ fence_open ++ py "y")))].

(** ** Lemmas *)

Lemma strip_prefix_app p s : strip_prefix p (p ++ s) = Some s.
Proof. induction p as [|c p IH]; simpl; [done|]. by rewrite bool_decide_true. Qed.

Lemma strip_prefix_Some p s r : strip_prefix p s = Some r -> s = p ++ r.
Proof.
  revert s. induction p as [|c p IH]; intros [|d s]; simpl; try congruence.
  case_bool_decide; [subst; intros H; f_equal; by apply IH | done].
Qed.

Lemma strip_prefix_None p s : ~ p `prefix_of` s -> strip_prefix p s = None.
Proof.
  intros Hp. destruct (strip_prefix p s) as [r|] eqn:E; [|done].
  apply strip_prefix_Some in E as ->. exfalso. apply Hp. by exists r.
Qed.

Lemma no_early_cons pat c x :
  no_early pat (c :: x) -> ~ pat `prefix_of` (c :: x ++ pat) /\ no_early pat x.
Proof.
  unfold no_early. rewrite !Forall_seq. intros H. split.
  - apply (H 0%nat). cbn [length]. lia.
  - intros j Hj. apply (H (S j)). cbn [length]. lia.
Qed.

(** A window that starts before the end of [x] lies within [x ++ pat]. *)
Lemma prefix_cut (pat y s : pystr) :
  (length pat < length y)%nat -> pat `prefix_of` y ++ s -> pat `prefix_of` y.
Proof.
  intros Hlen Hp. destruct (prefix_weak_total pat y (y ++ s)) as [|Hy]; [done | by apply prefix_app_r | done|].
  apply prefix_length in Hy. lia.
Qed.

Lemma split_at_first_eq pat s :
  split_at_first pat s =
    match strip_prefix pat s with
    | Some r => Some ([], r)
    | None =>
        match s with
        | [] => None
        | c :: s' => '(before, after) ← split_at_first pat s'; Some (c :: before, after)
        end
    end.
Proof. destruct s as [|c s]; simpl; [done|]. by destruct (strip_prefix pat _), (split_at_first pat s) as [[]|]. Qed.

Lemma split_at_first_app pat x s :
  no_early pat x -> split_at_first pat (x ++ pat ++ s) = Some (x, s).
Proof.
  induction x as [|c x IH]; intros Hx.
  - cbn [app]. by rewrite split_at_first_eq, strip_prefix_app.
  - apply no_early_cons in Hx as [Hc Hx].
    rewrite split_at_first_eq, strip_prefix_None.
    + cbn [app]. by rewrite IH.
    + intros Hp. apply Hc. apply (prefix_cut _ _ s); [cbn [length]; rewrite length_app; lia|].
      by rewrite <- app_comm_cons, <- app_assoc.
Qed.

Lemma split_at_first_LF rel s : LF ∉ rel -> split_at_first [LF] (rel ++ [LF] ++ s) = Some (rel, s).
Proof.
  induction rel as [|c rel IH]; intros Hrel.
  - by rewrite app_nil_l, split_at_first_eq, strip_prefix_app.
  - rewrite elem_of_cons in Hrel. rewrite split_at_first_eq, strip_prefix_None.
    + rewrite <- app_comm_cons. cbv beta iota. rewrite IH by naive_solver. done.
    + intros Hp%prefix_cons_inv_1. naive_solver.
Qed.

Lemma parse_sections_S fuel s :
  s <> [] ->
  parse_sections (S fuel) s =
    (r1 ← strip_prefix heading_prefix s;
     '(rel, r2) ← split_at_first [LF] r1;
     r3 ← strip_prefix fence_open r2;
     '(text, r4) ← split_at_first fence_close r3;
     rest ← parse_sections fuel r4;
     Some ((rel, text) :: rest)).
Proof. by destruct s. Qed.

Lemma section_shape rel t r :
  section rel t ++ r =
    heading_prefix ++ rel ++ [LF] ++ fence_open ++ section_text t ++ fence_close ++ r.
Proof. unfold section, heading, heading_prefix, section_text. by rewrite <- !app_assoc. Qed.

Lemma parse_sections_doc fuel es :
  Forall readable es ->
  (length (List.concat (map (fun e => section e.1 e.2) es)) <= fuel)%nat ->
  parse_sections fuel (List.concat (map (fun e => section e.1 e.2) es)) =
    Some (map (fun e => (e.1, section_text e.2)) es).
Proof.
  revert fuel. induction es as [|[rel t] es IH]; intros fuel Hr Hlen; [by destruct fuel|].
  apply Forall_cons in Hr as [[Hrel Ht] Hr]. cbn [fst snd] in Hrel, Ht.
  cbn [map List.concat fst snd] in *. rewrite section_shape in Hlen |- *.
  destruct fuel as [|fuel]; [rewrite !length_app in Hlen; unfold heading_prefix in Hlen; simpl in Hlen; lia|].
  rewrite parse_sections_S by (unfold heading_prefix; by destruct rel).
  rewrite strip_prefix_app. cbn [mbind option_bind].
  rewrite split_at_first_LF by done. cbn [mbind option_bind].
  rewrite strip_prefix_app. cbn [mbind option_bind].
  rewrite split_at_first_app by done. cbn [mbind option_bind].
  rewrite IH by (done || (rewrite !length_app in Hlen; unfold heading_prefix in Hlen; simpl in Hlen; lia)).
  done.
Qed.

(** ** Round trip *)

(** C19. The document can be read back (the spec's Aggregate Document):
    when no path holds a newline and no text holds a closing fence that
    would end it early, the reader gives back every section's path and
    text, in order; a section whose read failed reads back as an empty
    text, like an empty file. *)
Theorem parse_doc_text es :
  Forall readable es -> parse_doc (doc_text es) = Some (map (fun e => (e.1, section_text e.2)) es).
Proof.
  intros Hr. unfold parse_doc, doc_text. rewrite strip_prefix_app. cbn [mbind option_bind].
  by apply parse_sections_doc.
Qed.

(** Without that condition the document is ambiguous: the run on
    [fence_tree] takes one file, but its document reads back as two
    sections, exactly the document of a run on a tree with [a.md] holding
    ["x"] and [b.md] holding ["y"]. *)
Example doc_text_ambiguous :
  spec_entries source_config [] (Dir (Some fence_tree)) =
    [(py "a.md", Ok (py "x" ++ fence_close ++ heading (py "b.md") ++ fence_open ++ py "y"))] /\
  parse_doc (doc_text (spec_entries source_config [] (Dir (Some fence_tree)))) =
    Some [(py "a.md", py "x"); (py "b.md", py "y")].
Proof. split; vm_compute; reflexivity. Qed.

Lemma parse_doc_text_witness :
  parse_doc (doc_text [(py "README.md", Ok (py "# Hi")); (py "src/app.py", Ok (py "print(1)"))]) =
    Some [(py "README.md", py "# Hi"); (py "src/app.py", py "print(1)")].
Proof. apply (parse_doc_text [(py "README.md", Ok (py "# Hi")); (py "src/app.py", Ok (py "print(1)"))]). decide_by_eval. Defined.
