(* ===== verification/Refinement.v ===== *)
(** * [generate_context] refines the abstract run

    For the configuration of the script, on a well-formed tree whose
    directory [notebookLM] exists and whose selected files have UTF-8
    names: the run completes, the output file holds
    the strict UTF-8 encoding of [doc_text] of the selected files, and the
    lines printed are [spec_log] framed by the banner and the summary.  The
    consequences the spec lists as P1-P6, the fatal errors, and the
    divergences the model exhibits follow; so do the soundness of what a
    completed run writes, the validity as UTF-8 of the output every run
    leaves, the bounds on the [Reading] lines, and that every selected file
    is written. *)

From S2P Require Import Prelude Config PathOps Utf8 Walk Ingest Spec.

(** ** The output file of the script *)

Definition OUT_DIR : bytes := py "notebookLM".
Definition OUT_NAME : bytes := py "project_context.md".

(** The tree after a run that wrote [data]: the old output, if any, is
    gone and the new one is the last entry of [notebookLM]. *)
Definition after_run (fs l : listing) (data : bytes) : listing :=
  set_entry OUT_DIR (Dir (Some (remove_entry OUT_NAME l ++ [(OUT_NAME, File (Some data))]))) fs.

(** The lines a completed run prints. *)
Definition run_log (cwd : pystr) (es : list entry) : list log_line :=
  [LogStarting cwd] ++ spec_log 0 es ++
  [LogFinished (ok_count es); LogSaved (abspath cwd OUTPUT_FILE)].

(** The working directory and the old output of the spec's scenario. *)
Definition scenario_cwd : pystr := py "/home/u".
Definition scenario_out : listing := [(py "project_context.md", File (Some (py "old")))].


(** The bytes of the output file of [fs], if it is a readable file. *)
Definition output_data (fs : listing) : option bytes :=
  match lookup_entry OUT_DIR fs with
  | Some (Dir (Some l)) =>
      match lookup_entry OUT_NAME l with Some (File (Some b)) => Some b | _ => None end
  | _ => None
  end.

(** The tree a run leaves. *)
Definition run_tree (r : run_end) : listing :=
  match r with Completed fs _ | Crashed _ fs _ => fs end.

(** The lines a run printed. *)
Definition printed (r : run_end) : list log_line :=
  match r with Completed _ lg | Crashed _ _ lg => lg end.


(** A run whose first file cannot be read. *)
Definition reading_tree : listing :=
  [(OUT_DIR, Dir (Some []));
   (py "a.py", File None);
   (py "b.py", File (Some (py "1")));
   (py "c.py", File (Some (py "2")));
   (py "d.py", File (Some (py "3")))].


(** A run in which [caf\xe9.py], named in Latin-1, is taken. *)
Definition latin1_tree : listing :=
  [(OUT_DIR, Dir (Some []));
   (py "a.md", File (Some (py "A")));
   ([0x63; 0x61; 0x66; 0xE9] ++ py ".py", File (Some (py "x")))].


(** ** Lemmas *)

Lemma output_location_source : output_location source_config = Ok ([OUT_DIR], OUT_NAME).
Proof. reflexivity. Qed.

Lemma out_name_ok : normal_comp (fsdecode OUT_NAME) /\ Forall is_byte OUT_NAME.
Proof. split; decide_by_eval. Qed.

Lemma out_dir_ignored : fsdecode OUT_DIR ∈ ignored_dirs source_config.
Proof. decide_by_eval. Qed.

Lemma replace_output_ok nm l :
  NoDup (map fst l) -> (forall x, lookup_entry nm l <> Some (Dir x)) ->
  replace_output nm l = Ok (remove_entry nm l ++ [(nm, File (Some []))]).
Proof.
  intros Hnd Hnot. unfold replace_output.
  destruct (lookup_entry nm l) as [[d|x|]|] eqn:E; try done.
  - by destruct (Hnot x).
  - by rewrite remove_entry_absent.
Qed.

Lemma wf_child fs nm n : wf_node (Dir (Some fs)) -> lookup_entry nm fs = Some n -> wf_node n.
Proof.
  intros Hwf Hl%lookup_entry_Some. apply wf_node_dir in Hwf as [_ Hall].
  by apply (proj1 (Forall_forall entry_wf fs) Hall _ Hl).
Qed.

(** Nothing under an ignored directory is selected: replacing the listing
    of one changes nothing. *)
Lemma here_files_set_dir cfg names nm x kids :
  (exists y, lookup_entry nm kids = Some (Dir y)) ->
  here_files cfg names (set_entry nm (Dir x) kids) = here_files cfg names kids.
Proof.
  induction kids as [|[nm' c] ks IH]; simpl; [done|].
  case_bool_decide; [subst; intros [y [= ->]]; done|].
  intros Hy. destruct c; simpl; by rewrite IH.
Qed.

Lemma sub_selected_set_ignored f cfg names nm x kids :
  fsdecode nm ∈ ignored_dirs cfg -> (exists y, lookup_entry nm kids = Some (Dir y)) ->
  sub_selected f cfg names (set_entry nm (Dir x) kids) = sub_selected f cfg names kids.
Proof.
  intros Hign. induction kids as [|[nm' c] ks IH]; simpl; [done|].
  case_bool_decide; [subst; intros [y [= ->]]|].
  - simpl. by rewrite !bool_decide_false by naive_solver.
  - intros Hy. simpl. by rewrite IH.
Qed.

Lemma selected_set_ignored cfg names nm x kids :
  fsdecode nm ∈ ignored_dirs cfg -> (exists y, lookup_entry nm kids = Some (Dir y)) ->
  selected cfg names (Dir (Some (set_entry nm (Dir x) kids))) = selected cfg names (Dir (Some kids)).
Proof.
  intros Hign Hy. cbn [selected].
  by rewrite here_files_set_dir, sub_selected_set_ignored.
Qed.

Lemma spec_entries_after cfg names nm x kids :
  fsdecode nm ∈ ignored_dirs cfg -> (exists y, lookup_entry nm kids = Some (Dir y)) ->
  spec_entries cfg names (Dir (Some (set_entry nm (Dir x) kids))) = spec_entries cfg names (Dir (Some kids)).
Proof. intros ??. unfold spec_entries. by rewrite selected_set_ignored. Qed.

Lemma selected_after_run names fs l data y :
  lookup_entry OUT_DIR fs = Some (Dir y) ->
  selected source_config names (Dir (Some (after_run fs l data))) = selected source_config names (Dir (Some fs)).
Proof. intros Hy. apply selected_set_ignored; [apply out_dir_ignored | eauto]. Qed.

Lemma spec_entries_after_run names fs l data y :
  lookup_entry OUT_DIR fs = Some (Dir y) ->
  spec_entries source_config names (Dir (Some (after_run fs l data))) =
    spec_entries source_config names (Dir (Some fs)).
Proof. intros Hy. unfold spec_entries. by rewrite (selected_after_run _ _ _ _ y). Qed.

Lemma write_header st : write header st = (mk_state (out st ++ header) (count st) (log st), Ok tt).
Proof. apply write_Some, encode_header. Qed.

(** The output directory after the old output was replaced. *)
Lemma open_output fs l :
  wf_node (Dir (Some fs)) -> lookup_entry OUT_DIR fs = Some (Dir (Some l)) ->
  (forall x, lookup_entry OUT_NAME l <> Some (Dir x)) ->
  let fs1 := set_entry OUT_DIR (Dir (Some (remove_entry OUT_NAME l ++ [(OUT_NAME, File (Some []))]))) fs in
  at_dir [OUT_DIR] fs (replace_output OUT_NAME) = Some (Ok fs1) /\
  wf_node (Dir (Some fs1)) /\
  (forall data, at_dir [OUT_DIR] fs1 (store_output OUT_NAME data) = Some (Ok (after_run fs l data))).
Proof.
  intros Hwf Hl Hnot fs1.
  pose proof (wf_child _ _ _ Hwf Hl) as Hwfl.
  assert (NoDup (map fst l)) as Hnd by (by apply wf_node_dir in Hwfl as [? _]).
  destruct out_name_ok as [Hn Hb].
  rewrite (at_dir_one _ l), replace_output_ok by done.
  split_and!; [done | |].
  - apply wf_set_entry; [done|]. eapply wf_replace_output; [done | done | exact Hwfl |].
    by apply replace_output_ok.
  - intros data. unfold fs1.
    rewrite (at_dir_one _ (remove_entry OUT_NAME l ++ [(OUT_NAME, File (Some []))])).
    + unfold store_output, after_run. rewrite set_entry_last, set_entry_set_entry by
        (by apply remove_entry_not_in). done.
    + by rewrite lookup_set_entry, Hl.
Qed.

(** ** Refinement *)

(** The run completes with the output of the abstract run. *)
Lemma run_completes cwd fs l :
  head cwd = Some SLASH -> wf_node (Dir (Some fs)) ->
  lookup_entry OUT_DIR fs = Some (Dir (Some l)) ->
  (forall x, lookup_entry OUT_NAME l <> Some (Dir x)) ->
  Forall (fun f => Forall utf8_valid f.1) (selected source_config [] (Dir (Some fs))) ->
  let es := spec_entries source_config [] (Dir (Some fs)) in
  exists b, utf8_encode (doc_text es) = Some b /\
    generate_context source_config cwd fs = Some (Completed (after_run fs l b) (run_log cwd es)).
Proof.
  intros Hcwd Hwf Hl Hnot Hutf es.
  destruct (open_output fs l Hwf Hl Hnot) as (Hopen & Hwf1 & Hstore).
  set (fs1 := set_entry OUT_DIR _ fs) in Hopen, Hwf1, Hstore.
  assert (spec_entries source_config [] (Dir (Some fs1)) = es) as Hes
    by (apply spec_entries_after; [apply out_dir_ignored | eauto]).
  assert (Forall entry_ok es) as Hok by (apply entries_ok; [done | constructor | done]).
  destruct (take_files_ok es (mk_state header 0 [LogStarting cwd]) Hok) as (b & Hb & Hrun).
  exists (header ++ b). split.
  { unfold doc_text. by apply utf8_encode_app_Some; [apply encode_header|]. }
  unfold generate_context. rewrite output_location_source, Hopen. cbv zeta.
  rewrite write_header. cbn [out count log app].
  rewrite (walk_ingest source_config fs1 cwd _ Hcwd Hwf1), Hes, Hrun. cbn [out count log].
  rewrite Hstore. unfold run_log. by rewrite <- app_assoc.
Qed.

Lemma doc_bytes fs es b :
  wf_node (Dir (Some fs)) ->
  Forall (fun f => Forall utf8_valid f.1) (selected source_config [] (Dir (Some fs))) ->
  es = spec_entries source_config [] (Dir (Some fs)) -> utf8_encode (doc_text es) = Some b ->
  Forall is_byte b.
Proof.
  intros Hwf Hutf -> Hb. eapply utf8_encode_bytes; [|exact Hb].
  apply doc_text_scalar, entries_ok; [done | constructor | done].
Qed.

Lemma lookup_entry_last nm n k : nm ∉ map fst k -> lookup_entry nm (k ++ [(nm, n)]) = Some n.
Proof.
  induction k as [|[nm' c] k IH]; simpl; intros Hnm; [by rewrite bool_decide_true|].
  rewrite elem_of_cons in Hnm. rewrite bool_decide_false by naive_solver. naive_solver.
Qed.

Lemma remove_entry_last nm n k : nm ∉ map fst k -> remove_entry nm (k ++ [(nm, n)]) = k.
Proof.
  induction k as [|[nm' c] k IH]; simpl; intros Hnm; [by rewrite bool_decide_true|].
  rewrite elem_of_cons in Hnm. rewrite bool_decide_false by naive_solver. f_equal. naive_solver.
Qed.

Lemma after_run_wf fs l data :
  wf_node (Dir (Some fs)) -> lookup_entry OUT_DIR fs = Some (Dir (Some l)) ->
  (forall x, lookup_entry OUT_NAME l <> Some (Dir x)) -> Forall is_byte data ->
  wf_node (Dir (Some (after_run fs l data))).
Proof.
  intros Hwf Hl Hnot Hd. destruct (open_output fs l Hwf Hl Hnot) as (_ & Hwf1 & Hstore).
  eapply wf_at_dir; [| exact Hwf1 | apply Hstore]. intros k k'. by apply wf_store_output.
Qed.

(** C1. The script's run, for a well-formed tree in an absolute working
    directory whose [notebookLM] directory exists and does not hold a
    directory named [project_context.md], and whose selected files have
    UTF-8 names: it completes; the output file, which replaces any earlier
    one, holds the strict UTF-8 encoding of the header followed by one
    section per selected file in walk order (heading with the relative
    path, opening fence, the text read or nothing when the read failed,
    closing fence); it prints the banner, the [Reading] and error lines of
    [spec_log], the number of files read and the absolute output path; and
    the tree it leaves is well-formed. *)
Theorem generate_context_refines cwd fs l :
  head cwd = Some SLASH -> wf_node (Dir (Some fs)) ->
  lookup_entry OUT_DIR fs = Some (Dir (Some l)) ->
  (forall x, lookup_entry OUT_NAME l <> Some (Dir x)) ->
  Forall (fun f => Forall utf8_valid f.1) (selected source_config [] (Dir (Some fs))) ->
  let es := spec_entries source_config [] (Dir (Some fs)) in
  exists b, utf8_encode (doc_text es) = Some b /\
    generate_context source_config cwd fs = Some (Completed (after_run fs l b) (run_log cwd es)) /\
    wf_node (Dir (Some (after_run fs l b))).
Proof.
  intros Hcwd Hwf Hl Hnot Hutf es.
  destruct (run_completes cwd fs l Hcwd Hwf Hl Hnot Hutf) as (b & Hb & Hrun).
  exists b. split_and!; [done | done |].
  apply after_run_wf; [done..|]. eapply doc_bytes; [exact Hwf | exact Hutf | reflexivity | exact Hb].
Qed.

(** C5. Replace semantics (P4): run again on the tree a completed run left,
    the script leaves the same tree, with the same output file, and prints
    the same lines; the earlier output, in the pruned [notebookLM], is
    neither read nor appended to. *)
Theorem generate_context_idempotent cwd fs l fs' out :
  head cwd = Some SLASH -> wf_node (Dir (Some fs)) ->
  lookup_entry OUT_DIR fs = Some (Dir (Some l)) ->
  (forall x, lookup_entry OUT_NAME l <> Some (Dir x)) ->
  Forall (fun f => Forall utf8_valid f.1) (selected source_config [] (Dir (Some fs))) ->
  generate_context source_config cwd fs = Some (Completed fs' out) ->
  generate_context source_config cwd fs' = Some (Completed fs' out).
Proof.
  intros Hcwd Hwf Hl Hnot Hutf Hgc.
  destruct (run_completes cwd fs l Hcwd Hwf Hl Hnot Hutf) as (b & Hb & Hrun).
  rewrite Hrun in Hgc. injection Hgc as <- <-.
  pose proof (wf_child _ _ _ Hwf Hl) as Hwfl.
  assert (OUT_NAME ∉ map fst (remove_entry OUT_NAME l)) as Hni
    by (apply remove_entry_not_in; by apply wf_node_dir in Hwfl as [? _]).
  set (l' := remove_entry OUT_NAME l ++ [(OUT_NAME, File (Some b))]).
  assert (lookup_entry OUT_DIR (after_run fs l b) = Some (Dir (Some l'))) as Hl'
    by (unfold after_run; by rewrite lookup_set_entry, Hl).
  destruct (run_completes cwd (after_run fs l b) l') as (b' & Hb' & Hrun'); try done.
  - apply after_run_wf; [done..|]. eapply doc_bytes; [exact Hwf | exact Hutf | reflexivity | exact Hb].
  - intros x. unfold l'. by rewrite lookup_entry_last.
  - by rewrite (selected_after_run _ _ _ _ (Some l)).
  - rewrite (spec_entries_after_run _ _ _ _ (Some l)), Hb in Hb' by done. injection Hb' as <-.
    rewrite Hrun', (spec_entries_after_run _ _ _ _ (Some l)) by done.
    unfold after_run at 1. unfold after_run. rewrite set_entry_set_entry. unfold l'.
    by rewrite remove_entry_last.
Qed.

(** ** Termination and the fatal errors *)

Lemma walk_ingest_Some cfg fs cwd st :
  wf_node (Dir (Some fs)) -> exists r, walk (ingest_body cfg fs cwd) fs (node_size (Dir (Some fs))) st = Some r.
Proof.
  intros Hwf. unfold walk. change (py ".") with (node_path []).
  rewrite (walk_loop_node (ingest_body cfg fs cwd) fs
             (Dir (Some fs)) [] st Hwf (Forall_nil_2 _) eq_refl).
  eauto.
Qed.

Lemma wf_after_replace fs l l1 :
  wf_node (Dir (Some fs)) -> lookup_entry OUT_DIR fs = Some (Dir (Some l)) ->
  replace_output OUT_NAME l = Ok l1 ->
  wf_node (Dir (Some l1)) /\ wf_node (Dir (Some (set_entry OUT_DIR (Dir (Some l1)) fs))).
Proof.
  intros Hwf Hl Hr. destruct out_name_ok.
  assert (wf_node (Dir (Some l1))) by (eapply wf_replace_output; [done | done | exact (wf_child _ _ _ Hwf Hl) | exact Hr]).
  split; [done|]. by apply wf_set_entry.
Qed.

(** The run ends, normally or with an exception. *)
Lemma run_ends cwd fs :
  wf_node (Dir (Some fs)) -> lookup_entry OUT_DIR fs <> Some DirLink ->
  exists r, generate_context source_config cwd fs = Some r.
Proof.
  intros Hwf Hnl. destruct (generate_context source_config cwd fs) as [r|] eqn:E; [eauto|].
  exfalso. revert E. change (generate_context source_config cwd fs <> None). unfold generate_context. rewrite output_location_source. cbn [at_dir].
  destruct (lookup_entry OUT_DIR fs) as [[d|[l|]|]|] eqn:Hl; try done.
  destruct (replace_output OUT_NAME l) as [l1|e] eqn:Hr; [|done]. cbv zeta.
  destruct (wf_after_replace fs l l1 Hwf Hl Hr) as [_ Hwf1].
  rewrite write_header.
  destruct (walk_ingest_Some source_config _ cwd (mk_state ([] ++ header) 0 [LogStarting cwd]) Hwf1)
    as [[st2 r] Hw].
  cbn [out count log]. rewrite Hw.
  rewrite lookup_set_entry, Hl. cbn [fmap option_fmap option_map const].
  unfold store_output. by destruct r.
Qed.

(** A completed run had a [notebookLM] directory without a directory
    [project_context.md], and only selected files with UTF-8 names. *)
Lemma completed_conditions cwd fs fs' lg :
  head cwd = Some SLASH -> wf_node (Dir (Some fs)) ->
  generate_context source_config cwd fs = Some (Completed fs' lg) ->
  exists l, lookup_entry OUT_DIR fs = Some (Dir (Some l)) /\
    (forall y, lookup_entry OUT_NAME l <> Some (Dir y)) /\
    Forall (fun f => Forall utf8_valid f.1) (selected source_config [] (Dir (Some fs))).
Proof.
  intros Hcwd Hwf. unfold generate_context. rewrite output_location_source. cbn [at_dir].
  destruct (lookup_entry OUT_DIR fs) as [[d|[l|]|]|] eqn:Hl; try done.
  destruct (replace_output OUT_NAME l) as [l1|e] eqn:Hr; [|done]. cbv zeta.
  intros Hgc. exists l. split_and!; [done | intros y Hy; unfold replace_output in Hr; by rewrite Hy in Hr |].
  destruct (decide (Forall (fun f => Forall utf8_valid f.1) (selected source_config [] (Dir (Some fs)))))
    as [|Hbad]; [done|]. exfalso.
  assert (Exists (fun e => utf8_encode e.1 = None) (spec_entries source_config [] (Dir (Some fs)))) as Hex.
  { apply not_Forall_Exists in Hbad; [|apply _]. apply Exists_exists in Hbad as (f & Hin & Hf).
    apply Exists_exists. exists (to_entry f). split; [by apply list_elem_of_In, in_map, list_elem_of_In|].
    pose proof (proj1 (Forall_forall _ _) (selected_ok source_config _ [] Hwf (Forall_nil_2 _)) f Hin) as [Hnames _].
    apply names_unencodable; [done|]. apply not_Forall_Exists in Hf; [|apply _].
    eapply Exists_impl; [exact Hf|]. intros nm Hnm. by apply eq_None_not_Some. }
  destruct (wf_after_replace fs l l1 Hwf Hl Hr) as [_ Hwf1].
  revert Hgc. rewrite write_header. cbn [out count log app].
  rewrite (walk_ingest source_config _ cwd _ Hcwd Hwf1).
  rewrite spec_entries_after by (apply out_dir_ignored || eauto).
  destruct (take_files_raise _ (mk_state header 0 [LogStarting cwd]) Hex) as (st' & e & ->).
  rewrite lookup_set_entry, Hl. done.
Qed.


(** C3. The run terminates: on every well-formed tree whose [notebookLM]
    is not a link (which leaves the modelled tree), in any working
    directory, [generate_context] ends, normally or with an exception; fuel
    equal to the number of nodes is always enough for its walk. *)
Theorem generate_context_terminates cwd fs :
  wf_node (Dir (Some fs)) -> lookup_entry OUT_DIR fs <> Some DirLink ->
  generate_context source_config cwd fs <> None.
Proof. intros Hwf Hnl. destruct (run_ends cwd fs Hwf Hnl) as [r ->]. done. Qed.

Lemma replace_output_lookup nm l l1 :
  NoDup (map fst l) -> replace_output nm l = Ok l1 -> lookup_entry nm l1 = Some (File (Some [])).
Proof.
  intros Hnd. unfold replace_output. destruct (lookup_entry nm l) as [[]|] eqn:E; try done;
    intros [= <-]; apply lookup_entry_last; [by apply remove_entry_not_in.. | by apply lookup_entry_None].
Qed.

(** The output file after a run that wrote [data]. *)
Lemma output_data_stored fs l l1 data :
  NoDup (map fst l) -> lookup_entry OUT_DIR fs = Some (Dir (Some l)) -> replace_output OUT_NAME l = Ok l1 ->
  output_data (set_entry OUT_DIR (Dir (Some (set_entry OUT_NAME (File (Some data)) l1)))
                 (set_entry OUT_DIR (Dir (Some l1)) fs)) = Some data.
Proof.
  intros Hnd Hl Hr. unfold output_data. rewrite !lookup_set_entry, Hl. cbn [fmap option_fmap option_map const].
  by rewrite lookup_set_entry, (replace_output_lookup _ _ _ Hnd Hr).
Qed.

(** C20. Whatever way a run ends, normally or by an exception, the output
    file it leaves, if any, is valid UTF-8: the strict encoding of the text
    written so far, which the decoder reads back.  A run that crashes on a
    name leaves the sections before it, never a partial or escaped
    encoding, since [outfile.write] encodes its whole argument first. *)
Theorem generate_context_output_utf8 cwd fs r b :
  head cwd = Some SLASH -> wf_node (Dir (Some fs)) ->
  generate_context source_config cwd fs = Some r -> output_data (run_tree r) = Some b ->
  exists s, utf8_decode b = Some s /\ utf8_encode s = Some b.
Proof.
  intros Hcwd Hwf. unfold generate_context. rewrite output_location_source. cbn [at_dir].
  destruct (lookup_entry OUT_DIR fs) as [[d|[l|]|]|] eqn:Hl;
    try (intros [= <-]; cbn [run_tree]; unfold output_data; by rewrite Hl); try done.
  destruct (replace_output OUT_NAME l) as [l1|e] eqn:Hr.
  2: { intros [= <-] Hb. cbn [run_tree] in Hb. unfold output_data in Hb. rewrite Hl in Hb.
       unfold replace_output in Hr. destruct (lookup_entry OUT_NAME l) as [[]|]; congruence. }
  cbv zeta. destruct (wf_after_replace fs l l1 Hwf Hl Hr) as [_ Hwf1].
  pose proof (wf_child _ _ _ Hwf Hl) as [Hnd _]%wf_node_dir.
  rewrite write_header. cbn [out count log app].
  rewrite (walk_ingest source_config _ cwd _ Hcwd Hwf1).
  destruct (take_files _ _) as [st2 r2] eqn:Ht.
  assert (out_utf8 st2) as (s & Hs & Hb2).
  { eapply (take_files_preserves _ (entries_cp source_config _ [] Hwf1 (Forall_nil_2 _))); [|exact Ht].
    exists header. split; [decide_by_eval | reflexivity]. }
  rewrite lookup_set_entry, Hl. cbn [fmap option_fmap option_map const]. unfold store_output.
  intros H Hb. assert (b = out st2) as ->.
  { destruct r2; injection H as <-; cbn [run_tree] in Hb;
      rewrite (output_data_stored fs l l1) in Hb by done; congruence. }
  exists s. split; [by apply utf8_encode_decode_eq | done].
Qed.
(** C10. The fatal errors of steps 1-2 of the spec: without a directory
    [notebookLM], [open] raises [FileNotFoundError]; when
    [notebookLM/project_context.md] is a directory, [os.remove] raises
    ([IsADirectoryError]).  Either way the run ends with the exception
    after the banner, having changed nothing. *)
Theorem generate_context_fatal cwd fs :
  (lookup_entry OUT_DIR fs = None ->
   generate_context source_config cwd fs = Some (Crashed FileNotFoundError fs [LogStarting cwd])) /\
  (forall l x, lookup_entry OUT_DIR fs = Some (Dir (Some l)) -> lookup_entry OUT_NAME l = Some (Dir x) ->
   generate_context source_config cwd fs = Some (Crashed IsADirectoryError fs [LogStarting cwd])).
Proof.
  unfold generate_context. rewrite output_location_source. split.
  - intros Hl. cbn [at_dir]. by rewrite Hl.
  - intros l x Hl Hx. rewrite (at_dir_one _ l) by done. unfold replace_output. by rewrite Hx.
Qed.

(** ** A file name that is not UTF-8 *)

(** C9. A selected file whose path holds a name that is not valid UTF-8
    aborts the whole run: [os.walk] hands the name over with surrogate
    escapes (PEP 383), and the [write] of its heading (line 48), outside
    the [try], raises [UnicodeEncodeError].  The run ends with that
    exception; the output keeps the sections of the files taken before
    it, and the files after it are never read. *)
Theorem generate_context_crash_name cwd fs l pre names d post :
  head cwd = Some SLASH -> wf_node (Dir (Some fs)) ->
  lookup_entry OUT_DIR fs = Some (Dir (Some l)) ->
  (forall x, lookup_entry OUT_NAME l <> Some (Dir x)) ->
  selected source_config [] (Dir (Some fs)) = pre ++ (names, d) :: post ->
  Forall (fun f => Forall utf8_valid f.1) pre -> Exists (fun nm => utf8_decode nm = None) names ->
  let es := map to_entry pre in
  exists b, utf8_encode (List.concat (map (fun e => section e.1 e.2) es)) = Some b /\
    generate_context source_config cwd fs =
      Some (Crashed UnicodeEncodeError (after_run fs l (header ++ b))
              ([LogStarting cwd] ++ spec_log 0 es ++
               if (ok_count es <? 3)%nat then [LogReading (join_all (map fsdecode names))] else [])).
Proof.
  intros Hcwd Hwf Hl Hnot Hsel Hutf Hbad es.
  destruct (open_output fs l Hwf Hl Hnot) as (Hopen & Hwf1 & Hstore).
  set (fs1 := set_entry OUT_DIR _ fs) in Hopen, Hwf1, Hstore.
  pose proof (selected_ok source_config _ [] Hwf (Forall_nil_2 _)) as Hfok.
  rewrite Hsel, Forall_app, Forall_cons in Hfok. destruct Hfok as (Hpre & [Hnames _] & _).
  assert (Forall entry_ok es) as Hok.
  { apply Forall_fmap, Forall_forall. intros f Hin. apply entry_ok_to_entry.
    - by eapply Forall_forall in Hpre.
    - by eapply Forall_forall in Hutf. }
  assert (utf8_encode (join_all (map fsdecode names)) = None) as Hrel
    by by apply names_unencodable.
  destruct (take_files_ok es (mk_state header 0 [LogStarting cwd]) Hok) as (b & Hb & Hrun).
  exists b. split; [done|].
  unfold generate_context. rewrite output_location_source, Hopen. cbv zeta.
  rewrite write_header. cbn [out count log app].
  rewrite (walk_ingest source_config fs1 cwd _ Hcwd Hwf1).
  unfold spec_entries, fs1. rewrite selected_set_ignored by (apply out_dir_ignored || eauto).
  rewrite Hsel, map_app, map_cons, take_files_app. fold es. rewrite Hrun.
  cbv [to_entry fst snd]. rewrite take_files_cons, take_file_unencodable by done.
  cbn [out count log]. rewrite Hstore. by rewrite <- app_assoc.
Qed.

(** ** Content fidelity (P5) and resilience (P6) *)

(** ** Every selected file is written *)

Lemma output_data_after_run fs l b :
  wf_node (Dir (Some fs)) -> lookup_entry OUT_DIR fs = Some (Dir (Some l)) ->
  output_data (after_run fs l b) = Some b.
Proof.
  intros Hwf Hl. pose proof (wf_child _ _ _ Hwf Hl) as Hwfl.
  apply wf_node_dir in Hwfl as [Hnd _].
  unfold output_data, after_run. rewrite lookup_set_entry, Hl. cbn [fmap option_fmap option_map const].
  by rewrite lookup_entry_last by (by apply remove_entry_not_in).
Qed.

Lemma doc_text_split es1 e es2 :
  doc_text (es1 ++ e :: es2) =
    (header ++ List.concat (map (fun e => section e.1 e.2) es1)) ++ section e.1 e.2 ++
    List.concat (map (fun e => section e.1 e.2) es2).
Proof. unfold doc_text. rewrite map_app, concat_app. cbn [map List.concat]. by rewrite <- !app_assoc. Qed.

(** C23. Every file the run must take is eventually written: on the runs
    of C1, for every file of the tree reached through directories none of
    whose names is ignored and whose name the loop selects, the run
    completes and its output file holds, as a contiguous part, the UTF-8
    encoding of that file's section (its relative path and the text read,
    or nothing when the read fails). *)
Theorem generate_context_file_written cwd fs l dirs nm d :
  head cwd = Some SLASH -> wf_node (Dir (Some fs)) ->
  lookup_entry OUT_DIR fs = Some (Dir (Some l)) ->
  (forall x, lookup_entry OUT_NAME l <> Some (Dir x)) ->
  Forall (fun f => Forall utf8_valid f.1) (selected source_config [] (Dir (Some fs))) ->
  resolve_in (Dir (Some fs)) (dirs ++ [nm]) = Some (File d) ->
  Forall (fun x => fsdecode x ∉ ignored_dirs source_config) dirs ->
  file_selected source_config (fsdecode nm) = true ->
  exists fs' lg b sb pre post,
    generate_context source_config cwd fs = Some (Completed fs' lg) /\
    output_data fs' = Some b /\
    utf8_encode (section (join_all (map fsdecode (dirs ++ [nm]))) (file_contents d)) = Some sb /\
    b = pre ++ sb ++ post.
Proof.
  intros Hcwd Hwf Hl Hnot Hutf Hres Hdirs Hsel.
  destruct (run_completes cwd fs l Hcwd Hwf Hl Hnot Hutf) as (b & Hb & Hrun).
  pose proof (selected_complete_gen source_config _ [] dirs nm d Hres Hdirs Hsel) as Hin.
  apply list_elem_of_In, (in_map to_entry), list_elem_of_In, list_elem_of_split in Hin as (es1 & es2 & Hes).
  unfold spec_entries in Hb. rewrite Hes, doc_text_split in Hb.
  apply utf8_encode_app_inv in Hb as (pre & b2 & _ & Hb2 & ->).
  apply utf8_encode_app_inv in Hb2 as (sb & post & Hsb & _ & ->).
  exists (after_run fs l (pre ++ sb ++ post)), (run_log cwd (spec_entries source_config [] (Dir (Some fs)))),
    (pre ++ sb ++ post), sb, pre, post.
  split_and!; [exact Hrun | by apply output_data_after_run | exact Hsb | done].
Qed.

(** C4. What the run writes is sound (P1, P2, P3 as the code has them):
    the output file a completed run leaves is the UTF-8 encoding of a
    document each of whose sections holds the relative path and the text
    read of a file of the tree, reached through directories none of whose
    names is ignored, whose extension, lowercased, is included, and whose
    name is neither the script's nor [OUTPUT_FILE]. *)
Theorem generate_context_sound cwd fs fs' lg b :
  head cwd = Some SLASH -> wf_node (Dir (Some fs)) ->
  generate_context source_config cwd fs = Some (Completed fs' lg) -> output_data fs' = Some b ->
  exists es, utf8_encode (doc_text es) = Some b /\
    Forall (fun e => exists dirs nm d,
              e = (join_all (map fsdecode (dirs ++ [nm])), file_contents d) /\
              resolve_in (Dir (Some fs)) (dirs ++ [nm]) = Some (File d) /\
              ext_of (fsdecode nm) ∈ included_extensions source_config /\
              fsdecode nm ∉ [SCRIPT_NAME; output_file source_config] /\
              Forall (fun x => fsdecode x ∉ ignored_dirs source_config) dirs) es.
Proof.
  intros Hcwd Hwf Hgc Hout.
  destruct (completed_conditions cwd fs fs' lg Hcwd Hwf Hgc) as (l & Hl & Hnot & Hutf).
  destruct (run_completes cwd fs l Hcwd Hwf Hl Hnot Hutf) as (b' & Hb' & Hrun).
  rewrite Hrun in Hgc. injection Hgc as <- _.
  rewrite output_data_after_run in Hout by done. injection Hout as <-.
  exists (spec_entries source_config [] (Dir (Some fs))). split; [done|].
  apply Forall_map, Forall_forall. intros [names d] Hin.
  destruct (selected_sound source_config fs names d Hwf Hin) as (dirs & nm & -> & Hres & He & Hs & Hdirs).
  by exists dirs, nm, d.
Qed.

(** ** The lines printed *)

(** C13. Line 45 tests [count], the number of files read so far, not the
    number taken: on the runs of C1 taking [n] files, when the first [k]
    of them cannot be read, at least [min n (k + 3)] [Reading] lines are
    printed, more than three as soon as one early read fails and four
    files are taken, where the spec promises the paths of the first three
    included files. *)
Theorem reading_lines_after_error cwd fs l r k :
  head cwd = Some SLASH -> wf_node (Dir (Some fs)) ->
  lookup_entry OUT_DIR fs = Some (Dir (Some l)) ->
  (forall x, lookup_entry OUT_NAME l <> Some (Dir x)) ->
  Forall (fun f => Forall utf8_valid f.1) (selected source_config [] (Dir (Some fs))) ->
  generate_context source_config cwd fs = Some r ->
  Forall (fun e => exists ex, e.2 = Raise ex) (take k (spec_entries source_config [] (Dir (Some fs)))) ->
  (Nat.min (length (spec_entries source_config [] (Dir (Some fs)))) (k + 3) <= readings (printed r))%nat.
Proof.
  intros Hcwd Hwf Hl Hnot Hutf Hgc.
  destruct (run_completes cwd fs l Hcwd Hwf Hl Hnot Hutf) as (b & _ & Hrun).
  rewrite Hrun in Hgc. injection Hgc as <-. cbn [printed]. unfold run_log.
  rewrite !readings_app. cbn [readings].
  generalize (spec_entries source_config [] (Dir (Some fs))) as es. intros es Hfail.
  rewrite <- (take_drop k es), readings_failed_prefix by (done || lia).
  pose proof (spec_log_readings 0 (drop k es)). rewrite length_take, length_drop in *.
  rewrite length_app, length_take, length_drop. lia.
Qed.
(** C22. What line 45 does guarantee, for the runs of C1 taking [n]
    files: at least [min 3 n] [Reading] lines are printed, and at most
    [n] and at most three more than the number of failed reads; with no
    failed read, exactly [min 3 n], the spec's "first 3 files". *)
Theorem generate_context_reading_bounds cwd fs l r :
  head cwd = Some SLASH -> wf_node (Dir (Some fs)) ->
  lookup_entry OUT_DIR fs = Some (Dir (Some l)) ->
  (forall x, lookup_entry OUT_NAME l <> Some (Dir x)) ->
  Forall (fun f => Forall utf8_valid f.1) (selected source_config [] (Dir (Some fs))) ->
  generate_context source_config cwd fs = Some r ->
  let n := length (spec_entries source_config [] (Dir (Some fs))) in
  let failed := (n - ok_count (spec_entries source_config [] (Dir (Some fs))))%nat in
  (Nat.min 3 n <= readings (printed r) <= Nat.min n (3 + failed))%nat.
Proof.
  intros Hcwd Hwf Hl Hnot Hutf Hgc n failed.
  destruct (run_completes cwd fs l Hcwd Hwf Hl Hnot Hutf) as (b & _ & Hrun).
  rewrite Hrun in Hgc. injection Hgc as <-. cbn [printed]. unfold run_log.
  rewrite !readings_app. cbn [readings]. pose proof (spec_log_readings 0 (spec_entries source_config [] (Dir (Some fs)))).
  subst n failed. revert H. generalize (spec_entries source_config [] (Dir (Some fs))) as es. intros es H. lia.
Qed.

(** ** The scenario of the spec *)

Lemma generate_context_refines_witness :
  exists b, utf8_encode (doc_text (spec_entries source_config [] (Dir (Some scenario_tree)))) = Some b /\
    generate_context source_config scenario_cwd scenario_tree =
      Some (Completed (after_run scenario_tree scenario_out b)
              (run_log scenario_cwd (spec_entries source_config [] (Dir (Some scenario_tree))))) /\
    wf_node (Dir (Some (after_run scenario_tree scenario_out b))).
Proof.
  apply (generate_context_refines scenario_cwd scenario_tree scenario_out).
  - reflexivity.
  - apply wf_nodeb_spec. vm_compute. reflexivity.
  - reflexivity.
  - intros x H. vm_compute in H. discriminate.
  - decide_by_eval.
Defined.

Lemma generate_context_idempotent_witness :
  exists fs' out, generate_context source_config scenario_cwd scenario_tree = Some (Completed fs' out) /\
    generate_context source_config scenario_cwd fs' = Some (Completed fs' out).
Proof.
  destruct (generate_context source_config scenario_cwd scenario_tree) as [[fs' out|e fs' out]|] eqn:E;
    [| vm_compute in E; discriminate..].
  exists fs', out. split; [reflexivity|].
  apply (generate_context_idempotent scenario_cwd scenario_tree scenario_out); try exact E.
  - reflexivity.
  - apply wf_nodeb_spec. vm_compute. reflexivity.
  - reflexivity.
  - intros x H. vm_compute in H. discriminate.
  - decide_by_eval.
Defined.

(** The scenario selects [README.md] (a file of the root comes before the
    sub-directories) and [src/app.py], and nothing under [node_modules],
    [build] or [notebookLM]. *)
Example scenario_entries :
  spec_entries source_config [] (Dir (Some scenario_tree)) =
    [(py "README.md", Ok (py "# Hi")); (py "src/app.py", Ok (py "print(1)"))].
Proof. vm_compute. reflexivity. Qed.

Lemma generate_context_terminates_witness :
  generate_context source_config scenario_cwd scenario_tree <> None.
Proof.
  apply generate_context_terminates; [apply wf_nodeb_spec; vm_compute; reflexivity | discriminate].
Defined.

Lemma generate_context_fatal_witness :
  generate_context source_config scenario_cwd [(py "README.md", File (Some (py "# Hi")))] =
    Some (Crashed FileNotFoundError [(py "README.md", File (Some (py "# Hi")))] [LogStarting scenario_cwd]) /\
  generate_context source_config scenario_cwd [(OUT_DIR, Dir (Some [(OUT_NAME, Dir (Some []))]))] =
    Some (Crashed IsADirectoryError [(OUT_DIR, Dir (Some [(OUT_NAME, Dir (Some []))]))]
            [LogStarting scenario_cwd]).
Proof.
  split.
  - apply (generate_context_fatal scenario_cwd _). reflexivity.
  - apply (generate_context_fatal scenario_cwd _) with (l := [(OUT_NAME, Dir (Some []))]) (x := Some []);
      reflexivity.
Defined.

Lemma generate_context_crash_name_witness :
  exists b, utf8_encode (List.concat (map (fun e => section e.1 e.2)
                                          (map to_entry [([py "a.md"], Some (py "A"))]))) = Some b /\
    generate_context source_config scenario_cwd latin1_tree =
      Some (Crashed UnicodeEncodeError (after_run latin1_tree [] (header ++ b))
              ([LogStarting scenario_cwd] ++ spec_log 0 (map to_entry [([py "a.md"], Some (py "A"))]) ++
               if (ok_count (map to_entry [([py "a.md"], Some (py "A"))]) <? 3)%nat
               then [LogReading (join_all (map fsdecode [[0x63; 0x61; 0x66; 0xE9] ++ py ".py"]))]
               else [])).
Proof.
  apply (generate_context_crash_name scenario_cwd latin1_tree [] _ _ (Some (py "x")) []).
  - reflexivity.
  - apply wf_nodeb_spec. vm_compute. reflexivity.
  - reflexivity.
  - intros x H. vm_compute in H. discriminate.
  - vm_compute. reflexivity.
  - decide_by_eval.
  - constructor. reflexivity.
Defined.

Lemma generate_context_output_utf8_witness :
  exists r b, generate_context source_config scenario_cwd latin1_tree = Some r /\
    output_data (run_tree r) = Some b /\ exists s, utf8_decode b = Some s /\ utf8_encode s = Some b.
Proof.
  destruct (generate_context source_config scenario_cwd latin1_tree) as [r|] eqn:E;
    [| vm_compute in E; discriminate].
  pose proof E as E'. vm_compute in E'. injection E' as <-.
  match type of E with _ = Some ?r =>
    destruct (output_data (run_tree r)) as [b|] eqn:Eb; [| vm_compute in Eb; discriminate] end.
  eexists _, b. split_and!; [exact E | exact Eb |].
  refine (generate_context_output_utf8 scenario_cwd latin1_tree _ b eq_refl _ E Eb).
  apply wf_nodeb_spec. vm_compute. reflexivity.
Defined.

Lemma generate_context_reading_bounds_witness :
  exists r, generate_context source_config scenario_cwd reading_tree = Some r /\
    (3 <= readings (printed r) <= 4)%nat.
Proof.
  destruct (generate_context source_config scenario_cwd reading_tree) as [r|] eqn:E;
    [| vm_compute in E; discriminate].
  exists r. split; [reflexivity|].
  assert (spec_entries source_config [] (Dir (Some reading_tree)) =
    [(py "a.py", Raise PermissionError); (py "b.py", Ok (py "1"));
     (py "c.py", Ok (py "2")); (py "d.py", Ok (py "3"))]) as Hes by (vm_compute; reflexivity).
  pose proof (generate_context_reading_bounds scenario_cwd reading_tree [] r) as H.
  cbv zeta in H. rewrite Hes in H. cbn [length ok_count] in H. apply H.
  - reflexivity.
  - apply wf_nodeb_spec. vm_compute. reflexivity.
  - reflexivity.
  - intros x Hx. vm_compute in Hx. discriminate.
  - decide_by_eval.
  - exact E.
Defined.

Lemma generate_context_file_written_witness :
  exists fs' lg b sb pre post,
    generate_context source_config scenario_cwd scenario_tree = Some (Completed fs' lg) /\
    output_data fs' = Some b /\
    utf8_encode (section (join_all (map fsdecode ([py "src"] ++ [py "app.py"]))) (file_contents (Some (py "print(1)")))) = Some sb /\
    b = pre ++ sb ++ post.
Proof.
  apply (generate_context_file_written scenario_cwd scenario_tree scenario_out [py "src"] (py "app.py")).
  - reflexivity.
  - apply wf_nodeb_spec. vm_compute. reflexivity.
  - reflexivity.
  - intros x H. vm_compute in H. discriminate.
  - decide_by_eval.
  - reflexivity.
  - decide_by_eval.
  - reflexivity.
Defined.

Lemma generate_context_sound_witness :
  exists fs' lg b, generate_context source_config scenario_cwd scenario_tree = Some (Completed fs' lg) /\
    output_data fs' = Some b /\
    exists es, utf8_encode (doc_text es) = Some b /\
    Forall (fun e => exists dirs nm d,
              e = (join_all (map fsdecode (dirs ++ [nm])), file_contents d) /\
              resolve_in (Dir (Some scenario_tree)) (dirs ++ [nm]) = Some (File d) /\
              ext_of (fsdecode nm) ∈ included_extensions source_config /\
              fsdecode nm ∉ [SCRIPT_NAME; output_file source_config] /\
              Forall (fun x => fsdecode x ∉ ignored_dirs source_config) dirs) es.
Proof.
  destruct (generate_context source_config scenario_cwd scenario_tree) as [r|] eqn:E;
    [| vm_compute in E; discriminate].
  pose proof E as E'. vm_compute in E'. injection E' as <-.
  match type of E with _ = Some (Completed ?fs' ?lg) =>
    destruct (output_data fs') as [b|] eqn:Eb; [| vm_compute in Eb; discriminate];
    exists fs', lg, b; split_and!; [exact E | exact Eb |] end.
  refine (generate_context_sound scenario_cwd scenario_tree _ _ b eq_refl _ E Eb).
  apply wf_nodeb_spec. vm_compute. reflexivity.
Defined.

Lemma reading_lines_after_error_witness :
  exists r, generate_context source_config scenario_cwd reading_tree = Some r /\
    (4 <= readings (printed r))%nat.
Proof.
  destruct (generate_context source_config scenario_cwd reading_tree) as [r|] eqn:E;
    [| vm_compute in E; discriminate].
  exists r. split; [reflexivity|].
  assert (spec_entries source_config [] (Dir (Some reading_tree)) =
    [(py "a.py", Raise PermissionError); (py "b.py", Ok (py "1"));
     (py "c.py", Ok (py "2")); (py "d.py", Ok (py "3"))]) as Hes by (vm_compute; reflexivity).
  pose proof (reading_lines_after_error scenario_cwd reading_tree [] r 1) as H.
  rewrite Hes in H. cbn [length take] in H. apply H.
  - reflexivity.
  - apply wf_nodeb_spec. vm_compute. reflexivity.
  - reflexivity.
  - intros x Hx. vm_compute in Hx. discriminate.
  - decide_by_eval.
  - exact E.
  - repeat constructor. by exists PermissionError.
Defined.
