(* ===== verification/Console.v ===== *)
(** * The console and the entry point

    What the five [print] calls of [generate_context] write to standard
    output (lines 21, 46, 55, 58 and 59 of [src/ingest.py]), and what the
    [__main__] guard of lines 61-62 makes of a run: the f-strings are
    rendered as code points ([render]), the count in decimal ([str_nat]),
    each line followed by the newline [print] adds, and the text encoded by
    [sys.stdout], strictly or with surrogate escapes ([stdout_encode]).
    [str(e)] of a caught exception is left to the caller ([exn_str]): it
    depends on the operating system's message and on the file path. *)

From S2P Require Import Prelude Config PathOps Utf8 Walk Ingest Spec Document Refinement.

(** ** The decimal rendering of [count] (line 58) *)

Definition digit (d : nat) : Z := 48 + Z.of_nat d.

(** [str(n)]: the digits are produced from the last one; [S n] turns are
    enough since each divides [n] by ten. *)
Fixpoint str_nat_fuel (fuel n : nat) (acc : pystr) : pystr :=
  match fuel with
  | O => acc
  | S fuel' =>
      let acc' := digit (n mod 10) :: acc in
      if (n <? 10)%nat then acc' else str_nat_fuel fuel' (n / 10) acc'
  end.

Definition str_nat (n : nat) : pystr := str_nat_fuel (S n) n [].

Definition is_digit (c : Z) : bool := (48 <=? c) && (c <=? 57).

(** [int(s)] on a string of ASCII digits, the value kept in [acc]. *)
Fixpoint parse_dec_from (acc : nat) (s : pystr) : option nat :=
  match s with
  | [] => Some acc
  | c :: s' => if is_digit c then parse_dec_from (acc * 10 + Z.to_nat (c - 48)) s' else None
  end.

Definition parse_dec (s : pystr) : option nat :=
  match s with [] => None | _ => parse_dec_from 0 s end.

(** ** The lines printed *)

(** The emoji of the f-strings: U+1F680, U+26A0 U+FE0F, U+2705, U+1F4C4. *)
Definition ROCKET : pystr := [0x1F680].
Definition WARNING : pystr := [0x26A0; 0xFE0F].
Definition CHECK : pystr := [0x2705].
Definition PAGE : pystr := [0x1F4C4].

(** The summary line read back: its count, if it has the form of line
    58. *)
Definition parse_finished (s : pystr) : option nat :=
  r ← strip_prefix (CHECK ++ py " Finished! Scanned ") s;
  '(digits, rest) ← split_at_first (py " files.") r;
  match rest with [] => parse_dec digits | _ => None end.

Section Render.
  (** [str(e)] of the exception caught on line 54. *)
  Context (exn_str : exn -> pystr).

Definition render (l : log_line) : pystr :=
  match l with
  | LogStarting cwd => ROCKET ++ py " Starting Ingest... Scanning: " ++ cwd
  | LogReading rel => py "   Reading: " ++ rel
  | LogError rel e => py "   " ++ WARNING ++ py " Error reading " ++ rel ++ py ": " ++ exn_str e
  | LogFinished c => CHECK ++ py " Finished! Scanned " ++ str_nat c ++ py " files."
  | LogSaved p => PAGE ++ py " Saved to: " ++ p
  end.

(** [print(x)] writes [x] and then [end="\n"]. *)
Definition print_line (l : log_line) : pystr := render l ++ [LF].

Definition console_text (lg : list log_line) : pystr := List.concat (map print_line lg).

End Render.

(** The error handler of [sys.stdout]: ['strict'] under a UTF-8 locale,
    ['surrogateescape'] under the C or POSIX locale and in UTF-8 mode. *)
Inductive stdout_errors := Strict | SurrogateEscape.

(** [sys.stdout.write(s)]: the text encoded as a whole, or
    [UnicodeEncodeError] and nothing written. *)
Definition stdout_encode (m : stdout_errors) (s : pystr) : option bytes :=
  match m with Strict => utf8_encode s | SurrogateEscape => fsencode s end.

(** ** The entry point (lines 61-62) *)

(** How the process ends: normally, or with the traceback of an uncaught
    exception. *)
Inductive exit_status := ExitSuccess | ExitTraceback (e : exn).

(** The exit code the interpreter returns. *)
Definition exit_code (x : exit_status) : Z :=
  match x with ExitSuccess => 0 | ExitTraceback _ => 1 end.

(** The module executed under the name [name]: as a script it runs
    [generate_context]; imported, it only defines its constants. *)
Definition main (name cwd : pystr) (fs : listing) : option (listing * list log_line * exit_status) :=
  if bool_decide (name = py "__main__") then
    r ← generate_context source_config cwd fs;
    Some match r with
         | Completed fs' lg => (fs', lg, ExitSuccess)
         | Crashed e fs' lg => (fs', lg, ExitTraceback e)
         end
  else Some (fs, [], ExitSuccess).

(** The texts a line carries are scalar values. *)
Definition fields_scalar (l : log_line) : Prop :=
  match l with
  | LogStarting p | LogReading p | LogSaved p => Forall is_scalar p
  | LogError rel _ => Forall is_scalar rel
  | LogFinished _ => True
  end.

(** ** Lemmas on the decimal rendering *)

Lemma digit_ok d : (d < 10)%nat -> is_digit (digit d) = true /\ Z.to_nat (digit d - 48) = d.
Proof. intros Hd. unfold is_digit, digit. split; [apply andb_true_iff; split; apply Z.leb_le; lia | lia]. Qed.

Lemma str_nat_fuel_acc f n acc : str_nat_fuel f n acc = str_nat_fuel f n [] ++ acc.
Proof.
  revert n acc. induction f as [|f IH]; intros n acc; [done|]. cbn [str_nat_fuel].
  destruct (n <? 10)%nat; [done|]. rewrite IH, (IH _ [_]). by rewrite <- app_assoc.
Qed.

Lemma parse_dec_from_app a l1 l2 :
  parse_dec_from a (l1 ++ l2) = (x ← parse_dec_from a l1; parse_dec_from x l2).
Proof.
  revert a. induction l1 as [|c l1 IH]; intros a; [done|]. cbn [app parse_dec_from].
  by destruct (is_digit c).
Qed.

(** The digits of [n], most significant first, read back as [n]; the
    first one is [0] only for [0]. *)
Lemma str_nat_fuel_spec f n :
  (n < f)%nat ->
  parse_dec_from 0 (str_nat_fuel f n []) = Some n /\
  Forall (fun c => is_digit c = true) (str_nat_fuel f n []) /\
  exists c r, str_nat_fuel f n [] = c :: r /\ (c = 48 -> n = 0%nat).
Proof.
  revert n. induction f as [|f IH]; intros n Hn; [lia|]. cbn [str_nat_fuel].
  pose proof (Nat.mod_upper_bound n 10) as Hm. pose proof (Nat.div_mod n 10) as Hd.
  destruct (digit_ok (n mod 10)) as [Hdig Hval]; [lia|].
  destruct (Nat.ltb_spec n 10) as [Hlt|Hge].
  - rewrite Nat.mod_small in Hdig, Hval by lia. rewrite Nat.mod_small by lia.
    cbn [parse_dec_from]. rewrite Hdig, Hval. split_and!; [done | by constructor |].
    exists (digit n), []. split; [done|]. unfold digit. lia.
  - destruct (IH (n / 10)%nat) as (Hp & Hds & c & r & Hcr & Hc); [apply Nat.div_lt_upper_bound; lia|].
    rewrite str_nat_fuel_acc, parse_dec_from_app, Hp. cbn [mbind option_bind parse_dec_from].
    rewrite Hdig, Hval. split_and!.
    + f_equal. lia.
    + apply Forall_app. by split; [|constructor].
    + rewrite Hcr. exists c, (r ++ [digit (n mod 10)]). split; [done|].
      intros ->. specialize (Hc eq_refl). lia.
Qed.

Lemma str_nat_spec n :
  parse_dec (str_nat n) = Some n /\ Forall (fun c => is_digit c = true) (str_nat n) /\
  (head (str_nat n) = Some 48 -> n = 0%nat).
Proof.
  destruct (str_nat_fuel_spec (S n) n) as (Hp & Hds & c & r & Hcr & Hc); [lia|].
  unfold str_nat, parse_dec. rewrite Hcr in Hp, Hds |- *.
  split_and!; [done | done | intros [= ?]; auto].
Qed.

(** A text of digits holds no part of a text that starts with a space. *)
Lemma no_early_digits c pat x :
  Forall (fun c => is_digit c = true) x -> is_digit c = false -> no_early (c :: pat) x.
Proof.
  intros Hx Hc. unfold no_early. apply Forall_seq. intros i [_ Hi] [k Hk].
  destruct (lookup_lt_is_Some_2 x i) as [d Hd]; [lia|].
  assert (drop i (x ++ c :: pat) !! 0%nat = Some d) as Hd'
    by (rewrite lookup_drop, Nat.add_0_r; by apply lookup_app_l_Some).
  rewrite Hk in Hd'. injection Hd' as ->.
  pose proof (proj1 (Forall_lookup _ x) Hx i d Hd). congruence.
Qed.

(** C24. The count of the summary line (line 58): [str(count)] is
    written in decimal digits, with no leading zero, and the line reads
    back as the count. *)
Theorem finished_line_count x n :
  parse_finished (render x (LogFinished n)) = Some n /\
  Forall (fun c => is_digit c = true) (str_nat n) /\ (head (str_nat n) = Some 48 -> n = 0%nat).
Proof.
  destruct (str_nat_spec n) as (Hp & Hds & Hh). split_and!; [|done|done].
  unfold parse_finished; cbn [render]. rewrite app_assoc, strip_prefix_app. cbn [mbind option_bind].
  rewrite <- (app_nil_r (py " files.")), split_at_first_app; [done|].
  by apply no_early_digits.
Qed.

(** ** How the process ends *)

(** C25. The exit status of the script (lines 61-62): run as a script on
    a well-formed tree in an absolute working directory, the process ends,
    and it exits with status 0 exactly when [notebookLM] is a directory
    that holds no directory [project_context.md] and every file the loop
    selects has a UTF-8 name; otherwise it exits with status 1 and a
    traceback. *)
Theorem main_exit_code cwd fs :
  head cwd = Some SLASH -> wf_node (Dir (Some fs)) -> lookup_entry OUT_DIR fs <> Some DirLink ->
  exists fs' lg x, main (py "__main__") cwd fs = Some (fs', lg, x) /\
    (exit_code x = 0 <->
     exists l, lookup_entry OUT_DIR fs = Some (Dir (Some l)) /\
       (forall y, lookup_entry OUT_NAME l <> Some (Dir y)) /\
       Forall (fun f => Forall utf8_valid f.1) (selected source_config [] (Dir (Some fs)))).
Proof.
  intros Hcwd Hwf Hnl. destruct (run_ends cwd fs Hwf Hnl) as [r Hr].
  unfold main. rewrite bool_decide_true by done. rewrite Hr. cbn [mbind option_bind].
  destruct r as [fs' lg|e fs' lg]; do 3 eexists; (split; [reflexivity|]); cbn [exit_code].
  - split; [intros _; by eapply completed_conditions | done].
  - split; [done|]. intros (l & Hl & Hnot & Hutf).
    destruct (run_completes cwd fs l Hcwd Hwf Hl Hnot Hutf) as (b & _ & Hc). congruence.
Qed.

(** ** What the console can print *)

Lemma fsencode_join names :
  names_ok names -> fsencode (join_all (map fsdecode names)) = Some (join_all names).
Proof.
  induction names as [|p [|p' ps] IH]; intros Hn; [done| |];
    apply Forall_cons in Hn as [[_ Hb] Hn].
  - cbn [map join_all]. by apply fsencode_fsdecode.
  - change (join_all (map fsdecode (p :: p' :: ps))) with (fsdecode p ++ SLASH :: join_all (map fsdecode (p' :: ps))).
    rewrite fsencode_app, fsencode_fsdecode by done. cbn [fsencode]. by rewrite IH.
Qed.

Lemma names_scalar names :
  names_ok names -> Forall utf8_valid names -> Forall is_scalar (join_all (map fsdecode names)).
Proof.
  intros Hn Hv. apply join_all_Forall; [decide_by_eval|]. apply Forall_map.
  apply Forall_and in Hn as [_ Hb]. assert (Forall (fun nm => Forall is_byte nm /\ utf8_valid nm) names) as Hbv by (apply Forall_and; by split).
  eapply Forall_impl; [exact Hbv|]. intros nm [??]. by apply fsdecode_scalar.
Qed.

(** C26. The [Reading] print of line 46 and a name that is not UTF-8:
    under the ['surrogateescape'] handler the line holds the path's raw
    bytes; under the ['strict'] handler of a UTF-8 locale the [print]
    itself raises [UnicodeEncodeError], exactly when a name of the path is
    not valid UTF-8, before the heading write of line 48 would. *)
Theorem print_reading_name x names :
  names_ok names ->
  stdout_encode SurrogateEscape (print_line x (LogReading (join_all (map fsdecode names)))) =
    Some (py "   Reading: " ++ join_all names ++ [LF]) /\
  (stdout_encode Strict (print_line x (LogReading (join_all (map fsdecode names)))) = None <->
   Exists (fun nm => utf8_decode nm = None) names).
Proof.
  intros Hn. unfold stdout_encode, print_line, render. rewrite <- !app_assoc. split; [|split].
  - rewrite !fsencode_app, fsencode_join by done. reflexivity.
  - intros H. destruct (decide (Exists (fun nm => utf8_decode nm = None) names)) as [|Hv]; [done|].
    exfalso. apply not_Exists_Forall in Hv; [|apply _].
    assert (Forall is_scalar (py "   Reading: " ++ join_all (map fsdecode names) ++ [LF])) as Hs.
    { apply Forall_app. split; [decide_by_eval|]. apply Forall_app. split; [|decide_by_eval].
      apply names_scalar; [done|]. eapply Forall_impl; [exact Hv|]. intros nm Hnm. by apply not_eq_None_Some. }
    destruct (scalars_encodable _ Hs) as [b Hb]. congruence.
  - intros Hex. rewrite !utf8_encode_app, (names_unencodable names Hn Hex).
    by destruct (utf8_encode (py "   Reading: ")).
Qed.

Lemma spec_log_fields c es : Forall entry_ok es -> Forall fields_scalar (spec_log c es).
Proof.
  revert c. induction es as [|[rel t] es IH]; intros c Hok; [constructor|].
  apply Forall_cons in Hok as [[Hrel _] Hok]. cbn [spec_log]. apply Forall_app. split.
  - by case_match; repeat constructor.
  - destruct t; [by apply IH | constructor; [done | by apply IH]].
Qed.

Section ConsoleScalar.
  Context (x : exn -> pystr) (Hx : forall e, Forall is_scalar (x e)).

Lemma print_line_scalar l : fields_scalar l -> Forall is_scalar (print_line x l).
Proof.
  assert (forall s, Forall is_scalar s -> Forall is_scalar (s ++ [LF])) as Hlf
    by (intros; apply Forall_app; split; [done | decide_by_eval]).
  destruct l as [p|p|rel e|n|p]; cbn [fields_scalar]; intros Hp; unfold print_line, render; apply Hlf;
    rewrite ?Forall_app; split_and!; try done; try apply Hx; try decide_closed.
  destruct (str_nat_spec n) as (_ & Hds & _). eapply Forall_impl; [exact Hds|].
  intros c Hc. unfold is_digit in Hc. unfold is_scalar, is_surrogate. lia.
Qed.

Lemma console_text_scalar lg : Forall fields_scalar lg -> Forall is_scalar (console_text x lg).
Proof.
  intros Hlg. unfold console_text. apply Forall_concat, Forall_map.
  eapply Forall_impl; [exact Hlg|]. apply print_line_scalar.
Qed.

End ConsoleScalar.

(** C27. The prints of a run that completes (C1), in a working
    directory whose name is UTF-8, never raise: under either handler of
    [sys.stdout] the console receives the same bytes, the UTF-8 encoding of
    the lines; so modelling [print] as infallible loses nothing there. *)
Theorem console_exact x cwd fs l r :
  (forall e, Forall is_scalar (x e)) -> head cwd = Some SLASH -> Forall is_scalar cwd ->
  wf_node (Dir (Some fs)) -> lookup_entry OUT_DIR fs = Some (Dir (Some l)) ->
  (forall y, lookup_entry OUT_NAME l <> Some (Dir y)) ->
  Forall (fun f => Forall utf8_valid f.1) (selected source_config [] (Dir (Some fs))) ->
  generate_context source_config cwd fs = Some r ->
  exists b, stdout_encode Strict (console_text x (printed r)) = Some b /\
    stdout_encode SurrogateEscape (console_text x (printed r)) = Some b.
Proof.
  intros Hx Hcwd Hcs Hwf Hl Hnot Hutf Hr.
  destruct (run_completes cwd fs l Hcwd Hwf Hl Hnot Hutf) as (b & _ & Hrun).
  rewrite Hrun in Hr. injection Hr as <-. cbn [printed].
  assert (Forall is_scalar (console_text x (run_log cwd (spec_entries source_config [] (Dir (Some fs))))))
    as Hs.
  { apply console_text_scalar; [done|]. unfold run_log. rewrite !Forall_app. split_and!.
    - by repeat constructor.
    - apply spec_log_fields, entries_ok; [done | constructor | done].
    - constructor; [exact I|]. constructor; [|constructor]. cbn [fields_scalar].
      apply abspath_Forall; [decide_by_eval | done | decide_by_eval]. }
  destruct (scalars_encodable _ Hs) as [b' Hb']. exists b'. cbn [stdout_encode].
  by rewrite fsencode_scalar.
Qed.

(** ** Witnesses *)

Lemma main_exit_code_witness :
  exists fs' lg x, main (py "__main__") scenario_cwd latin1_tree = Some (fs', lg, x) /\ exit_code x = 1.
Proof.
  destruct (main_exit_code scenario_cwd latin1_tree) as (fs' & lg & x & Hm & Hiff).
  - reflexivity.
  - apply wf_nodeb_spec. vm_compute. reflexivity.
  - vm_compute. discriminate.
  - exists fs', lg, x. split; [exact Hm|]. destruct x as [|e]; [exfalso|reflexivity].
    destruct (proj1 Hiff eq_refl) as (l & Hl & _ & Hutf). revert Hutf. decide_by_eval.
Defined.

Lemma print_reading_name_witness :
  stdout_encode SurrogateEscape
    (print_line (fun _ => py "error") (LogReading (join_all (map fsdecode [py "src"; [0x63; 0x61; 0x66; 0xE9] ++ py ".py"])))) =
    Some (py "   Reading: " ++ join_all [py "src"; [0x63; 0x61; 0x66; 0xE9] ++ py ".py"] ++ [LF]) /\
  stdout_encode Strict
    (print_line (fun _ => py "error") (LogReading (join_all (map fsdecode [py "src"; [0x63; 0x61; 0x66; 0xE9] ++ py ".py"])))) = None.
Proof.
  destruct (print_reading_name (fun _ => py "error") [py "src"; [0x63; 0x61; 0x66; 0xE9] ++ py ".py"])
    as [H1 H2]; [decide_by_eval|].
  split; [exact H1|]. apply H2. decide_by_eval.
Defined.

Lemma console_exact_witness :
  exists r b, generate_context source_config scenario_cwd scenario_tree = Some r /\
    stdout_encode Strict (console_text (fun _ => py "error") (printed r)) = Some b /\
    stdout_encode SurrogateEscape (console_text (fun _ => py "error") (printed r)) = Some b.
Proof.
  destruct (generate_context source_config scenario_cwd scenario_tree) as [r|] eqn:E;
    [| vm_compute in E; discriminate].
  destruct (console_exact (fun _ => py "error") scenario_cwd scenario_tree scenario_out r) as [b Hb].
  - intros e. decide_by_eval.
  - reflexivity.
  - decide_by_eval.
  - apply wf_nodeb_spec. vm_compute. reflexivity.
  - reflexivity.
  - intros y H. vm_compute in H. discriminate.
  - decide_by_eval.
  - exact E.
  - exists r, b. split; [reflexivity | exact Hb].
Defined.
